(** * thesis_downloader.py: a shallow embedding and its properties

    The development follows [src/thesis_downloader.py]: the text
    normaliser and similarity scorer of [ThesisDownloader], the handle
    resolver [discover_handle], the metadata fetcher
    [get_thesis_metadata], the flat record store
    ([parse_theses_file], [save_theses_file]) and the batch driver [main].

    Conventions.
    - A Python [str] is a list of Unicode code points ([N]).
    - A Python [float] is an exact rational ([Q]); no rounding is modelled.
    - The network, the clock and the file system are explicit state.
    - What the operating system and the libraries refuse (a directory to
      make, a file to open, a record to encode, a reference to join) is a
      parameter. *)

From Stdlib Require Import QArith Lqa Ascii String.
From stdpp Require Import gmap list sorting.

Set Default Proof Using "Type".
Set Warnings "-register-all".
Local Open Scope list_scope.

(** ** Python strings *)

Abbreviation char := N (only parsing).
Abbreviation str := (list N) (only parsing).

(** String literals of the source, all ASCII, written as Rocq strings. *)
Definition lit (s : string) : str :=
  map N_of_ascii (list_ascii_of_string s).

Arguments lit s%_string.

(** [ord(c) < 128] *)
Definition is_ascii (c : char) : bool := (c <? 128)%N.

(** [str.isspace] on one code point; [str.split()], [str.strip()] and the
    regular expression class [\s] all use this set. *)
Definition isspace (c : char) : bool :=
  (((9 <=? c) && (c <=? 13)) || ((28 <=? c) && (c <=? 32))
   || (c =? 133) || (c =? 160) || (c =? 5760)
   || ((8192 <=? c) && (c <=? 8202))
   || (c =? 8232) || (c =? 8233) || (c =? 8239) || (c =? 8287)
   || (c =? 12288))%N.

Definition is_ascii_upper (c : char) : bool := ((65 <=? c) && (c <=? 90))%N.
Definition is_ascii_lower (c : char) : bool := ((97 <=? c) && (c <=? 122))%N.
Definition is_ascii_digit (c : char) : bool := ((48 <=? c) && (c <=? 57))%N.

(** [s.split()]: maximal runs of non-whitespace code points. [cur] is the
    word being read. *)
Fixpoint split_ws_from (cur : str) (s : str) : list str :=
  match s with
  | [] => match cur with [] => [] | _ => [cur] end
  | c :: s' =>
      if isspace c
      then match cur with
           | [] => split_ws_from [] s'
           | _ => cur :: split_ws_from [] s'
           end
      else split_ws_from (cur ++ [c]) s'
  end.

Definition split_ws (s : str) : list str := split_ws_from [] s.

(** [s.split(sep)] for a one-character separator: never empty. *)
Fixpoint split_on (sep : char) (s : str) : list str :=
  match s with
  | [] => [[]]
  | c :: s' =>
      if (c =? sep)%N then [] :: split_on sep s'
      else match split_on sep s' with
           | w :: ws => (c :: w) :: ws
           | [] => [[c]]
           end
  end.

(** [sep.join(parts)] *)
Fixpoint join (sep : str) (parts : list str) : str :=
  match parts with
  | [] => []
  | [w] => w
  | w :: ws => w ++ sep ++ join sep ws
  end.

(** [s.strip()] *)
Fixpoint lstrip (s : str) : str :=
  match s with
  | c :: s' => if isspace c then lstrip s' else s
  | [] => []
  end.

Definition rstrip (s : str) : str := rev (lstrip (rev s)).
Definition strip (s : str) : str := rstrip (lstrip s).

(** Truthiness of a string: [if s:] *)
Definition truthy (s : str) : bool :=
  match s with [] => false | _ => true end.

(** [needle in hay] *)
Fixpoint startswith (pre s : str) : bool :=
  match pre, s with
  | [], _ => true
  | c :: pre', d :: s' => (c =? d)%N && startswith pre' s'
  | _ :: _, [] => false
  end.

Fixpoint contains (needle hay : str) : bool :=
  startswith needle hay
  || match hay with
     | [] => false
     | _ :: hay' => contains needle hay'
     end.

Definition endswith (suf s : str) : bool := startswith (rev suf) (rev s).

(** ** [difflib.SequenceMatcher(None, a, b)]

    The scorer calls the matcher of the Python standard library with no
    junk predicate and the default [autojunk=True]. The embedding follows
    the library's [__chain_b], [find_longest_match],
    [get_matching_blocks] and [ratio]. Indices are natural numbers. *)

Definition block : Type := nat * nat * nat.
Definition span : Type := nat * nat * nat * nat.

(** [__chain_b]: the index [b2j] of the positions of every element of
    [b]; when [b] has 200 elements or more, elements that occur more than
    [n // 100 + 1] times are removed from the index ("popular"). *)
Definition chain_step (b2j : gmap char (list nat)) (ie : nat * char)
  : gmap char (list nat) :=
  <[ie.2 := default [] (b2j !! ie.2) ++ [ie.1]]> b2j.

Definition popular (ntest : nat) (entry : char * list nat) : Prop :=
  (ntest < length entry.2)%nat.

#[local] Instance popular_dec ntest entry : Decision (popular ntest entry).
Proof. unfold popular. apply _. Defined.

Definition chain_b (b : str) : gmap char (list nat) :=
  let b2j := foldl chain_step ∅ (imap pair b) in
  let n := length b in
  if (200 <=? n)%nat
  then filter (fun entry => ¬ popular (n / 100 + 1) entry) b2j
  else b2j.

(** [j2len.get(j - 1, 0)]: the key [-1] is never present. *)
Definition j2lenget (j2len : gmap nat nat) (j : nat) : nat :=
  match j with
  | O => O
  | S j' => default O (j2len !! j')
  end.

(** The inner loop [for j in b2j.get(a[i], nothing)] of
    [find_longest_match]; [i - k + 1] is written [i + 1 - k]. *)
Fixpoint scan_row (i blo bhi : nat) (j2len : gmap nat nat) (js : list nat)
    (newj2len : gmap nat nat) (best : block) : gmap nat nat * block :=
  match js with
  | [] => (newj2len, best)
  | j :: js' =>
      if (j <? blo)%nat then scan_row i blo bhi j2len js' newj2len best
      else if (bhi <=? j)%nat then (newj2len, best)
      else
        let k := (j2lenget j2len j + 1)%nat in
        let newj2len := <[j := k]> newj2len in
        let best := if (best.2 <? k)%nat
                    then ((i + 1 - k)%nat, (j + 1 - k)%nat, k)
                    else best in
        scan_row i blo bhi j2len js' newj2len best
  end.

Definition b2j_get (b2j : gmap char (list nat)) (a : str) (i : nat) : list nat :=
  match a !! i with
  | Some c => default [] (b2j !! c)
  | None => []
  end.

Definition row_step (a : str) (b2j : gmap char (list nat)) (blo bhi : nat)
    (st : gmap nat nat * block) (i : nat) : gmap nat nat * block :=
  scan_row i blo bhi st.1 (b2j_get b2j a i) ∅ st.2.

(** [a[i] == b[j]] *)
Definition same_at (a : str) (i : nat) (b : str) (j : nat) : bool :=
  match a !! i, b !! j with
  | Some x, Some y => (x =? y)%N
  | _, _ => false
  end.

(** [while besti > alo and bestj > blo and a[besti-1] == b[bestj-1]] *)
Fixpoint extend_left (a b : str) (alo blo besti bestj bestsize : nat) : block :=
  match besti, bestj with
  | S i', S j' =>
      if (alo <? besti)%nat && (blo <? bestj)%nat && same_at a i' b j'
      then extend_left a b alo blo i' j' (S bestsize)
      else (besti, bestj, bestsize)
  | _, _ => (besti, bestj, bestsize)
  end.

(** [while besti+bestsize < ahi and bestj+bestsize < bhi and
    a[besti+bestsize] == b[bestj+bestsize]]; [room] counts the elements of
    [a] left before [ahi]. *)
Fixpoint extend_right (a b : str) (ahi bhi besti bestj bestsize room : nat) : block :=
  match room with
  | O => (besti, bestj, bestsize)
  | S room' =>
      if (besti + bestsize <? ahi)%nat && (bestj + bestsize <? bhi)%nat
         && same_at a (besti + bestsize) b (bestj + bestsize)
      then extend_right a b ahi bhi besti bestj (S bestsize) room'
      else (besti, bestj, bestsize)
  end.

Definition find_longest_match (a b : str) (b2j : gmap char (list nat))
    (alo ahi blo bhi : nat) : block :=
  let '(besti, bestj, bestsize) :=
    (foldl (row_step a b2j blo bhi) (∅, (alo, blo, O)) (seq alo (ahi - alo))).2 in
  let '(besti, bestj, bestsize) := extend_left a b alo blo besti bestj bestsize in
  extend_right a b ahi bhi besti bestj bestsize (ahi - (besti + bestsize)).

(** The work list of [get_matching_blocks]. The head of [queue] is the
    end of the Python list ([queue.pop()], [queue.append]). [None] only
    when [fuel] runs out. *)
Fixpoint matching_loop (fuel : nat) (a b : str) (b2j : gmap char (list nat))
    (queue : list span) (matching_blocks : list block) : option (list block) :=
  match queue with
  | [] => Some matching_blocks
  | (alo, ahi, blo, bhi) :: queue =>
      match fuel with
      | O => None
      | S fuel =>
          let '(i, j, k) := find_longest_match a b b2j alo ahi blo bhi in
          if (0 <? k)%nat then
            let queue :=
              if (alo <? i)%nat && (blo <? j)%nat
              then (alo, i, blo, j) :: queue else queue in
            let queue :=
              if (i + k <? ahi)%nat && (j + k <? bhi)%nat
              then ((i + k)%nat, ahi, (j + k)%nat, bhi) :: queue else queue in
            matching_loop fuel a b b2j queue (matching_blocks ++ [(i, j, k)])
          else matching_loop fuel a b b2j queue matching_blocks
      end
  end.

(** Tuple order used by [matching_blocks.sort()]. *)
Definition block_le (x y : block) : Prop :=
  let '(i1, j1, k1) := x in
  let '(i2, j2, k2) := y in
  (i1 < i2 ∨ (i1 = i2 ∧ (j1 < j2 ∨ (j1 = j2 ∧ k1 <= k2))))%nat.

#[local] Instance block_le_dec : RelDecision block_le.
Proof. intros [[i1 j1] k1] [[i2 j2] k2]. unfold block_le. apply _. Defined.

(** Merging of adjacent blocks. *)
Fixpoint collapse (i1 j1 k1 : nat) (blocks : list block) : list block :=
  match blocks with
  | [] => if (0 <? k1)%nat then [(i1, j1, k1)] else []
  | (i2, j2, k2) :: rest =>
      if (i1 + k1 =? i2)%nat && (j1 + k1 =? j2)%nat
      then collapse i1 j1 (k1 + k2) rest
      else (if (0 <? k1)%nat then [(i1, j1, k1)] else [])
             ++ collapse i2 j2 k2 rest
  end.

Definition matching_fuel (a : str) : nat := (2 * length a + 2)%nat.

Definition get_matching_blocks (a b : str) : list block :=
  let la := length a in
  let lb := length b in
  let found :=
    default [] (matching_loop (matching_fuel a) a b (chain_b b) [(O, la, O, lb)] []) in
  collapse O O O (merge_sort block_le found) ++ [(la, lb, O)].

(** [_calculate_ratio(matches, length)] *)
Definition calculate_ratio (matches length : nat) : Q :=
  if (0 <? length)%nat
  then (2 * inject_Z (Z.of_nat matches) / inject_Z (Z.of_nat length))%Q
  else 1%Q.

Definition ratio (a b : str) : Q :=
  let matches := sum_list (map (fun t : block => t.2) (get_matching_blocks a b)) in
  calculate_ratio matches (length a + length b).

(** ** Python exceptions and results *)

Inductive exn : Type :=
  | RequestException   (* requests.get could not complete *)
  | HTTPError          (* raise_for_status on a 4xx/5xx answer *)
  | ParseError         (* ET.fromstring on text that is not XML *)
  | ParserRejectedMarkup  (* BeautifulSoup on markup html.parser refuses *)
  | JSONDecodeError    (* response.json() on text that is not JSON *)
  | IndexError
  | AttributeError
  | TypeError
  | ValueError         (* urljoin on a reference it cannot split *)
  | FileNotFoundError
  | OSError            (* open or os.makedirs on a path the system refuses *)
  | UnicodeError.      (* text that cannot be decoded or encoded as UTF-8 *)

Inductive res (A : Type) : Type :=
  | Val (a : A)
  | Raise (e : exn).
Arguments Val {A} a.
Arguments Raise {A} e.

(** ** The record store (lines 306-340) *)

(** The tuple [(title, author, type_, year, handle)]. *)
Record thesis : Type := Thesis {
  title : str;
  author : str;
  type_ : str;
  year : str;
  handle : option str
}.

Definition comma : char := 44%N.
Definition newline : char := 10%N.
Definition carriage_return : char := 13%N.
Definition slash : char := 47%N.

(** [parts[lo:-hi]] *)
Definition slice_to_neg {A} (lo hi : nat) (parts : list A) : list A :=
  take (length parts - hi - lo) (drop lo parts).

(** [parts[-k]], for [1 <= k <= len(parts)] *)
Definition index_neg (k : nat) (parts : list str) : str :=
  default [] (parts !! (length parts - k)).

(** The body of the loop of [parse_theses_file] for one line; [None] when
    the line adds no record. *)
Definition parse_line (line : str) : option thesis :=
  let line := strip line in
  if negb (truthy line) then None
  else
    let parts := split_on comma line in
    if 4 <=? length parts then
      let author := strip (default [] (parts !! 0)) in
      let '(handle, title) :=
        if 5 <=? length parts
        then (Some (strip (index_neg 1 parts)),
              strip (join [comma] (slice_to_neg 1 3 parts)))
        else (None, strip (join [comma] (slice_to_neg 1 2 parts))) in
      let type_ := strip (index_neg 2 parts) in
      let year := strip (index_neg 1 parts) in
      Some (Thesis title author type_ year handle)
    else None.

(** Text-mode reading translates ["\r\n"] and ["\r"] to ["\n"]. *)
Fixpoint universal_newlines (s : str) : str :=
  match s with
  | [] => []
  | c :: s' =>
      if (c =? carriage_return)%N then
        match s' with
        | d :: s'' =>
            if (d =? newline)%N then newline :: universal_newlines s''
            else newline :: universal_newlines s'
        | [] => [newline]
        end
      else c :: universal_newlines s'
  end.

(** The lines [for line in f] yields, each without its terminator (which
    [line.strip()] removes at once). A final terminator leaves an empty
    last piece, skipped like any blank line. *)
Definition file_lines (content : str) : list str :=
  split_on newline (universal_newlines content).

Definition parse_theses (content : str) : list thesis :=
  omap parse_line (file_lines content).

(** One iteration of the loop of [save_theses_file]: the text written. *)
Definition save_line (t : thesis) : str :=
  let parts := [author t; title t; type_ t; year t] in
  let parts :=
    match handle t with
    | Some h => if truthy h then parts ++ [h] else parts
    | None => parts
    end in
  join [comma] parts ++ [newline].

Definition save_theses (theses : list thesis) : str :=
  concat (map save_line theses).

(** The file system maps a path to the text read from it, or to the
    exception that reading it as UTF-8 text raises (a file that cannot
    be read, bytes that are no UTF-8); a path without a file raises
    [FileNotFoundError]. *)
Definition parse_theses_file (filename : str) (files : gmap str (res str))
  : res (list thesis) :=
  match files !! filename with
  | Some (Val content) => Val (parse_theses content)
  | Some (Raise e) => Raise e
  | None => Raise FileNotFoundError
  end.

(** What [save_theses_file] does to the file once it is open; whether
    it can be opened is asked where it is called. *)
Definition save_theses_file (filename : str) (theses : list thesis)
    (files : gmap str (res str)) : gmap str (res str) :=
  <[filename := Val (save_theses theses)]> files.

(** ** The outside world

    What [discover_handle], [get_thesis_metadata] and [main] exchange with
    their environment: HTTP requests, the clock, the log, the files. *)

(** A [dc:title] or [dc:creator] element: its [.text]. *)
Definition element_text : Type := option str.

(** The [oai_dc:dc] element of a record. *)
Record dc : Type := {
  dc_title : list element_text;     (* metadata.findall('dc:title', ns) *)
  dc_creator : list element_text    (* metadata.findall('dc:creator', ns) *)
}.

(** A [record] element of the feed. *)
Record oai_record : Type := {
  rec_metadata : option dc;                (* record.find('.//oai_dc:dc', ns) *)
  rec_identifier : option element_text     (* record.find('.//oai:identifier', ns) *)
}.

(** A parsed answer of the feed. *)
Record page : Type := {
  records : list oai_record;               (* root.findall('.//oai:record', ns) *)
  resumptionToken : option element_text    (* root.find('.//oai:resumptionToken', ns) *)
}.

(** JSON values, as [response.json()] returns them. The keys of an
    object are distinct. *)
Inductive jvalue : Type :=
  | JNull
  | JBool (b : bool)
  | JNum (q : Q)
  | JStr (s : str)
  | JList (l : list jvalue)
  | JDict (kv : list (str * jvalue)).

(** A row of the metadata table of the document view. *)
Record table_row : Type := {
  label_cell : option str;       (* row.find('td', class label-cell), get_text(strip=True) *)
  word_break_cell : option str   (* row.find('td', class word-break), get_text(strip=True) *)
}.

(** What the fetcher reads of the parsed HTML document. *)
Record html_doc : Type := {
  metadata_table : option (list table_row);  (* table.ds-includeSet-table and its tr *)
  page_header : option str;                  (* h2.page-header, get_text(strip=True) *)
  meta_tags : list (str * str);              (* meta: get('name', ''), get('content', '') *)
  abstract_texts : list str;                 (* the div/p blocks, get_text(strip=True) *)
  hrefs : list str                           (* a[href] *)
}.

(** An HTTP answer, seen through the three parsers the source applies. *)
Record response : Type := {
  status_ok : bool;            (* response.ok; raise_for_status raises iff false *)
  as_xml : option page;        (* ET.fromstring(response.content); None: not well-formed *)
  as_json : option jvalue;     (* response.json(); None: not JSON *)
  as_html : option html_doc    (* BeautifulSoup(response.text, 'html.parser');
                                  None: the parser refuses the markup *)
}.

(** What [requests.get] does: it raises, or returns an answer. *)
Inductive reply : Type :=
  | NoReply
  | Reply (r : response).

(** The network is the list of its coming answers, used in order; when
    none is left, [requests.get] raises. *)
Definition network : Type := list reply.

Record request : Type := {
  url : str;
  params : list (str * str)
}.

Inductive log_event : Type :=
  | InfoSearching (title author last_name : str)
  | WarnTimeout (strategy : list (str * str))
  | InfoFound (handle : str) (score : Q)
  | ErrorStrategy (strategy : list (str * str)) (e : exn)
  | WarnNoHandle (title author : str)
  | ErrorMetadata (e : exn)
  | InfoStarting
  | InfoCount (n : nat)
  | InfoSkipFuture (author year : str)
  | InfoAttempt (author : str)
  | InfoHandle (handle author : str)
  | WarnNoMetadata (author : str)
  | WarnNoHandleFor (author : str)
  | ErrorRecord (author : str) (e : exn)
  | InfoSaving
  | InfoSummary (processed with_handle discovered written : nat)
  | InfoNewHandles
  | InfoNewHandle (author handle : str).

(** The enriched record. The fields filled from the two remote sources
    hold whatever value the sources gave. *)
Record ThesisMetadata : Type := {
  md_title : jvalue;
  md_author : jvalue;
  md_type : jvalue;
  md_year : jvalue;
  md_handle : str;
  md_abstract : option str;
  md_abstract_en : option str;
  md_keywords : jvalue;
  md_keywords_en : jvalue;
  md_department : jvalue;
  md_supervisor : jvalue;
  md_language : jvalue;
  md_url : str;
  md_pdf_url : option str;
  md_last_updated : str
}.

Record world : Type := {
  sent : list request;                  (* the requests issued, oldest first *)
  clock : nat -> Q;                     (* the successive values of time.time() *)
  reads : nat;                          (* how many were read *)
  now_year : Z;                         (* datetime.now().year *)
  now_iso : str;                        (* datetime.now().isoformat() *)
  log : list log_event;                 (* logger calls, oldest first *)
  files : gmap str (res str);           (* text files by path: the text read, or
                                           the exception reading raises *)
  metadata_store : gmap str ThesisMetadata  (* the JSON files of save_metadata
                                               that hold a record, by path *)
}.

Definition logger (ev : log_event) (w : world) : world :=
  {| sent := sent w; clock := clock w; reads := reads w; now_year := now_year w;
     now_iso := now_iso w; log := log w ++ [ev]; files := files w;
     metadata_store := metadata_store w |}.

Definition record_request (rq : request) (w : world) : world :=
  {| sent := sent w ++ [rq]; clock := clock w; reads := reads w;
     now_year := now_year w; now_iso := now_iso w; log := log w;
     files := files w; metadata_store := metadata_store w |}.

(** [time.time()] *)
Definition time_time (w : world) : Q * world :=
  (clock w (reads w),
   {| sent := sent w; clock := clock w; reads := S (reads w);
      now_year := now_year w; now_iso := now_iso w; log := log w;
      files := files w; metadata_store := metadata_store w |}).

Definition set_files (fs : gmap str (res str)) (w : world) : world :=
  {| sent := sent w; clock := clock w; reads := reads w; now_year := now_year w;
     now_iso := now_iso w; log := log w; files := fs;
     metadata_store := metadata_store w |}.

Definition set_metadata_store (ms : gmap str ThesisMetadata) (w : world) : world :=
  {| sent := sent w; clock := clock w; reads := reads w; now_year := now_year w;
     now_iso := now_iso w; log := log w; files := files w;
     metadata_store := ms |}.

(** [requests.get(url, params=params, timeout=30)] *)
Definition requests_get (rq : request) (net : network) (w : world)
  : res response * network * world :=
  match net with
  | [] => (Raise RequestException, [], record_request rq w)
  | NoReply :: net' => (Raise RequestException, net', record_request rq w)
  | Reply r :: net' => (Val r, net', record_request rq w)
  end.

(** [d[key] = value] on a dict of strings: a known key keeps its place,
    a new one goes last. *)
Fixpoint dict_set (key value : str) (d : list (str * str)) : list (str * str) :=
  match d with
  | [] => [(key, value)]
  | (k, v) :: d' =>
      if decide (k = key) then (k, value) :: d'
      else (k, v) :: dict_set key value d'
  end.

(** Several calls of the logger in a row. *)
Definition log_all (events : list log_event) (w : world) : world :=
  foldl (fun w ev => logger ev w) w events.

(** [response.raise_for_status()] *)
Definition raise_for_status (r : response) : res unit :=
  if status_ok r then Val tt else Raise HTTPError.

Definition base_url : str := lit "https://dspace.cvut.cz".
Definition oai_url : str := base_url ++ lit "/oai/request".
Definition output_dir : str := lit "theses".
Definition metadata_dir : str := output_dir ++ lit "/metadata".

(** Comparison of floats. *)
Definition Qltb (x y : Q) : bool := negb (Qle_bool y x).

(** [max(scores)] for a list [x :: xs]. *)
Definition py_max (x : Q) (xs : list Q) : Q :=
  foldl (fun m y => if Qltb m y then y else m) x xs.

(** [[e.text for e in elements if e.text]] *)
Definition texts (elements : list element_text) : list str :=
  omap (fun e => match e with
                 | Some t => if truthy t then Some t else None
                 | None => None
                 end) elements.

(** [x.split('/')[-2:]] joined by ['/'] *)
Definition handle_of_identifier (best_match : str) : str :=
  let segments := split_on slash best_match in
  join [slash] (drop (length segments - 2) segments).

Definition strategy : Type := list (str * str).

Definition search_strategies : list strategy :=
  [ [(lit "set", lit "com_10467_3566")];
    [(lit "from", lit "2000-01-01")];
    [] ].

Definition first_request (s : strategy) : request :=
  {| url := oai_url;
     params := [(lit "verb", lit "ListRecords");
                (lit "metadataPrefix", lit "oai_dc")] ++ s |}.

Definition next_request (token : str) : request :=
  {| url := oai_url;
     params := [(lit "verb", lit "ListRecords");
                (lit "resumptionToken", token)] |}.

(** How the body of the [try] of one strategy ends. *)
Inductive strategy_end : Type :=
  | Returned (handle : str)    (* return handle *)
  | Finished                   (* break: the loop ended, on to the next strategy *)
  | Raised (e : exn).          (* caught by except Exception *)

(** ** Sample Unicode tables: the Latin-1 supplement only *)

Definition latin1_isupper (c : char) : bool :=
  ((192 <=? c) && (c <=? 222) && negb (c =? 215))%N.

Definition latin1_lower (c : char) : str :=
  [if latin1_isupper c then (c + 32)%N else c].

(** ** Sample records *)

Definition thesis_with_handle : thesis :=
  Thesis (lit "Analysis of X, Extended") (lit "Novak Jan") (lit "bachelor")
    (lit "2020") (Some (lit "10467/1")).

Definition thesis_plain : thesis :=
  Thesis (lit "Analysis of X") (lit "Novak Jan") (lit "master")
    (lit "2021") None.


(** ** Sample feed *)

Definition empty_doc : html_doc :=
  {| metadata_table := None; page_header := None; meta_tags := [];
     abstract_texts := []; hrefs := [] |}.

(** An answer of the feed that carries the page [p]. *)
Definition feed_answer (p : page) : response :=
  {| status_ok := true; as_xml := Some p; as_json := None;
     as_html := Some empty_doc |}.

Definition candidate (record_title creator : str) (identifier : option str)
  : oai_record :=
  {| rec_metadata :=
       Some {| dc_title := [Some record_title]; dc_creator := [Some creator] |};
     rec_identifier := Some identifier |}.

Definition query_title : str := lit "abcdefg".
Definition query_author : str := lit "Novak Jan".

(** Title similarity 7/12 and creator similarity 1: combined 0.75. *)
Definition candidate_075 : oai_record :=
  candidate (lit "abcdefg0123456789") (lit "Jan Novak")
    (Some (lit "oai:dspace.cvut.cz:10467/75")).

(** Title similarity 7/10 and creator similarity 1: combined 0.82. *)
Definition candidate_082 : oai_record :=
  candidate (lit "abcdefg012345") (lit "Jan Novak")
    (Some (lit "oai:dspace.cvut.cz:10467/82")).

(** Title similarity 2/3 and creator similarity 1: combined 0.8. *)
Definition candidate_080 : oai_record :=
  candidate (lit "abcdefg0123456") (lit "Jan Novak")
    (Some (lit "oai:dspace.cvut.cz:10467/80")).

(** Title similarity 7/9 and creator similarity 1: combined 13/15. *)
Definition candidate_087 : oai_record :=
  candidate (lit "abcdefg0123") (lit "Jan Novak")
    (Some (lit "oai:dspace.cvut.cz:10467/87")).

(** Both similarities 1, and an identifier element without text. *)
Definition candidate_unnamed : oai_record :=
  candidate (lit "abcdefg") (lit "Jan Novak") None.

Definition last_page (records : list oai_record) : page :=
  {| records := records; resumptionToken := None |}.

Definition page_then (records : list oai_record) (token : str) : page :=
  {| records := records; resumptionToken := Some (Some token) |}.

Definition quiet_world : world :=
  {| sent := []; clock := fun _ => 0%Q; reads := 0; now_year := 2026%Z;
     now_iso := lit "2026-11-04T12:00:00"; log := []; files := ∅;
     metadata_store := ∅ |}.

(** Sample [int]: ASCII digits only, no sign. *)
Definition decimal_int (s : str) : option Z :=
  match strip s with
  | [] => None
  | digits =>
      if forallb is_ascii_digit digits
      then Some (foldl (fun n c => (10 * n + (Z.of_N c - 48))%Z) 0%Z digits)
      else None
  end.

(** Sample [urljoin]: a path is appended to the base; a reference that
    starts like a network address in brackets is refused. *)
Definition append_path (base href : str) : option str :=
  if startswith (lit "//[") href then None
  else if startswith (lit "/") href then Some (base ++ href) else Some href.

(** Sample file system: every directory can be made, and a file can be
    opened unless its path has more than 255 characters. *)
Definition makedirs_ok (path : str) : option exn := None.

Definition open_short (path : str) : option exn :=
  if 255 <? length path then Some OSError else None.

(** Sample encoder: every record can be written. *)
Definition dump_ok (metadata : ThesisMetadata) : option exn := None.

(** A feed of two batches: 0.75 in the first, 0.8 and 0.82 in the last. *)
Definition feed_two_batches : network :=
  [Reply (feed_answer (page_then [candidate_075] (lit "t1")));
   Reply (feed_answer (last_page [candidate_080; candidate_082]))].

(** A feed of two batches: the unnamed record in the first, the named
    one in the last. *)
Definition feed_unnamed_first : network :=
  [Reply (feed_answer (page_then [candidate_unnamed] (lit "t1")));
   Reply (feed_answer (last_page [candidate_087]))].

(** One batch: the named record, then the unnamed one. *)
Definition feed_unnamed_last : network :=
  [Reply (feed_answer (last_page [candidate_087; candidate_unnamed]))].

(** An answer that is not XML. *)
Definition broken_answer : response :=
  {| status_ok := true; as_xml := None; as_json := None;
     as_html := Some empty_doc |}.

(** No answer for the first strategy, a broken one for the second, an
    empty batch for the third. *)
Definition feed_failing : network :=
  [NoReply; Reply broken_answer; Reply (feed_answer (last_page []))].

(** The detail endpoint gives a title. *)
Definition detail_answer : response :=
  {| status_ok := true; as_xml := None;
     as_json :=
       Some (JDict [(lit "metadata",
                     JDict [(lit "dc.title",
                             JList [JDict [(lit "value",
                                            JStr (lit "Analysis of X"))]])])]);
     as_html := Some empty_doc |}.

(** The document view answers 404. *)
Definition not_found : response :=
  {| status_ok := false; as_xml := None; as_json := None;
     as_html := Some empty_doc |}.

(** A document view with a table that gives author and date. *)
Definition document_view : html_doc :=
  {| metadata_table :=
       Some [ {| label_cell := Some (lit "Title");
                 word_break_cell := Some (lit "Another title") |};
              {| label_cell := Some (lit "Author");
                 word_break_cell := Some (lit "Novak, Jan") |};
              {| label_cell := Some (lit "Date issued");
                 word_break_cell := Some (lit "2020-06-01") |} ];
     page_header := None; meta_tags := [];
     abstract_texts := [lit "this is the text of the thesis"];
     hrefs := [lit "/bitstream/handle/10467/82/thesis.pdf?sequence=-1&isAllowed=y"] |}.

Definition document_answer : response :=
  {| status_ok := true; as_xml := None; as_json := None;
     as_html := Some document_view |}.

(** The document view answers with markup the parser refuses. *)
Definition refused_answer : response :=
  {| status_ok := true; as_xml := None; as_json := None; as_html := None |}.

Definition thesis_future : thesis :=
  Thesis (lit "Future work") (lit "Novak Jan") (lit "master") (lit "2027") None.

Definition thesis_local : thesis :=
  Thesis query_title query_author (lit "bachelor") (lit "2020") None.

(** A store with a record to resolve and a record of a future year, and
    a network that answers the resolver, the detail endpoint and the
    document view. *)
Definition stored_world : world :=
  {| sent := []; clock := fun _ => 0%Q; reads := 0; now_year := 2026%Z;
     now_iso := lit "2026-11-04T12:00:00"; log := [];
     files := {[ lit "mytheses.txt"
                   := Val (save_theses [thesis_local; thesis_future]) ]};
     metadata_store := ∅ |}.

Definition answering_network : network :=
  [Reply (feed_answer (last_page [candidate_075; candidate_082]));
   Reply detail_answer; Reply document_answer].

(** The creator element holds a single space. *)
Definition candidate_blank : oai_record :=
  candidate (lit "unrelated") (lit " ") (Some (lit "oai:dspace.cvut.cz:10467/1")).

(** A batch with an exact match after a record with a blank creator. *)
Definition feed_blank_creator : network :=
  [Reply (feed_answer (last_page
            [candidate_blank; candidate (lit "abcdefg") (lit "Jan Novak")
                                (Some (lit "oai:dspace.cvut.cz:10467/9"))]))].

(** The detail endpoint gives the issue date as a number. *)
Definition detail_numeric_date : response :=
  {| status_ok := true; as_xml := None;
     as_json :=
       Some (JDict [(lit "metadata",
                     JDict [(lit "dc.date.issued",
                             JList [JDict [(lit "value", JNum 2020)]])])]);
     as_html := Some empty_doc |}.

(** What the fetcher keeps of [detail_answer] and of
    [detail_numeric_date]. *)
Definition detail_dict : gmap str jvalue :=
  <[lit "dc.title" := JStr (lit "Analysis of X")]> ∅.

Definition numeric_date_dict : gmap str jvalue :=
  <[lit "dc.date.issued" := JNum 2020]> ∅.

(** A record of metadata with nothing but its handle. *)
Definition bare_metadata (handle : str) : ThesisMetadata :=
  {| md_title := JStr []; md_author := JStr []; md_type := JStr [];
     md_year := JStr []; md_handle := handle; md_abstract := None;
     md_abstract_en := None; md_keywords := JList [];
     md_keywords_en := JList []; md_department := JStr [];
     md_supervisor := JStr []; md_language := JStr [];
     md_url := []; md_pdf_url := None; md_last_updated := [] |}.


(** A record that comes with its handle. *)
Definition thesis_known : thesis :=
  Thesis query_title query_author (lit "bachelor") (lit "2020")
    (Some (lit "10467/82")).

(** Text blocks in English and in Czech, after an empty one. *)
Definition abstracts_doc : html_doc :=
  {| metadata_table := None; page_header := None; meta_tags := [];
     abstract_texts :=
       [[]; lit "this is the text of the thesis";
        lit "tato pr" ++ [225%N] ++ lit "ce byla dobra";
        lit "the second text and more"; lit "bylo a jsou"];
     hrefs := [] |}.

(** No answer to the first strategy, then the two batches. *)
Definition feed_after_failure : network := NoReply :: feed_two_batches.

(** A page whose only link passes the test and cannot be joined. *)
Definition bad_link_doc : html_doc :=
  {| metadata_table := None; page_header := None; meta_tags := [];
     abstract_texts := [];
     hrefs := [lit "//[/bitstream/handle/x?sequence=-1&isAllowed=y"] |}.

Definition bad_link_answer : response :=
  {| status_ok := true; as_xml := None; as_json := None;
     as_html := Some bad_link_doc |}.

(** ** The Unicode tables of the Python runtime

    [str.lower] and [str.isupper] are fixed by the source on ASCII; what
    they do outside ASCII comes from the Unicode database of the
    interpreter, which is taken as a parameter. *)

Section Downloader.

(** Lowercase mapping of a code point above 127 (one code point may
    lower to several). *)
Variable unicode_lower : char -> str.
(** Whether a code point above 127 is an uppercase letter. *)
Variable unicode_isupper : char -> bool.
(** [int(s)] of the interpreter; [None] stands for [ValueError]. *)
Variable py_int : str -> option Z.
(** [urllib.parse.urljoin]; [None] stands for the [ValueError] it raises
    on a reference it cannot split. *)
Variable urljoin : str -> str -> option str.
(** [os.makedirs(path, exist_ok=True)]: the exception it raises, if any. *)
Variable makedirs : str -> option exn.
(** [open(path, 'w', encoding='utf-8')]: the exception it raises, if any
    (a name the file system refuses, a missing directory, no permission). *)
Variable open_fails : str -> option exn.
(** [json.dump(metadata.__dict__, f, ensure_ascii=False, indent=2)] into
    the file just opened: the exception it raises, if any (a string that
    cannot be encoded); the file is then left with an incomplete text. *)
Variable dump_fails : ThesisMetadata -> option exn.

Definition lower_char (c : char) : str :=
  if is_ascii c
  then [if is_ascii_upper c then (c + 32)%N else c]
  else unicode_lower c.

(** [text.lower()] *)
Definition lower (s : str) : str := flat_map lower_char s.

(** [c.isupper()] for a one-character string. *)
Definition isupper (c : char) : bool :=
  if is_ascii c then is_ascii_upper c else unicode_isupper c.

(** ** Text normaliser (lines 53-62) *)

(** The characters [re.sub(r'[^a-z0-9\s]', '', text)] keeps. *)
Definition kept_by_regex (c : char) : bool :=
  is_ascii_lower c || is_ascii_digit c || isspace c.

Definition _normalize_text (text : str) : str :=
  let text := lower text in
  let text := filter (fun c => is_ascii c = true) text in
  let text := filter (fun c => kept_by_regex c = true) text in
  join (lit " ") (split_ws text).

(** ** Similarity scorer (lines 64-68) *)

Definition _similarity_score (text1 text2 : str) : Q :=
  let text1 := _normalize_text text1 in
  let text2 := _normalize_text text2 in
  ratio text1 text2.

(** ** Last-name extraction (lines 73-80) *)

Definition last_name_of (author : str) : str :=
  let author_parts := split_ws author in
  if (2 <=? length author_parts)%nat then
    match author_parts with
    | (c :: _) as first :: _ =>
        if isupper c then first else List.last author_parts []
    | _ => List.last author_parts []
    end
  else
    match author_parts with
    | first :: _ => first
    | [] => []
    end.

(** ** Handle resolver (lines 70-163) *)

(** [[self._similarity_score(last_name, c.split()[-1]) for c in
    record_creators]]: a creator made of whitespace only has no last
    token. *)
Fixpoint creator_scores (last_name : str) (record_creators : list str)
  : res (list Q) :=
  match record_creators with
  | [] => Val []
  | c :: cs =>
      match split_ws c with
      | [] => Raise IndexError
      | w :: ws =>
          match creator_scores last_name cs with
          | Val scores =>
              Val (_similarity_score last_name (List.last (w :: ws) []) :: scores)
          | Raise e => Raise e
          end
      end
  end.

(** The body of [for record in records] (lines 122-140); the state is
    [(best_match, best_score)]. The scores are exact rationals where the
    code has binary64 numbers: two records whose exact scores are equal
    may be ordered either way by the rounding of the code, the first one
    is kept here. *)
Definition score_record (title last_name : str) (st : option str * Q)
    (record : oai_record) : res (option str * Q) :=
  let '(best_match, best_score) := st in
  match rec_metadata record with
  | None => Val st
  | Some metadata =>
      let record_titles := texts (dc_title metadata) in
      let record_creators := texts (dc_creator metadata) in
      let title_scores := map (_similarity_score title) record_titles in
      match creator_scores last_name record_creators with
      | Raise e => Raise e
      | Val creator_scores =>
          match title_scores, creator_scores with
          | t :: ts, c :: cs =>
              let score := (py_max t ts * (6 # 10) + py_max c cs * (4 # 10))%Q in
              if Qltb best_score score && Qltb (8 # 10) score then
                match rec_identifier record with
                | Some (Some text) =>
                    if truthy text then Val (Some text, score)
                    else Val (best_match, score)
                | _ => Val (best_match, score)
                end
              else Val st
          | _, _ => Val st
          end
      end
  end.

Fixpoint scan_records (title last_name : str) (st : option str * Q)
    (records : list oai_record) : res (option str * Q) :=
  match records with
  | [] => Val st
  | record :: records' =>
      match score_record title last_name st record with
      | Val st' => scan_records title last_name st' records'
      | Raise e => Raise e
      end
  end.

(** The loop [while True] (lines 106-156), entered with the answer
    [resp] to the last request. The second request of an iteration is
    written out on the network so that the recursion is on it. *)
Fixpoint paginate (title last_name : str) (s : strategy) (start_time : Q)
    (resp : response) (net : network) (w : world) {struct net}
  : strategy_end * network * world :=
  let '(t, w) := time_time w in
  if Qltb 60 (t - start_time) then (Finished, net, logger (WarnTimeout s) w)
  else
    match as_xml resp with
    | None => (Raised ParseError, net, w)
    | Some root =>
        match scan_records title last_name (None, 0%Q) (records root) with
        | Raise e => (Raised e, net, w)
        | Val (best_match, best_score) =>
            match best_match with
            | Some ((_ :: _) as best_match) =>
                let handle := handle_of_identifier best_match in
                (Returned handle, net, logger (InfoFound handle best_score) w)
            | _ =>
                match resumptionToken root with
                | Some (Some ((_ :: _) as token)) =>
                    let w := record_request (next_request token) w in
                    match net with
                    | [] => (Raised RequestException, [], w)
                    | NoReply :: net' => (Raised RequestException, net', w)
                    | Reply r :: net' =>
                        if status_ok r
                        then paginate title last_name s start_time r net' w
                        else (Raised HTTPError, net', w)
                    end
                | _ => (Finished, net, w)
                end
            end
        end
    end.

(** The body of the [try] for one strategy (lines 99-156). *)
Definition run_strategy (title last_name : str) (s : strategy)
    (net : network) (w : world) : strategy_end * network * world :=
  match requests_get (first_request s) net w with
  | (Raise e, net, w) => (Raised e, net, w)
  | (Val resp, net, w) =>
      match raise_for_status resp with
      | Raise e => (Raised e, net, w)
      | Val _ =>
          let '(start_time, w) := time_time w in
          paginate title last_name s start_time resp net w
      end
  end.

(** [for strategy in search_strategies], with its [except Exception]. *)
Fixpoint try_strategies (title author last_name : str)
    (strategies : list strategy) (net : network) (w : world)
  : res (option str) * network * world :=
  match strategies with
  | [] => (Val None, net, logger (WarnNoHandle title author) w)
  | s :: rest =>
      match run_strategy title last_name s net w with
      | (Returned handle, net, w) => (Val (Some handle), net, w)
      | (Finished, net, w) => try_strategies title author last_name rest net w
      | (Raised e, net, w) =>
          try_strategies title author last_name rest net
            (logger (ErrorStrategy s e) w)
      end
  end.

Definition discover_handle (author title : str) (net : network) (w : world)
  : res (option str) * network * world :=
  let last_name := last_name_of author in
  let w := logger (InfoSearching title author last_name) w in
  try_strategies title author last_name search_strategies net w.

(** ** Metadata fetcher (lines 165-293) *)

(** Truthiness of a value. *)
Definition py_truthy (v : jvalue) : bool :=
  match v with
  | JNull => false
  | JBool b => b
  | JNum q => negb (Qeq_bool q 0)
  | JStr s => truthy s
  | JList l => match l with [] => false | _ => true end
  | JDict kv => match kv with [] => false | _ => true end
  end.

(** [d.get(key)] of a JSON object. *)
Fixpoint assoc_get (key : str) (kv : list (str * jvalue)) : option jvalue :=
  match kv with
  | [] => None
  | (k, v) :: kv' => if decide (k = key) then Some v else assoc_get key kv'
  end.

(** [not metadata_dict.get(key)] *)
Definition missing (metadata_dict : gmap str jvalue) (key : str) : bool :=
  match metadata_dict !! key with
  | Some v => negb (py_truthy v)
  | None => true
  end.

(** [metadata_dict.get(key, default)] *)
Definition get_or (metadata_dict : gmap str jvalue) (key : str) (d : jvalue)
  : jvalue :=
  default d (metadata_dict !! key).

(** One iteration of [for key, value in metadata.items()] (lines 177-179). *)
Definition rest_entry (metadata_dict : gmap str jvalue) (entry : str * jvalue)
  : res (gmap str jvalue) :=
  let '(key, value) := entry in
  match value with
  | JList (first :: _) =>
      match first with
      | JDict kv =>
          match assoc_get (lit "value") kv with
          | Some v =>
              if py_truthy v then Val (<[key := v]> metadata_dict)
              else Val metadata_dict
          | None => Val metadata_dict
          end
      | _ => Raise AttributeError
      end
  | _ => Val metadata_dict
  end.

Fixpoint rest_entries (metadata_dict : gmap str jvalue)
    (items : list (str * jvalue)) : res (gmap str jvalue) :=
  match items with
  | [] => Val metadata_dict
  | entry :: items' =>
      match rest_entry metadata_dict entry with
      | Val metadata_dict' => rest_entries metadata_dict' items'
      | Raise e => Raise e
      end
  end.

(** Lines 173-179, for an answer with [response.ok]. *)
Definition rest_metadata (resp : response) (metadata_dict : gmap str jvalue)
  : res (gmap str jvalue) :=
  match as_json resp with
  | None => Raise JSONDecodeError
  | Some (JDict data) =>
      match default (JDict []) (assoc_get (lit "metadata") data) with
      | JDict metadata => rest_entries metadata_dict metadata
      | _ => Raise AttributeError
      end
  | Some _ => Raise AttributeError
  end.

(** [[k.strip() for k in value_text.split(',')]] *)
Definition keyword_list (value_text : str) : jvalue :=
  JList (map (fun k => JStr (strip k)) (split_on comma value_text)).

(** The body of [for row in metadata_table.find_all('tr')] (lines 190-215). *)
Definition table_step (metadata_dict : gmap str jvalue) (row : table_row)
  : gmap str jvalue :=
  match label_cell row, word_break_cell row with
  | Some label, Some value_text =>
      let label_text := lower label in
      let has w := contains (lit w) label_text in
      let set key := <[lit key := JStr value_text]> metadata_dict in
      if has "title"%string && missing metadata_dict (lit "dc.title")
      then set "dc.title"%string
      else if has "author"%string && missing metadata_dict (lit "dc.contributor.author")
      then set "dc.contributor.author"%string
      else if has "type"%string && missing metadata_dict (lit "dc.type")
      then set "dc.type"%string
      else if has "date"%string && has "issued"%string
              && missing metadata_dict (lit "dc.date.issued")
      then set "dc.date.issued"%string
      else if has "supervisor"%string
              && missing metadata_dict (lit "dc.contributor.advisor")
      then set "dc.contributor.advisor"%string
      else if has "department"%string && missing metadata_dict (lit "dc.publisher")
      then set "dc.publisher"%string
      else if has "language"%string && missing metadata_dict (lit "dc.language.iso")
      then set "dc.language.iso"%string
      else if has "keywords"%string then
        if has "english"%string
        then <[lit "dc.subject.en" := keyword_list value_text]> metadata_dict
        else <[lit "dc.subject" := keyword_list value_text]> metadata_dict
      else metadata_dict
  | _, _ => metadata_dict
  end.

(** Lines 218-221. *)
Definition header_step (soup : html_doc) (metadata_dict : gmap str jvalue)
  : gmap str jvalue :=
  if missing metadata_dict (lit "dc.title") then
    match page_header soup with
    | Some text => <[lit "dc.title" := JStr text]> metadata_dict
    | None => metadata_dict
    end
  else metadata_dict.

(** The body of [for meta in soup.find_all('meta')] (lines 225-235). *)
Definition meta_step (metadata_dict : gmap str jvalue) (meta : str * str)
  : gmap str jvalue :=
  let '(name, content) := meta in
  if truthy name && truthy content then
    let set key := <[lit key := JStr content]> metadata_dict in
    if contains (lit "DC.title") name && missing metadata_dict (lit "dc.title")
    then set "dc.title"%string
    else if contains (lit "DC.creator") name
            && missing metadata_dict (lit "dc.contributor.author")
    then set "dc.contributor.author"%string
    else if contains (lit "DC.type") name && missing metadata_dict (lit "dc.type")
    then set "dc.type"%string
    else if contains (lit "DC.date") name
            && missing metadata_dict (lit "dc.date.issued")
    then set "dc.date.issued"%string
    else metadata_dict
  else metadata_dict.

Definition english_words : list str :=
  [lit "the"; lit "and"; lit "this"; lit "that"; lit "with"; lit "from"].

(** ['práce', 'byla', 'jsou', 'této', 'bylo', 'mezi'] *)
Definition czech_words : list str :=
  [lit "pr" ++ [225%N] ++ lit "ce"; lit "byla"; lit "jsou";
   lit "t" ++ [233%N] ++ lit "to"; lit "bylo"; lit "mezi"].

(** [sum(1 for word in words if f' {word} ' in f' {text.lower()} ')] *)
Definition count_words (words : list str) (text : str) : nat :=
  length (filter (fun word =>
            contains (lit " " ++ word ++ lit " ")
                     (lit " " ++ lower text ++ lit " ") = true) words).

(** The body of [for text in abstracts] (lines 248-260); the state is
    [(abstract, abstract_en)]. *)
Definition abstract_step (st : option str * option str) (text : str)
  : option str * option str :=
  let '(abstract, abstract_en) := st in
  let english_count := count_words english_words text in
  let czech_count := count_words czech_words text in
  if czech_count <? english_count then
    match abstract_en with
    | Some (_ :: _) => st
    | _ => (abstract, Some text)
    end
  else
    match abstract with
    | Some (_ :: _) => st
    | _ => (Some text, abstract_en)
    end.

Definition blocklist : list str :=
  [lit "posudek"; lit "priloha"; lit "appendix"].

(** Lines 263-269. *)
Fixpoint find_pdf_url (links : list str) : res (option str) :=
  match links with
  | [] => Val None
  | href :: links' =>
      if contains (lit "/bitstream/handle/") href
         && endswith (lit "?sequence=-1&isAllowed=y") href
         && negb (existsb (fun x => contains x (lower href)) blocklist)
      then match urljoin base_url href with
           | Some pdf_url => Val (Some pdf_url)
           | None => Raise ValueError
           end
      else find_pdf_url links'
  end.

(** [value[:4]]; numbers, booleans and objects cannot be sliced. *)
Definition first_four (v : jvalue) : res jvalue :=
  match v with
  | JStr s => Val (JStr (take 4 s))
  | JList l => Val (JList (take 4 l))
  | _ => Raise TypeError
  end.

(** Lines 184-288: what is done with an HTML answer that is [ok]. *)
Definition build_metadata (handle : str) (metadata_dict : gmap str jvalue)
    (soup : html_doc) (timestamp : str) : res ThesisMetadata :=
  let metadata_dict :=
    match metadata_table soup with
    | Some rows => foldl table_step metadata_dict rows
    | None => metadata_dict
    end in
  let metadata_dict := header_step soup metadata_dict in
  let metadata_dict := foldl meta_step metadata_dict (meta_tags soup) in
  let abstracts := filter (fun text => truthy text = true) (abstract_texts soup) in
  let '(abstract, abstract_en) := foldl abstract_step (None, None) abstracts in
  match find_pdf_url (hrefs soup) with
  | Raise e => Raise e
  | Val pdf_url =>
  let empty := JStr [] in
  let year :=
    if missing metadata_dict (lit "dc.date.issued") then Val empty
    else first_four (get_or metadata_dict (lit "dc.date.issued") empty) in
  match year with
  | Raise e => Raise e
  | Val year =>
      Val {| md_title := get_or metadata_dict (lit "dc.title") empty;
             md_author := get_or metadata_dict (lit "dc.contributor.author") empty;
             md_type := get_or metadata_dict (lit "dc.type") empty;
             md_year := year;
             md_handle := handle;
             md_abstract := abstract;
             md_abstract_en := abstract_en;
             md_keywords := get_or metadata_dict (lit "dc.subject") (JList []);
             md_keywords_en := get_or metadata_dict (lit "dc.subject.en") (JList []);
             md_department := get_or metadata_dict (lit "dc.publisher") empty;
             md_supervisor := get_or metadata_dict (lit "dc.contributor.advisor") empty;
             md_language := get_or metadata_dict (lit "dc.language.iso") empty;
             md_url := base_url ++ lit "/handle/" ++ handle;
             md_pdf_url := pdf_url;
             md_last_updated := timestamp |}
  end
  end.

Definition rest_request (handle : str) : request :=
  {| url := base_url ++ lit "/rest/handle/" ++ handle; params := [] |}.

Definition html_request (handle : str) : request :=
  {| url := base_url ++ lit "/handle/" ++ handle; params := [] |}.

(** The body of the [try] of [get_thesis_metadata] (lines 168-290). *)
Definition fetch_body (handle : str) (net : network) (w : world)
  : res (option ThesisMetadata) * network * world :=
  match requests_get (rest_request handle) net w with
  | (Raise e, net, w) => (Raise e, net, w)
  | (Val resp, net, w) =>
      match (if status_ok resp then rest_metadata resp ∅ else Val ∅) with
      | Raise e => (Raise e, net, w)
      | Val metadata_dict =>
          match requests_get (html_request handle) net w with
          | (Raise e, net, w) => (Raise e, net, w)
          | (Val html_response, net, w) =>
              if status_ok html_response then
                match as_html html_response with
                | None => (Raise ParserRejectedMarkup, net, w)
                | Some soup =>
                    match build_metadata handle metadata_dict soup
                            (now_iso w) with
                    | Raise e => (Raise e, net, w)
                    | Val metadata => (Val (Some metadata), net, w)
                    end
                end
              else (Val None, net, w)
          end
      end
  end.

Definition get_thesis_metadata (handle : str) (net : network) (w : world)
  : res (option ThesisMetadata) * network * world :=
  match fetch_body handle net w with
  | (Raise e, net, w) => (Val None, net, logger (ErrorMetadata e) w)
  | done => done
  end.

(** [save_metadata] (lines 295-304): the file name is the handle with
    ['/'] replaced by ['_']. When the file cannot be opened nothing
    changes; when the record cannot be written the file is left without
    a record. *)
Definition save_metadata (metadata : ThesisMetadata) (w : world)
  : res unit * world :=
  if truthy (md_handle metadata) then
    let filename :=
      map (fun c => if (c =? slash)%N then 95%N else c) (md_handle metadata)
      ++ lit ".json" in
    let filepath := metadata_dir ++ [slash] ++ filename in
    match open_fails filepath with
    | Some e => (Raise e, w)
    | None =>
        match dump_fails metadata with
        | Some e =>
            (Raise e,
             set_metadata_store (delete filepath (metadata_store w)) w)
        | None =>
            (Val tt,
             set_metadata_store (<[filepath := metadata]> (metadata_store w)) w)
        end
    end
  else (Val tt, w).

(** ** Batch driver (lines 342-417) *)

Record driver : Type := {
  theses_with_handles : list thesis;
  discovered_handles : list (str * str);   (* a dict, in the order of its keys *)
  metadata_count : nat
}.

Definition append_thesis (t : thesis) (d : driver) : driver :=
  {| theses_with_handles := theses_with_handles d ++ [t];
     discovered_handles := discovered_handles d;
     metadata_count := metadata_count d |}.

(** Lines 380-387. *)
Definition backfill (t : thesis) (metadata : ThesisMetadata) : ThesisMetadata :=
  let fill (field : jvalue) (local : str) : jvalue :=
    if negb (py_truthy field) && truthy local then JStr local else field in
  {| md_title := fill (md_title metadata) (title t);
     md_author := fill (md_author metadata) (author t);
     md_type := fill (md_type metadata) (type_ t);
     md_year := fill (md_year metadata) (year t);
     md_handle := md_handle metadata;
     md_abstract := md_abstract metadata;
     md_abstract_en := md_abstract_en metadata;
     md_keywords := md_keywords metadata;
     md_keywords_en := md_keywords_en metadata;
     md_department := md_department metadata;
     md_supervisor := md_supervisor metadata;
     md_language := md_language metadata;
     md_url := md_url metadata;
     md_pdf_url := md_pdf_url metadata;
     md_last_updated := md_last_updated metadata |}.

Definition with_handle (t : thesis) (h : option str) : thesis :=
  Thesis (title t) (author t) (type_ t) (year t) h.

(** Lines 375-397: what is done once [current_handle] is settled. *)
Definition fetch_and_store (t : thesis) (current_handle : option str)
    (d : driver) (net : network) (w : world)
  : res unit * driver * network * world :=
  match current_handle with
  | Some ((_ :: _) as current_handle) =>
      match get_thesis_metadata current_handle net w with
      | (Raise e, net, w) => (Raise e, d, net, w)
      | (Val (Some metadata), net, w) =>
          let metadata := backfill t metadata in
          match save_metadata metadata w with
          | (Raise e, w) => (Raise e, d, net, w)
          | (Val _, w) =>
              let d :=
                {| theses_with_handles :=
                     theses_with_handles d
                     ++ [with_handle t (Some current_handle)];
                   discovered_handles := discovered_handles d;
                   metadata_count := S (metadata_count d) |} in
              (Val tt, d, net, w)
          end
      | (Val None, net, w) =>
          (Val tt, append_thesis (with_handle t None) d, net,
           logger (WarnNoMetadata (author t)) w)
      end
  | _ =>
      (Val tt, append_thesis (with_handle t None) d, net,
       logger (WarnNoHandleFor (author t)) w)
  end.

(** Lines 367-397: the rest of the outer [try] for a record that is not
    skipped. *)
Definition resolve_and_fetch (t : thesis) (d : driver) (net : network)
    (w : world) : res unit * driver * network * world :=
  match handle t with
  | Some (_ :: _) => fetch_and_store t (handle t) d net w
  | _ =>
      let w := logger (InfoAttempt (author t)) w in
      match discover_handle (author t) (title t) net w with
      | (Raise e, net, w) => (Raise e, d, net, w)
      | (Val (Some ((_ :: _) as current_handle)), net, w) =>
          let w := logger (InfoHandle current_handle (author t)) w in
          let d :=
            {| theses_with_handles := theses_with_handles d;
               discovered_handles :=
                 dict_set (author t) current_handle (discovered_handles d);
               metadata_count := metadata_count d |} in
          fetch_and_store t (Some current_handle) d net w
      | (Val current_handle, net, w) =>
          fetch_and_store t current_handle d net w
      end
  end.

(** The body of [for title, author, type_, year, handle in theses]
    (lines 355-401). *)
Definition process_thesis (current_year : Z) (t : thesis) (d : driver)
    (net : network) (w : world) : driver * network * world :=
  let future :=
    match py_int (year t) with
    | Some thesis_year => (current_year <? thesis_year)%Z
    | None => false
    end in
  if future then
    (append_thesis t d, net, logger (InfoSkipFuture (author t) (year t)) w)
  else
    match resolve_and_fetch t d net w with
    | (Val _, d, net, w) => (d, net, w)
    | (Raise e, d, net, w) =>
        (append_thesis (with_handle t None) d, net,
         logger (ErrorRecord (author t) e) w)
    end.

Fixpoint process_theses (current_year : Z) (theses : list thesis) (d : driver)
    (net : network) (w : world) : driver * network * world :=
  match theses with
  | [] => (d, net, w)
  | t :: theses' =>
      let '(d, net, w) := process_thesis current_year t d net w in
      process_theses current_year theses' d net w
  end.

Definition store_name : str := lit "mytheses.txt".

(** Lines 414-417. *)
Definition discovered_lines (discovered : list (str * str)) : list log_event :=
  match discovered with
  | [] => []
  | _ => InfoNewHandles
         :: map (fun item => InfoNewHandle item.1 item.2) discovered
  end.

(** [main] (lines 342-417): [ThesisDownloader()] creates the two
    directories, the store is read, the records are processed, the store
    is opened and written, the summary is logged. *)
Definition main (net : network) (w : world) : res unit * network * world :=
  let w := logger InfoStarting w in
  match makedirs output_dir with
  | Some e => (Raise e, net, w)
  | None =>
      match makedirs metadata_dir with
      | Some e => (Raise e, net, w)
      | None =>
          match parse_theses_file store_name (files w) with
          | Raise e => (Raise e, net, w)
          | Val theses =>
              let w := logger (InfoCount (length theses)) w in
              let current_year := now_year w in
              let '(d, net, w) :=
                process_theses current_year theses
                  {| theses_with_handles := []; discovered_handles := [];
                     metadata_count := 0 |} net w in
              let w := logger InfoSaving w in
              match open_fails store_name with
              | Some e => (Raise e, net, w)
              | None =>
                  let w := set_files
                             (save_theses_file store_name
                                (theses_with_handles d) (files w)) w in
                  let w := logger (InfoSummary (length theses)
                                     (length (filter (fun t => is_Some (handle t))
                                                (theses_with_handles d)))
                                     (length (discovered_handles d))
                                     (metadata_count d)) w in
                  let w := log_all (discovered_lines (discovered_handles d)) w in
                  (Val tt, net, w)
              end
          end
      end
  end.

(** ** The last name as the specification words it *)

Definition starts_upper (token : str) : bool :=
  match token with
  | c :: _ => isupper c
  | [] => false
  end.

Definition last_name_spec (author : str) : str :=
  match split_ws author with
  | [] => []
  | [only] => only
  | first :: _ as tokens =>
      if starts_upper first then first else default [] (last tokens)
  end.

(** ** Notions used in the statements and proofs *)

Definition nonspace (c : char) : Prop := isspace c = false.

(** A token of [split()]: not empty, no whitespace in it. *)
Definition word (w : str) : Prop := w ≠ [] ∧ Forall nonspace w.

(** A character the normaliser lets through unchanged. *)
Definition settled (c : char) : Prop :=
  is_ascii c = true ∧ kept_by_regex c = true ∧ is_ascii_upper c = false.

(** The positions of [c] in [s], counted from [i], in increasing order. *)
Fixpoint positions_from (i : nat) (c : char) (s : str) : list nat :=
  match s with
  | [] => []
  | d :: s' =>
      (if (d =? c)%N then [i] else []) ++ positions_from (S i) c s'
  end.

(** Whether the element at [j] is indexed by [b2j] (it is not "popular"). *)
Definition indexed (s : str) (b2j : gmap char (list nat)) (j : nat) : bool :=
  match s !! j with
  | Some c => bool_decide (is_Some (b2j !! c))
  | None => false
  end.

(** The length of the run of indexed elements of [s] that ends at [j]. *)
Fixpoint diag (s : str) (b2j : gmap char (list nat)) (j : nat) : nat :=
  if indexed s b2j j
  then S (match j with O => O | S j' => diag s b2j j' end)
  else O.

(** The same run, for the element before [j]. *)
Definition pdiag (s : str) (b2j : gmap char (list nat)) (j : nat) : nat :=
  match j with
  | O => O
  | S j' => diag s b2j j'
  end.

(** What one pass of [scan_row] records for [j]. *)
Definition row_insert (j2len newj2len : gmap nat nat) (j : nat) : gmap nat nat :=
  <[j := j2lenget j2len j + 1]> newj2len.

(** The state of [find_longest_match] on [(s, s)] before row [i]. *)
Definition row_inv (s : str) (b2j : gmap char (list nat)) (i : nat)
    (st : gmap nat nat * block) : Prop :=
  ∃ d size,
    st.2 = (d, d, size)
    ∧ d + size ≤ i
    ∧ (∀ m, m ≤ i → pdiag s b2j m ≤ size)
    ∧ (∀ j, j2lenget st.1 j ≤ pdiag s b2j (min i j))
    ∧ j2lenget st.1 i = pdiag s b2j i.

(** A span of the work list that [find_longest_match] accepts. *)
Definition span_ok (q : span) : Prop :=
  let '(alo, ahi, blo, bhi) := q in alo ≤ ahi ∧ blo ≤ bhi.

Definition span_weight (q : span) : nat :=
  let '(alo, ahi, _, _) := q in 2 * (ahi - alo) + 1.

(** A block that lies inside a span. *)
Definition block_in (q : span) (x : block) : Prop :=
  let '(alo, ahi, blo, bhi) := q in
  let '(i, j, k) := x in
  alo ≤ i ∧ i + k ≤ ahi ∧ blo ≤ j ∧ j + k ≤ bhi.

(** The state of [find_longest_match] before row [i], for any [a] and
    [b]: the recorded lengths and the best block lie inside the span. *)
Definition dp_inv (alo blo bhi i : nat) (st : gmap nat nat * block) : Prop :=
  (∀ j k, st.1 !! j = Some k → blo ≤ j ∧ k + alo ≤ i ∧ k + blo ≤ j + 1)
  ∧ block_in (alo, i, blo, bhi) st.2.

(** What the record store can hold of a field: no line break in it, no
    whitespace around it. *)
Definition line_safe (s : str) : Prop :=
  strip s = s ∧ Forall (fun c => c ≠ newline ∧ c ≠ carriage_return) s.

(** The same, and no comma. *)
Definition field_safe (s : str) : Prop :=
  line_safe s ∧ Forall (fun c => c ≠ comma) s.

(** A record the store can hold: the title may have commas only when a
    handle follows, and a handle is not empty. *)
Definition storable (t : thesis) : Prop :=
  line_safe (title t) ∧ field_safe (author t) ∧ field_safe (type_ t)
  ∧ field_safe (year t)
  ∧ match handle t with
    | None => Forall (fun c => c ≠ comma) (title t)
    | Some h => h ≠ [] ∧ field_safe h
    end.


(** The line [save_theses_file] writes for a record, without its end. *)
Definition written (t : thesis) : str :=
  match handle t with
  | Some ((_ :: _) as h) =>
      author t ++ comma :: title t ++ comma :: type_ t ++ comma :: year t
        ++ comma :: h
  | _ => author t ++ comma :: title t ++ comma :: type_ t ++ comma :: year t
  end.

(** The combined score of a feed record, [0.6] times its best title
    similarity plus [0.4] times its best creator similarity, when the
    resolver computes one: the record has metadata, a title and a
    creator. *)
Definition record_score (title last_name : str) (record : oai_record)
  : option Q :=
  match rec_metadata record with
  | None => None
  | Some metadata =>
      match creator_scores last_name (texts (dc_creator metadata)) with
      | Raise _ => None
      | Val creator_scores =>
          match map (_similarity_score title) (texts (dc_title metadata)),
                creator_scores with
          | t :: ts, c :: cs =>
              Some (py_max t ts * (6 # 10) + py_max c cs * (4 # 10))%Q
          | _, _ => None
          end
      end
  end.

(** The record carries an identifier with a text. *)
Definition identified (record : oai_record) : bool :=
  match rec_identifier record with
  | Some (Some (_ :: _)) => true
  | _ => false
  end.

(** A record that scores above the threshold carries an identifier. *)
Definition record_named (title last_name : str) (record : oai_record) : bool :=
  match record_score title last_name record with
  | Some score => if Qltb (8 # 10) score then identified record else true
  | None => true
  end.

Definition page_of_reply (rep : reply) : option page :=
  match rep with
  | Reply r => as_xml r
  | NoReply => None
  end.

(** The pages among some answers of the network, in order. *)
Definition pages_of (answers : list reply) : list page :=
  omap page_of_reply answers.

(** Every record of the feed that scores above the threshold carries an
    identifier. *)
Definition feed_named (title last_name : str) (net : network) : bool :=
  forallb (fun p => forallb (record_named title last_name) (records p))
    (pages_of net).

(** No record of the feed scores above the threshold. *)
Definition feed_below (title last_name : str) (net : network) : bool :=
  forallb (fun p =>
    forallb (fun record =>
      match record_score title last_name record with
      | Some score => Qle_bool score (8 # 10)
      | None => true
      end) (records p)) (pages_of net).

(** [handle] is accepted from the answers [answers] of one strategy: it
    is the handle of a record of the last page, whose combined score is
    above the threshold and is the greatest among all records of all the
    pages. *)
Definition accepted_from (title last_name : str) (answers : list reply)
    (handle : str) : Prop :=
  ∃ p record identifier score,
    last (pages_of answers) = Some p
    ∧ record ∈ records p
    ∧ rec_identifier record = Some (Some identifier)
    ∧ handle = handle_of_identifier identifier
    ∧ record_score title last_name record = Some score
    ∧ (8 # 10 < score)%Q
    ∧ ∀ p' record' score',
        p' ∈ pages_of answers → record' ∈ records p' →
        record_score title last_name record' = Some score' →
        (score' <= score)%Q.

(** The state [(best_match, best_score)] of the scan of a batch, after
    the records [seen], all named. *)
Definition scan_inv (title last_name : str) (seen : list oai_record)
    (st : option str * Q) : Prop :=
  match st.1 with
  | None =>
      (st.2 <= 8 # 10)%Q
      ∧ ∀ record score, record ∈ seen →
          record_score title last_name record = Some score →
          (score <= 8 # 10)%Q
  | Some identifier =>
      identifier ≠ []
      ∧ ∃ record, record ∈ seen
          ∧ rec_identifier record = Some (Some identifier)
          ∧ record_score title last_name record = Some st.2
          ∧ (8 # 10 < st.2)%Q
          ∧ ∀ record' score', record' ∈ seen →
              record_score title last_name record' = Some score' →
              (score' <= st.2)%Q
  end.

(** The log after a strategy that ended with [e]. *)
Definition after_strategy (s : strategy) (e : strategy_end) (w : world) : world :=
  match e with
  | Raised x => logger (ErrorStrategy s x) w
  | _ => w
  end.

Definition not_returned (e : strategy_end) : Prop :=
  match e with
  | Returned _ => False
  | _ => True
  end.

(** The scan of the page finds no match. *)
Definition no_match (title last_name : str) (p : page) : bool :=
  match scan_records title last_name (None, 0%Q) (records p) with
  | Val (None, _) => true
  | _ => false
  end.

(** An answer of the feed without a match and with the continuation
    token [token]. *)
Definition continues_with (title last_name : str) (r : response) (token : str)
  : bool :=
  status_ok r
  && match as_xml r with
     | Some p =>
         no_match title last_name p
         && match resumptionToken p with
            | Some (Some t) => truthy t && bool_decide (t = token)
            | _ => false
            end
     | None => false
     end.

(** An answer of the feed without a match and without a continuation
    token. *)
Definition ends_feed (title last_name : str) (r : response) : bool :=
  status_ok r
  && match as_xml r with
     | Some p =>
         no_match title last_name p
         && match resumptionToken p with
            | Some (Some t) => negb (truthy t)
            | _ => true
            end
     | None => false
     end.

(** The next [n] readings of the clock after the one that starts the
    strategy stay within the budget of 60. *)
Definition within_budget (w : world) (n : nat) : bool :=
  forallb (fun k => Qle_bool (clock w (reads w + k) - clock w (reads w)) 60)
    (seq 1 n).

(** The document view did not answer, or not with success. *)
Definition html_fails (rest : network) : bool :=
  match rest with
  | Reply r :: _ => negb (status_ok r)
  | _ => true
  end.

(** A character of a normalised word: a lowercase ASCII letter or a digit. *)
Definition plain (c : char) : Prop :=
  is_ascii_lower c || is_ascii_digit c = true.

(** A word of a normalised text. *)
Definition plain_word (w : str) : Prop := w ≠ [] ∧ Forall plain w.

(** The length of the shorter side of a span. *)
Definition span_room (q : span) : nat :=
  let '(alo, ahi, blo, bhi) := q in (ahi - alo) `min` (bhi - blo).

(** The total length of some blocks. *)
Definition blocks_size (blocks : list block) : nat :=
  sum_list (map (fun t : block => t.2) blocks).

(** A creator of the record has a text made of whitespace only. *)
Definition blank_creator (record : oai_record) : bool :=
  match rec_metadata record with
  | Some metadata =>
      existsb (fun c => match split_ws c with [] => true | _ => false end)
        (texts (dc_creator metadata))
  | None => false
  end.

(** The answers of the feed to one strategy, after the answer [resp]:
    each step is the continuation token of the answer before and the
    answer to the request that carries it; the last answer ends the feed;
    no answer holds a match. *)
Fixpoint feed_chain (title last_name : str) (resp : response)
    (steps : list (str * response)) : bool :=
  match steps with
  | [] => ends_feed title last_name resp
  | (token, next) :: steps' =>
      continues_with title last_name resp token
      && feed_chain title last_name next steps'
  end.

(** The next [n] readings of the clock stay within 60 of [start_time]. *)
Definition readings_within (w : world) (start_time : Q) (n : nat) : bool :=
  forallb (fun k => Qle_bool (clock w (reads w + k) - start_time) 60) (seq 0 n).

(** What a call that only talks to the network may change: it takes
    answers from the front of the network, adds requests (all of them
    [allowed], and at least one for each answer taken) and log events,
    reads the clock, and leaves the files, the stored metadata and the
    date alone. *)
Definition frame (allowed : request → Prop) (net : network) (w : world)
    (net' : network) (w' : world) : Prop :=
  files w' = files w
  ∧ metadata_store w' = metadata_store w
  ∧ clock w' = clock w
  ∧ now_year w' = now_year w
  ∧ now_iso w' = now_iso w
  ∧ reads w ≤ reads w'
  ∧ ∃ used requests events,
      net = used ++ net'
      ∧ sent w' = sent w ++ requests
      ∧ log w' = log w ++ events
      ∧ length used ≤ length requests
      ∧ Forall allowed requests.

(** A request to the feed. *)
Definition to_feed (rq : request) : Prop := url rq = oai_url.

(** A request about the handle [handle]: the detail endpoint or the
    document view. *)
Definition about (handle : str) (rq : request) : Prop :=
  rq = rest_request handle ∨ rq = html_request handle.

(** The keys the document view fills only when no value is there yet. *)
Definition guarded_keys : list str :=
  [lit "dc.title"; lit "dc.contributor.author"; lit "dc.type";
   lit "dc.date.issued"; lit "dc.contributor.advisor"; lit "dc.publisher";
   lit "dc.language.iso"].

(** A value that counts as present and of which [value[:4]] cannot be
    taken: a number other than zero, [True], an object with a member. *)
Definition unsliceable (v : jvalue) : bool :=
  py_truthy v && match v with JStr _ | JList _ => false | _ => true end.

Definition date_unsliceable (metadata_dict : gmap str jvalue) : bool :=
  match metadata_dict !! lit "dc.date.issued" with
  | Some v => unsliceable v
  | None => false
  end.

(** The test of line 255: more English than Czech marker words. *)
Definition english (lower : str → str) (text : str) : bool :=
  length (filter (fun word =>
            contains (lit " " ++ word ++ lit " ")
                     (lit " " ++ lower text ++ lit " ") = true) czech_words)
  <? length (filter (fun word =>
               contains (lit " " ++ word ++ lit " ")
                        (lit " " ++ lower text ++ lit " ") = true) english_words).

(** [handle.replace('/', '_')] *)
Definition underscored (handle : str) : str :=
  map (fun c => if (c =? slash)%N then 95%N else c) handle.

(** The path [save_metadata] writes the record of [handle] to. *)
Definition metadata_path (handle : str) : str :=
  metadata_dir ++ [slash] ++ underscored handle ++ lit ".json".


(** The test of lines 358-363: the year reads as a number above the
    current year. *)
Definition is_future (current_year : Z) (t : thesis) : bool :=
  match py_int (year t) with
  | Some thesis_year => (current_year <? thesis_year)%Z
  | None => false
  end.

(** What [main] writes for the record [t] it read: the record [t'] has
    the fields of [t]; a record of a future year keeps its handle; any
    other has none, or a handle with text whose metadata file could be
    opened, and which is the handle the record came with when it came
    with one. *)
Definition outcome (current_year : Z) (t t' : thesis) : Prop :=
  t' = with_handle t (handle t')
  ∧ if is_future current_year t then handle t' = handle t
    else match handle t' with
         | None => True
         | Some h =>
             h ≠ [] ∧ open_fails (metadata_path h) = None
             ∧ match handle t with
               | Some (_ :: _) => handle t = Some h
               | _ => True
               end
         end.

(** How many records carry a handle: the count of the summary. *)
Definition with_handles (theses : list thesis) : nat :=
  length (filter (fun t => is_Some (handle t)) theses).

(** How many records of a future year carry a handle. *)
Definition future_handles (current_year : Z) (theses : list thesis) : nat :=
  with_handles (filter (fun t => is_future current_year t = true) theses).

(** The strategies [strategies], tried in order from [net] and [w], all
    end without a handle: what they leave of the network, and the world
    after them. *)
Fixpoint strategies_pass (title last_name : str) (strategies : list strategy)
    (net : network) (w : world) : option (network * world) :=
  match strategies with
  | [] => Some (net, w)
  | s :: rest =>
      match run_strategy title last_name s net w with
      | (Returned _, _, _) => None
      | (e, net, w) =>
          strategies_pass title last_name rest net (after_strategy s e w)
      end
  end.

(** [handle] is taken from a record above the threshold: a record of the
    last page of [answers] that carries an identifier with a text. *)
Definition chosen_from (title last_name : str) (answers : list reply)
    (handle : str) : Prop :=
  ∃ p record identifier score,
    last (pages_of answers) = Some p
    ∧ record ∈ records p
    ∧ rec_identifier record = Some (Some identifier)
    ∧ identifier ≠ []
    ∧ handle = handle_of_identifier identifier
    ∧ record_score title last_name record = Some score
    ∧ (8 # 10 < score)%Q.

(** The state of the scan of a batch after the records [seen], whatever
    they are: a match is the identifier of a record above the threshold. *)
Definition scan_chosen (title last_name : str) (seen : list oai_record)
    (st : option str * Q) : Prop :=
  match st.1 with
  | None => True
  | Some identifier =>
      identifier ≠ []
      ∧ ∃ record score,
          record ∈ seen
          ∧ rec_identifier record = Some (Some identifier)
          ∧ record_score title last_name record = Some score
          ∧ (8 # 10 < score)%Q
  end.

(** The exception a successful document view ends with when the issue
    date of the detail endpoint cannot be sliced: the one of the parser
    or of [urljoin] when they raise before the slice, else the
    [TypeError] of the slice. *)
Definition view_error (html : response) : exn :=
  match as_html html with
  | None => ParserRejectedMarkup
  | Some soup =>
      match find_pdf_url (hrefs soup) with
      | Raise e => e
      | Val _ => TypeError
      end
  end.

(** An entry of the discovered handles: a handle with text, under the
    author of a record read without a handle and not of a future year. *)
Definition discovered_from (current_year : Z) (theses : list thesis)
    (item : str * str) : Prop :=
  item.2 ≠ []
  ∧ ∃ t, t ∈ theses ∧ author t = item.1
         ∧ is_future current_year t = false
         ∧ (handle t = None ∨ handle t = Some []).

(* ===================================================================== *)
(** * Properties *)
(* ===================================================================== *)

(** ** Whitespace splitting and joining *)

Lemma split_ws_from_run cur w s :
  Forall nonspace w →
  split_ws_from cur (w ++ s) = split_ws_from (cur ++ w) s.
Proof.
  revert cur. induction w as [|c w IH]; intros cur Hw; simpl.
  - by rewrite app_nil_r.
  - inversion Hw as [|? ? Hc Hw']; subst.
    unfold nonspace in Hc. rewrite Hc, IH by done.
    by rewrite <- app_assoc.
Qed.

Lemma split_ws_from_words cur s :
  cur = [] ∨ word cur → Forall word (split_ws_from cur s).
Proof.
  revert cur. induction s as [|c s IH]; intros cur Hcur; simpl.
  - destruct Hcur as [->|Hw]; [constructor|].
    destruct cur; [constructor|]. constructor; [done|constructor].
  - destruct (isspace c) eqn:Hc.
    + destruct Hcur as [->|Hw]; [by apply IH; left|].
      destruct cur as [|d cur]; [by apply IH; left|].
      constructor; [done|by apply IH; left].
    + apply IH. right. split; [by destruct cur|].
      apply Forall_app. split; [|by repeat constructor].
      destruct Hcur as [->|[_ Hw]]; [constructor|done].
Qed.

Lemma split_ws_words s : Forall word (split_ws s).
Proof. apply split_ws_from_words. by left. Qed.

Lemma split_ws_from_keeps (P : char → Prop) cur s :
  Forall P cur → Forall P s → Forall (Forall P) (split_ws_from cur s).
Proof.
  revert cur. induction s as [|c s IH]; intros cur Hcur Hs; simpl.
  - destruct cur; [constructor|]. constructor; [done|constructor].
  - inversion Hs as [|? ? Hc Hs']; subst.
    destruct (isspace c).
    + destruct cur; [by apply IH|]. constructor; [done|by apply IH].
    + apply IH; [|done]. apply Forall_app. by repeat constructor.
Qed.

Lemma join_keeps (P : char → Prop) sep ws :
  Forall P sep → Forall (Forall P) ws → Forall P (join sep ws).
Proof.
  intros Hsep. induction ws as [|w ws IH]; intros Hws; [constructor|].
  inversion Hws as [|? ? Hw Hws']; subst.
  destruct ws as [|w' ws']; [done|].
  change (Forall P (w ++ sep ++ join sep (w' :: ws'))).
  rewrite !Forall_app. auto.
Qed.

Lemma split_ws_join ws :
  Forall word ws → split_ws (join (lit " ") ws) = ws.
Proof.
  induction ws as [|w ws IH]; intros Hws; [done|].
  inversion Hws as [|? ? [Hne Hw] Hws']; subst.
  destruct ws as [|w' ws'].
  - simpl. unfold split_ws. rewrite <- (app_nil_r w) at 1.
    rewrite split_ws_from_run by done. simpl. by destruct w.
  - change (join (lit " ") (w :: w' :: ws'))
      with (w ++ 32%N :: join (lit " ") (w' :: ws')).
    unfold split_ws. rewrite split_ws_from_run by done. simpl.
    destruct w; [done|]. f_equal. by apply IH.
Qed.

Lemma filter_all {A} (P : A → Prop) `{!∀ x, Decision (P x)} (l : list A) :
  Forall P l → filter P l = l.
Proof.
  induction 1 as [|x l Hx _ IH]; [done|].
  rewrite filter_cons, decide_True by done. by rewrite IH.
Qed.

(** ** C6: the normaliser *)

Lemma kept_not_upper c : kept_by_regex c = true → is_ascii_upper c = false.
Proof.
  unfold kept_by_regex, is_ascii_lower, is_ascii_digit, isspace, is_ascii_upper.
  intros H. apply andb_false_iff.
  rewrite !orb_true_iff, !andb_true_iff, !N.leb_le, !N.eqb_eq in H.
  rewrite !N.leb_gt. lia.
Qed.

Lemma lower_settled s : Forall settled s → lower s = s.
Proof.
  induction 1 as [|c s (Ha & _ & Hu) _ IH]; [done|].
  unfold lower in *. simpl. unfold lower_char at 1. by rewrite Ha, Hu, IH.
Qed.

Lemma filtered_settled s :
  Forall settled
    (filter (fun c => kept_by_regex c = true)
       (filter (fun c => is_ascii c = true) s)).
Proof.
  apply Forall_forall. intros c Hc.
  apply list_elem_of_filter in Hc as [Hk Hc].
  apply list_elem_of_filter in Hc as [Ha _].
  repeat split; [done..|]. by apply kept_not_upper.
Qed.

Lemma normalize_settled text : Forall settled (_normalize_text text).
Proof.
  unfold _normalize_text. apply join_keeps.
  - repeat constructor.
  - apply split_ws_from_keeps; [constructor|apply filtered_settled].
Qed.

(** C6. Normalising twice is normalising once:
    [normalize(normalize(s)) == normalize(s)] for every string [s], where
    [normalize] is [_normalize_text]: lowercase, drop what is not ASCII,
    drop what is not a lowercase ASCII letter, a digit or whitespace, and
    join the whitespace-separated words by single spaces. *)
Theorem normalize_idempotent (s : str) :
  _normalize_text (_normalize_text s) = _normalize_text s.
Proof.
  pose proof (normalize_settled s) as Hs.
  unfold _normalize_text at 1.
  rewrite lower_settled by done.
  rewrite (filter_all (fun c => is_ascii c = true))
    by (eapply Forall_impl; [exact Hs|by intros c (? & _ & _)]).
  rewrite (filter_all (fun c => kept_by_regex c = true))
    by (eapply Forall_impl; [exact Hs|by intros c (_ & ? & _)]).
  unfold _normalize_text. rewrite split_ws_join; [done|].
  apply split_ws_words.
Qed.

(** ** C4: the last name *)

Lemma last_default (l : list str) : List.last l [] = default [] (last l).
Proof.
  induction l as [|x l IH]; [done|]. destruct l as [|y l]; [done|].
  change (List.last (x :: y :: l) []) with (List.last (y :: l) []).
  by rewrite IH.
Qed.

(** C4. Last-name extraction: the author is split on whitespace, and no
    token is empty; with two tokens or more the result is the first token
    when its first character is uppercase and the last token otherwise;
    with one token it is that token; with none (an empty author) it is
    the empty string. "Novák Jan" gives "Novák" and "jan novak" gives
    "novak". *)
Theorem last_name_extraction (author : str) :
  last_name_of author = last_name_spec author
  ∧ Forall (fun token => token ≠ []) (split_ws author)
  ∧ last_name_of [] = []
  ∧ last_name_of (lit "Nov" ++ [225%N] ++ lit "k Jan") = lit "Nov" ++ [225%N] ++ lit "k"
  ∧ last_name_of (lit "jan novak") = lit "novak".
Proof.
  split; [|split; [|by vm_compute]].
  - unfold last_name_of, last_name_spec.
    destruct (split_ws author) as [|first [|second rest]]; [done..|].
    rewrite last_default.
    change (2 <=? length (first :: second :: rest)) with true. cbv iota.
    by destruct first.
  - eapply Forall_impl; [apply split_ws_words|]. by intros token [? _].
Qed.

(** ** The index [b2j] *)

Lemma positions_from_app i c l1 l2 :
  positions_from i c (l1 ++ l2)
  = positions_from i c l1 ++ positions_from (i + length l1) c l2.
Proof.
  revert i. induction l1 as [|d l1 IH]; intros i; simpl.
  - by rewrite Nat.add_0_r.
  - rewrite IH, List.app_assoc. do 2 f_equal. lia.
Qed.

Lemma positions_from_elem i c l j :
  j ∈ positions_from i c l → i ≤ j ∧ l !! (j - i) = Some c.
Proof.
  revert i. induction l as [|d l IH]; intros i; simpl; [by intros ?%elem_of_nil|].
  rewrite elem_of_app. intros [Hj|Hj].
  - destruct (d =? c)%N eqn:Hd; [|by apply elem_of_nil in Hj].
    apply list_elem_of_singleton in Hj as ->. apply N.eqb_eq in Hd as ->.
    by rewrite Nat.sub_diag.
  - apply IH in Hj as [Hle Hj]. split; [lia|].
    replace (j - i) with (S (j - S i)) by lia. done.
Qed.

Lemma positions_split s i c :
  s !! i = Some c →
  positions_from 0 c s
  = positions_from 0 c (take i s) ++ i :: positions_from (S i) c (drop (S i) s).
Proof.
  intros Hc. rewrite <- (take_drop_middle s i c Hc) at 1.
  rewrite positions_from_app. f_equal. simpl.
  rewrite length_take_le by (apply lookup_lt_Some in Hc; lia).
  by rewrite N.eqb_refl.
Qed.

Lemma chain_fold_lookup s i (m : gmap char (list nat)) c :
  foldl chain_step m (imap (fun k x => (i + k, x)) s) !! c
  = match positions_from i c s with
    | [] => m !! c
    | found => Some (default [] (m !! c) ++ found)
    end.
Proof.
  revert i m. induction s as [|d s IH]; intros i m; [done|].
  cbn [imap foldl positions_from].
  rewrite (imap_ext _ (fun k x => (S i + k, x))) by (intros; simpl; f_equal; lia).
  rewrite IH. unfold chain_step. cbn [fst snd]. rewrite Nat.add_0_r.
  destruct (d =? c)%N eqn:Hd.
  - apply N.eqb_eq in Hd as ->. rewrite lookup_insert_eq. cbn [default app].
    destruct (positions_from (S i) c s); [done|].
    unfold id. by rewrite <- List.app_assoc.
  - apply N.eqb_neq in Hd. by rewrite lookup_insert_ne.
Qed.

Lemma chain_b_lookup s c found :
  chain_b s !! c = Some found → found = positions_from 0 c s.
Proof.
  assert (foldl chain_step ∅ (imap pair s) !! c = Some found →
          found = positions_from 0 c s) as Hfold.
  { change (imap pair s) with (imap (fun k x => (0 + k, x)) s).
    rewrite chain_fold_lookup, lookup_empty.
    destruct (positions_from 0 c s); [done|]. by intros [= <-]. }
  unfold chain_b. destruct (200 <=? length s).
  - intros [H _]%map_lookup_filter_Some. by apply Hfold.
  - done.
Qed.

(** ** One row of [find_longest_match] *)

Lemma scan_row_quiet i bhi j2len js rest m best :
  Forall (fun j => j < bhi ∧ j2lenget j2len j + 1 ≤ best.2) js →
  scan_row i 0 bhi j2len (js ++ rest) m best
  = scan_row i 0 bhi j2len rest (foldl (row_insert j2len) m js) best.
Proof.
  revert m. induction js as [|j js IH]; intros m Hjs; [done|].
  inversion Hjs as [|? ? [Hj Hk] Hjs']; subst.
  cbn [app scan_row foldl].
  change (j <? 0) with false. cbv iota.
  destruct (Nat.leb_spec bhi j); [lia|].
  destruct (Nat.ltb_spec (best.2) (j2lenget j2len j + 1)); [lia|].
  by rewrite IH.
Qed.

Lemma row_insert_lookup j2len m js j :
  foldl (row_insert j2len) m js !! j
  = if decide (j ∈ js) then Some (j2lenget j2len j + 1) else m !! j.
Proof.
  revert m. induction js as [|j' js IH]; intros m; cbn [foldl].
  - by rewrite decide_False by apply not_elem_of_nil.
  - rewrite IH. unfold row_insert.
    destruct (decide (j ∈ js)) as [Hin|Hout].
    + by rewrite decide_True by (by right).
    + destruct (decide (j = j')) as [->|Hne].
      * rewrite lookup_insert_eq. by rewrite decide_True by left.
      * rewrite lookup_insert_ne by done.
        rewrite decide_False; [done|]. by intros [?|?]%elem_of_cons.
Qed.

Lemma diag_unfold s b2j j :
  diag s b2j j = if indexed s b2j j then S (pdiag s b2j j) else 0.
Proof. by destruct j. Qed.

Lemma diag_le s b2j j : diag s b2j j ≤ S j.
Proof. induction j as [|j IH]; simpl; destruct (indexed s b2j _); lia. Qed.

Lemma indexed_found s b2j j c found :
  s !! j = Some c → b2j !! c = Some found → indexed s b2j j = true.
Proof.
  intros Hj Hc. unfold indexed. rewrite Hj, Hc. by apply bool_decide_eq_true.
Qed.

Lemma row_step_inv s b2j i st :
  (∀ c found, b2j !! c = Some found → found = positions_from 0 c s) →
  i < length s →
  row_inv s b2j i st →
  row_inv s b2j (S i) (row_step s b2j 0 (length s) st i).
Proof.
  intros Hidx Hi (d & size & Hbest & Hin & Hsize & Hle & Hdiag).
  destruct (lookup_lt_is_Some_2 s i Hi) as [c Hc].
  unfold row_step, b2j_get. rewrite Hc, Hbest.
  destruct (b2j !! c) as [found|] eqn:Hfound; cbn [default id].
  - (* the element of row [i] is indexed *)
    pose proof (Hidx c found Hfound) as ->.
    pose proof (indexed_found s b2j i c _ Hc Hfound) as Hixi.
    assert (∀ j, j ∈ positions_from 0 c s → indexed s b2j j = true) as Hix.
    { intros j [_ Hj]%positions_from_elem. rewrite Nat.sub_0_r in Hj.
      by eapply indexed_found. }
    assert (i ∈ positions_from 0 c s) as Hiin.
    { rewrite (positions_split s i c Hc). apply elem_of_app. right. by left. }
    assert (∀ j, j ∈ positions_from 0 c s →
                 j2lenget st.1 j + 1 ≤ diag s b2j (min i j)) as Hk.
    { intros j Hj. rewrite diag_unfold.
      destruct (Nat.min_spec i j) as [[? ->]|[? ->]].
      - rewrite Hixi. specialize (Hle j). rewrite Nat.min_l in Hle by lia. lia.
      - rewrite (Hix j Hj). specialize (Hle j). rewrite Nat.min_r in Hle by lia. lia. }
    set (k := j2lenget st.1 i + 1).
    assert (k = diag s b2j i) as Hki.
    { unfold k. rewrite diag_unfold, Hixi, Hdiag. lia. }
    set (best' := if size <? k then (i + 1 - k, i + 1 - k, k) else (d, d, size)).
    assert (scan_row i 0 (length s) st.1 (positions_from 0 c s) ∅ (d, d, size)
            = (foldl (row_insert st.1) ∅ (positions_from 0 c s), best')) as ->.
    { rewrite (positions_split s i c Hc) at 1.
      rewrite scan_row_quiet.
      2:{ apply Forall_forall. intros j Hj.
          apply positions_from_elem in Hj as Hj'. destruct Hj' as [_ Hj'].
          rewrite Nat.sub_0_r in Hj'. apply lookup_take_Some in Hj' as [Hj' Hji].
          split; [lia|]. cbn [snd].
          assert (j ∈ positions_from 0 c s) as Hjin.
          { rewrite (positions_split s i c Hc). apply elem_of_app. by left. }
          specialize (Hk j Hjin). rewrite Nat.min_r in Hk by lia.
          specialize (Hsize (S j)). cbn [pdiag] in Hsize. lia. }
      cbn [scan_row]. change (i <? 0) with false. cbv iota.
      destruct (Nat.leb_spec (length s) i); [lia|].
      fold k. cbn [snd]. fold best'.
      rewrite <- (app_nil_r (positions_from (S i) c (drop (S i) s))).
      rewrite scan_row_quiet.
      2:{ apply Forall_forall. intros j Hj.
          apply positions_from_elem in Hj as Hj'. destruct Hj' as [Hij Hj'].
          rewrite lookup_drop in Hj'.
          replace (S i + (j - S i)) with j in Hj' by lia.
          split; [by eapply lookup_lt_Some|].
          assert (j ∈ positions_from 0 c s) as Hjin.
          { rewrite (positions_split s i c Hc). apply elem_of_app. right. by right. }
          specialize (Hk j Hjin). rewrite Nat.min_l in Hk by lia.
          assert (k ≤ best'.2); [|lia].
          unfold best'. destruct (Nat.ltb_spec size k); cbn [snd]; lia. }
      cbn [scan_row]. f_equal.
      rewrite (positions_split s i c Hc).
      by rewrite foldl_app. }
    assert (∃ d' size', best' = (d', d', size') ∧ d' + size' ≤ S i
                        ∧ size ≤ size' ∧ k ≤ size') as (d' & size' & -> & ? & ? & ?).
    { unfold best'. pose proof (diag_le s b2j i).
      destruct (Nat.ltb_spec size k); eexists _, _; (split; [done|]); lia. }
    exists d', size'. cbn [fst snd]. split; [done|]. split; [done|].
    split; [|split].
    + intros m Hm. destruct (decide (m = S i)) as [->|].
      * cbn [pdiag]. lia.
      * specialize (Hsize m). lia.
    + intros [|j]; [simpl; lia|].
      cbn [j2lenget]. rewrite row_insert_lookup, lookup_empty.
      rewrite <- Nat.succ_min_distr. cbn [pdiag].
      destruct (decide (j ∈ positions_from 0 c s)) as [Hj|Hj]; cbn [default id]; [|lia].
      by apply Hk.
    + cbn [j2lenget pdiag]. rewrite row_insert_lookup, decide_True by done.
      cbn [default id]. by fold k.
  - (* the element of row [i] is not indexed: the row is empty *)
    assert (diag s b2j i = 0) as Hzero.
    { rewrite diag_unfold. unfold indexed. rewrite Hc, Hfound.
      rewrite bool_decide_eq_false_2; [done|]. by intros [? ?]. }
    cbn [scan_row]. exists d, size. cbn [fst snd].
    split; [done|]. split; [lia|]. split; [|split].
    + intros m Hm. destruct (decide (m = S i)) as [->|].
      * cbn [pdiag]. lia.
      * specialize (Hsize m). lia.
    + intros [|j]; cbn [j2lenget]; [lia|]. rewrite lookup_empty. simpl. lia.
    + cbn [j2lenget pdiag]. rewrite lookup_empty. simpl. lia.
Qed.

Lemma rows_inv s b2j n :
  (∀ c found, b2j !! c = Some found → found = positions_from 0 c s) →
  n ≤ length s →
  row_inv s b2j n
    (foldl (row_step s b2j 0 (length s)) (∅, (0, 0, 0)) (seq 0 n)).
Proof.
  intros Hidx. induction n as [|n IH]; intros Hn.
  - exists 0, 0. cbn. repeat split; try lia.
    + intros m Hm. replace m with 0 by lia. done.
    + intros j. destruct j; cbn; [lia|]. rewrite lookup_empty. simpl. lia.
  - rewrite seq_S, foldl_app. cbn [foldl Nat.add].
    apply row_step_inv; [done|lia|]. apply IH. lia.
Qed.

(** ** [find_longest_match] on equal sequences *)

Lemma same_at_refl s i : i < length s → same_at s i s i = true.
Proof.
  intros [c Hc]%lookup_lt_is_Some_2. unfold same_at. rewrite Hc.
  apply N.eqb_refl.
Qed.

Lemma extend_left_diag s d size :
  d ≤ length s → extend_left s s 0 0 d d size = (0, 0, size + d).
Proof.
  revert size. induction d as [|d IH]; intros size Hd; cbn [extend_left].
  - by rewrite Nat.add_0_r.
  - change (0 <? S d) with true. rewrite same_at_refl by lia. cbn [andb].
    rewrite IH by lia. f_equal. lia.
Qed.

Lemma extend_right_full s size room :
  size + room = length s →
  extend_right s s (length s) (length s) 0 0 size room = (0, 0, length s).
Proof.
  revert size. induction room as [|room IH]; intros size Hs; cbn [extend_right].
  - f_equal. lia.
  - cbn [Nat.add]. destruct (Nat.ltb_spec size (length s)); [|lia].
    rewrite same_at_refl by lia. cbn [andb]. apply IH. lia.
Qed.

Lemma find_longest_match_self s :
  find_longest_match s s (chain_b s) 0 (length s) 0 (length s)
  = (0, 0, length s).
Proof.
  unfold find_longest_match. rewrite Nat.sub_0_r.
  destruct (rows_inv s (chain_b s) (length s)) as (d & size & -> & Hin & _);
    [apply chain_b_lookup|done|].
  rewrite extend_left_diag by lia. cbn [Nat.add].
  apply extend_right_full. lia.
Qed.

Lemma matching_loop_done fuel a b b2j found :
  matching_loop fuel a b b2j [] found = Some found.
Proof. by destruct fuel. Qed.

Lemma get_matching_blocks_self s :
  get_matching_blocks s s
  = (if 0 <? length s then [(0, 0, length s)] else [])
      ++ [(length s, length s, 0)].
Proof.
  unfold get_matching_blocks, matching_fuel.
  replace (2 * length s + 2) with (S (2 * length s + 1)) by lia.
  cbn [matching_loop]. rewrite find_longest_match_self.
  rewrite Nat.ltb_irrefl. cbn [andb Nat.add].
  rewrite Nat.ltb_irrefl. cbn [andb].
  destruct (0 <? length s) eqn:Hn; rewrite matching_loop_done; cbn [default app].
  - f_equal. change (merge_sort block_le [(0, 0, length s)])
      with [(0, 0, length s)].
    cbn. by destruct (length s).
  - done.
Qed.

Lemma ratio_self s : (ratio s s == 1)%Q.
Proof.
  unfold ratio. rewrite get_matching_blocks_self. unfold calculate_ratio.
  destruct (length s) as [|n] eqn:Hlen; [done|].
  change (0 <? S n) with true. cbn [app map sum_list_with snd].
  change (0 <? S n + S n) with true. cbv iota.
  rewrite Nat.add_0_r, Nat2Z.inj_add, inject_Z_plus. unfold id.
  field. intros H. assert (inject_Z (Z.of_nat (S n)) == 0)%Q as H0 by lra.
  unfold Qeq in H0. simpl in H0. lia.
Qed.

(** ** [find_longest_match] stays inside its span, and the work list of
    [get_matching_blocks] empties *)

Lemma scan_row_bounds alo i blo bhi j2len js m best :
  alo ≤ i →
  (∀ j k, j2len !! j = Some k → blo ≤ j ∧ k + alo ≤ i ∧ k + blo ≤ j + 1) →
  dp_inv alo blo bhi (S i) (m, best) →
  dp_inv alo blo bhi (S i) (scan_row i blo bhi j2len js m best).
Proof.
  intros Hi Hprev. revert m best.
  induction js as [|j js IH]; intros m best Hinv; cbn [scan_row]; [done|].
  destruct (Nat.ltb_spec j blo); [by apply IH|].
  destruct (Nat.leb_spec bhi j); [done|].
  assert (j2lenget j2len j + 1 + alo ≤ S i
          ∧ j2lenget j2len j + 1 + blo ≤ j + 1) as [Hka Hkb].
  { destruct j as [|j']; cbn [j2lenget]; [lia|].
    destruct (j2len !! j') as [k'|] eqn:Hk'; cbn [default id]; [|lia].
    apply Hprev in Hk'. lia. }
  apply IH. destruct Hinv as [Hm Hbest]. split; cbn [fst snd].
  - intros j0 k0. destruct (decide (j0 = j)) as [->|Hne].
    + rewrite lookup_insert_eq. intros [= <-]. lia.
    + rewrite lookup_insert_ne by done. apply Hm.
  - destruct (Nat.ltb_spec (best.2) (j2lenget j2len j + 1)); [|done].
    cbn [block_in]. lia.
Qed.

Lemma rows_bounds a b2j alo blo bhi n :
  blo ≤ bhi →
  dp_inv alo blo bhi (alo + n)
    (foldl (row_step a b2j blo bhi) (∅, (alo, blo, 0)) (seq alo n)).
Proof.
  intros Hb. induction n as [|n IH].
  - split; cbn [fst snd foldl seq].
    + intros j k. by rewrite lookup_empty.
    + cbn [block_in]. lia.
  - rewrite seq_S, foldl_app. cbn [foldl]. unfold row_step at 1.
    destruct IH as [Hprev Hbest].
    replace (alo + S n) with (S (alo + n)) by lia.
    apply scan_row_bounds; [lia|done|]. split; cbn [fst snd].
    + intros j k. by rewrite lookup_empty.
    + destruct (foldl _ _ _).2 as [[bi bj] bs]. cbn [block_in] in *. lia.
Qed.

Lemma extend_left_bounds a b alo ahi blo bhi bi bj bs :
  block_in (alo, ahi, blo, bhi) (bi, bj, bs) →
  block_in (alo, ahi, blo, bhi) (extend_left a b alo blo bi bj bs).
Proof.
  revert bj bs. induction bi as [|bi IH]; intros bj bs Hin; cbn [extend_left].
  - by destruct bj.
  - destruct bj as [|bj]; [done|].
    destruct (Nat.ltb_spec alo (S bi)); cbn [andb]; [|done].
    destruct (Nat.ltb_spec blo (S bj)); cbn [andb]; [|done].
    destruct (same_at a bi b bj); [|done].
    apply IH. cbn [block_in] in *. lia.
Qed.

Lemma extend_right_bounds a b alo ahi blo bhi bi bj bs room :
  block_in (alo, ahi, blo, bhi) (bi, bj, bs) →
  block_in (alo, ahi, blo, bhi) (extend_right a b ahi bhi bi bj bs room).
Proof.
  revert bs. induction room as [|room IH]; intros bs Hin; cbn [extend_right];
    [done|].
  destruct (Nat.ltb_spec (bi + bs) ahi); cbn [andb]; [|done].
  destruct (Nat.ltb_spec (bj + bs) bhi); cbn [andb]; [|done].
  destruct (same_at a _ b _); [|done].
  apply IH. cbn [block_in] in *. lia.
Qed.

Lemma find_longest_match_bounds a b b2j alo ahi blo bhi :
  span_ok (alo, ahi, blo, bhi) →
  block_in (alo, ahi, blo, bhi) (find_longest_match a b b2j alo ahi blo bhi).
Proof.
  intros [Ha Hb]. unfold find_longest_match.
  destruct (rows_bounds a b2j alo blo bhi (ahi - alo) Hb) as [_ Hbest].
  replace (alo + (ahi - alo)) with ahi in Hbest by lia.
  destruct (foldl _ _ _).2 as [[bi bj] bs].
  pose proof (extend_left_bounds a b alo ahi blo bhi bi bj bs Hbest) as Hleft.
  destruct (extend_left a b alo blo bi bj bs) as [[bi' bj'] bs'].
  by apply extend_right_bounds.
Qed.

(** The loop of [get_matching_blocks] ends: fuel for the weight of the
    work list is enough. *)
Lemma matching_loop_fuel a b b2j fuel queue found :
  Forall span_ok queue →
  sum_list (map span_weight queue) ≤ fuel →
  is_Some (matching_loop fuel a b b2j queue found).
Proof.
  revert queue found. induction fuel as [|fuel IH]; intros queue found Hok Hw.
  - destruct queue as [|[[[alo ahi] blo] bhi] queue]; [by eexists|].
    cbn in Hw. lia.
  - destruct queue as [|[[[alo ahi] blo] bhi] queue]; [by eexists|].
    inversion Hok as [|? ? Hq Hrest]; subst.
    cbn [matching_loop].
    pose proof (find_longest_match_bounds a b b2j alo ahi blo bhi Hq) as Hin.
    destruct (find_longest_match a b b2j alo ahi blo bhi) as [[i j] k].
    cbn [block_in] in Hin. cbn [map sum_list_with span_weight id] in Hw.
    destruct (Nat.ltb_spec 0 k); [|by apply IH; [|lia]].
    apply IH.
    + destruct (Nat.ltb_spec (i + k) ahi), (Nat.ltb_spec (j + k) bhi),
        (Nat.ltb_spec alo i), (Nat.ltb_spec blo j); cbn [andb];
        repeat constructor; try done; cbn; lia.
    + destruct (Nat.ltb_spec (i + k) ahi), (Nat.ltb_spec (j + k) bhi),
        (Nat.ltb_spec alo i), (Nat.ltb_spec blo j); cbn [andb];
        cbn [map sum_list_with span_weight id]; lia.
Qed.

Lemma matching_loop_terminates a b :
  is_Some (matching_loop (matching_fuel a) a b (chain_b b)
             [(0, length a, 0, length b)] []).
Proof.
  apply matching_loop_fuel.
  - repeat constructor; lia.
  - unfold matching_fuel. cbn. lia.
Qed.

(** ** C5: the similarity scorer *)

(** C5, as the code has it. The scorer gives 1 for equal arguments,
    [score(s, s) = 1.0] for every string [s], and for two empty strings,
    [score("", "") = 1.0]. (Symmetry is not part of it: the matcher of
    the scorer treats its two arguments differently.) *)
Theorem similarity_reflexive (s : str) :
  (_similarity_score s s == 1)%Q ∧ (_similarity_score [] [] == 1)%Q.
Proof. split; apply ratio_self. Qed.

(** ** Stripping, splitting at a separator, joining *)

Lemma lstrip_length s : length (lstrip s) ≤ length s.
Proof.
  induction s as [|c s IH]; [done|]. simpl. destruct (isspace c); simpl; lia.
Qed.

Lemma lstrip_fixed s : length (lstrip s) = length s → lstrip s = s.
Proof.
  destruct s as [|c s]; [done|]. simpl. destruct (isspace c); [|done].
  pose proof (lstrip_length s). simpl. lia.
Qed.

Lemma rstrip_length s : length (rstrip s) ≤ length s.
Proof.
  unfold rstrip. rewrite length_rev, <- (length_rev s). apply lstrip_length.
Qed.

Lemma strip_fixed s : strip s = s → lstrip s = s ∧ rstrip s = s.
Proof.
  intros Hs. assert (lstrip s = s) as Hl.
  { apply lstrip_fixed. pose proof (lstrip_length s).
    pose proof (rstrip_length (lstrip s)). unfold strip in Hs.
    rewrite Hs in *. lia. }
  split; [done|]. unfold strip in Hs. by rewrite Hl in Hs.
Qed.

Lemma lstrip_app x c r :
  lstrip x = x → isspace c = false → lstrip (x ++ c :: r) = x ++ c :: r.
Proof.
  intros Hx Hc. destruct x as [|d x]; simpl; [by rewrite Hc|].
  simpl in Hx. destruct (isspace d); [|done].
  pose proof (lstrip_length x). apply (f_equal length) in Hx. simpl in Hx. lia.
Qed.

Lemma rstrip_app r d y :
  rstrip y = y → isspace d = false → rstrip (r ++ d :: y) = r ++ d :: y.
Proof.
  intros Hy Hd. unfold rstrip in *.
  replace (rev (r ++ d :: y)) with (rev y ++ d :: rev r)
    by (rewrite rev_app_distr; cbn [rev]; by rewrite <- List.app_assoc).
  rewrite lstrip_app; [|by apply rev_inj; rewrite rev_involutive|done].
  rewrite rev_app_distr. cbn [rev].
  by rewrite !rev_involutive, <- List.app_assoc.
Qed.

Lemma strip_around x c r d y :
  strip x = x → strip y = y → isspace c = false → isspace d = false →
  strip (x ++ c :: r ++ d :: y) = x ++ c :: r ++ d :: y.
Proof.
  intros [Hx _]%strip_fixed [_ Hy]%strip_fixed Hc Hd. unfold strip.
  rewrite lstrip_app by done.
  change (x ++ c :: r ++ d :: y) with (x ++ (c :: r) ++ d :: y).
  rewrite List.app_assoc. by apply rstrip_app.
Qed.

Lemma split_on_nonempty sep s : split_on sep s ≠ [].
Proof.
  destruct s as [|c s]; [done|]. simpl.
  destruct (c =? sep)%N; [done|]. by destruct (split_on sep s).
Qed.

Lemma split_on_whole sep s :
  Forall (fun c => c ≠ sep) s → split_on sep s = [s].
Proof.
  induction 1 as [|c s Hc _ IH]; [done|]. simpl.
  apply N.eqb_neq in Hc. by rewrite Hc, IH.
Qed.

Lemma split_on_app sep x y :
  split_on sep (x ++ sep :: y) = split_on sep x ++ split_on sep y.
Proof.
  induction x as [|c x IH]; simpl.
  - by rewrite N.eqb_refl.
  - destruct (c =? sep)%N; [by rewrite IH|]. rewrite IH.
    pose proof (split_on_nonempty sep x). by destruct (split_on sep x).
Qed.

Lemma join_split_on sep s : join [sep] (split_on sep s) = s.
Proof.
  induction s as [|c s IH]; [done|]. simpl.
  destruct (c =? sep)%N eqn:Hc.
  - apply N.eqb_eq in Hc as ->.
    pose proof (split_on_nonempty sep s).
    destruct (split_on sep s) as [|w ws] eqn:Hs; [done|].
    change (join [sep] ([] :: w :: ws)) with (sep :: join [sep] (w :: ws)).
    by rewrite IH.
  - pose proof (split_on_nonempty sep s).
    destruct (split_on sep s) as [|w ws] eqn:Hs; [done|].
    destruct ws as [|w' ws]; simpl in *; by rewrite <- IH.
Qed.

Lemma index_neg_last3 (pre : list (list N)) z y x :
  index_neg 1 (pre ++ [z; y; x]) = x ∧ index_neg 2 (pre ++ [z; y; x]) = y.
Proof.
  unfold index_neg. rewrite length_app. cbn [length].
  rewrite !lookup_app_r by lia.
  replace (length pre + 3 - 1 - length pre) with 2 by lia.
  by replace (length pre + 3 - 2 - length pre) with 1 by lia.
Qed.

(** ** C1: the record store *)

Lemma save_line_written t : save_line t = written t ++ [newline].
Proof.
  unfold save_line, written.
  by destruct (handle t) as [[|c h]|]; cbn [truthy join app].
Qed.

Lemma written_unbroken t :
  storable t →
  Forall (fun c => c ≠ newline ∧ c ≠ carriage_return) (written t).
Proof.
  intros ([_ Ht] & [[_ Ha] _] & [[_ Hy] _] & [[_ Hr] _] & Hh).
  assert (comma ≠ newline ∧ comma ≠ carriage_return) by done.
  unfold written. destruct (handle t) as [[|c h]|];
    [|destruct Hh as [_ [[_ Hh] _]]|];
    repeat first [done | apply Forall_app_2 | apply Forall_cons_2].
Qed.

Lemma universal_newlines_app x y :
  Forall (fun c => c ≠ carriage_return) x →
  universal_newlines (x ++ y) = x ++ universal_newlines y.
Proof.
  induction 1 as [|c x Hc _ IH]; [done|]. cbn [app universal_newlines].
  apply N.eqb_neq in Hc. by rewrite Hc, IH.
Qed.

Lemma parse_theses_cons t rest :
  storable t →
  parse_theses (save_line t ++ rest)
  = match parse_line (written t) with
    | Some t' => t' :: parse_theses rest
    | None => parse_theses rest
    end.
Proof.
  intros Ht. pose proof (written_unbroken t Ht) as Hw.
  unfold parse_theses, file_lines. rewrite save_line_written.
  rewrite <- List.app_assoc. cbn [app].
  rewrite universal_newlines_app
    by (eapply Forall_impl; [exact Hw|by intros c [_ ?]]).
  cbn [universal_newlines]. change (newline =? carriage_return)%N with false.
  cbv iota. rewrite split_on_app, split_on_whole
    by (eapply Forall_impl; [exact Hw|by intros c [? _]]).
  cbn [app omap list_omap]. by destruct (parse_line (written t)).
Qed.

Lemma written_stripped t : storable t → strip (written t) = written t.
Proof.
  intros ([Ht _] & [[Ha _] _] & [[Hy _] _] & [[Hr _] _] & Hh).
  assert (written t
          = author t ++ comma :: (title t ++ comma :: type_ t) ++ comma :: year t
          ∨ ∃ h, handle t = Some h
                 ∧ written t
                   = author t ++ comma
                       :: (title t ++ comma :: type_ t ++ comma :: year t)
                       ++ comma :: h) as [->| (h & Hsome & ->)].
  { unfold written. destruct (handle t) as [[|c h]|];
      [left|right; eexists; split; [done|]|left];
      by repeat (rewrite <- List.app_assoc; cbn [app]). }
  - by apply strip_around.
  - rewrite Hsome in Hh. destruct Hh as [_ [[Hh _] _]]. by apply strip_around.
Qed.

Lemma written_truthy t : truthy (written t) = true.
Proof.
  unfold written. destruct (handle t) as [[|c h]|]; by destruct (author t).
Qed.


(** A record with a handle: title, author and handle are read back; the
    two fields before the handle are read as type and year. *)
Lemma parse_written_handle t h :
  storable t → handle t = Some h →
  parse_line (written t)
  = Some (Thesis (title t) (author t) (year t) h (Some h)).
Proof.
  intros Ht Hsome. unfold parse_line.
  rewrite written_stripped, written_truthy by done. cbn [negb].
  destruct Ht as ([Ht _] & [[Ha _] Hac] & [[Hy _] Hyc] & [[Hr _] Hrc] & Hh).
  unfold written. rewrite Hsome in *. destruct Hh as [Hne [[Hh _] Hhc]].
  destruct h as [|c h]; [done|].
  rewrite !split_on_app. rewrite (split_on_whole _ (author t)) by done.
  rewrite (split_on_whole _ (type_ t)), (split_on_whole _ (year t)) by done.
  rewrite (split_on_whole _ (c :: h)) by done.
  pose proof (split_on_nonempty comma (title t)) as Hparts.
  pose proof (join_split_on comma (title t)) as Hjoin.
  set (tp := split_on comma (title t)) in *.
  change ([author t] ++ tp ++ [type_ t] ++ [year t] ++ [c :: h])
    with (author t :: tp ++ [type_ t; year t; c :: h]).
  assert (length (author t :: tp ++ [type_ t; year t; c :: h])
          = length tp + 4) as Hlen by (cbn; rewrite length_app; cbn; lia).
  rewrite Hlen.
  replace (4 <=? length tp + 4) with true by (symmetry; apply Nat.leb_le; lia).
  replace (5 <=? length tp + 4) with true
    by (symmetry; apply Nat.leb_le; destruct tp; [done|cbn; lia]).
  cbn [lookup list_lookup default id].
  change (author t :: tp ++ [type_ t; year t; c :: h])
    with ((author t :: tp) ++ [type_ t; year t; c :: h]).
  destruct (index_neg_last3 (author t :: tp) (type_ t) (year t) (c :: h))
    as [-> ->].
  unfold slice_to_neg.
  change ((author t :: tp) ++ [type_ t; year t; c :: h])
    with (author t :: tp ++ [type_ t; year t; c :: h]).
  rewrite Hlen. cbn [drop].
  replace (length tp + 4 - 3 - 1) with (length tp) by lia.
  rewrite drop_0, take_app_length, Hjoin, Ht, Ha, Hr, Hh. done.
Qed.




(** ** The scan of one batch *)

Lemma Qltb_lt x y : Qltb x y = true ↔ (x < y)%Q.
Proof.
  unfold Qltb. rewrite negb_true_iff, <- not_true_iff_false, Qle_bool_iff.
  split; [apply Qnot_le_lt|apply Qlt_not_le].
Qed.

Lemma Qltb_ge x y : Qltb x y = false ↔ (y <= x)%Q.
Proof. unfold Qltb. by rewrite negb_false_iff, Qle_bool_iff. Qed.

(** What [score_record] does, in terms of [record_score]. *)
Lemma score_record_step title last_name best_match best_score record st' :
  score_record title last_name (best_match, best_score) record = Val st' →
  match record_score title last_name record with
  | Some score =>
      if Qltb best_score score && Qltb (8 # 10) score
      then st' = (match rec_identifier record with
                  | Some (Some (c :: text)) => Some (c :: text)
                  | _ => best_match
                  end, score)
      else st' = (best_match, best_score)
  | None => st' = (best_match, best_score)
  end.
Proof.
  unfold score_record, record_score.
  destruct (rec_metadata record) as [metadata|]; [|by intros [= <-]].
  destruct (creator_scores _ _) as [cs|e]; [|done].
  destruct (map _ _) as [|t ts]; [by intros [= <-]|].
  destruct cs as [|c cs]; [by intros [= <-]|].
  destruct (_ && _); [|by intros [= <-]].
  destruct (rec_identifier record) as [[[|ch text]|]|]; by intros [= <-].
Qed.

Lemma scan_inv_step title last_name seen st record st' :
  scan_inv title last_name seen st →
  record_named title last_name record = true →
  score_record title last_name st record = Val st' →
  scan_inv title last_name (seen ++ [record]) st'.
Proof.
  destruct st as [best_match best_score]. intros Hinv Hnamed Hstep.
  apply score_record_step in Hstep. unfold record_named in Hnamed.
  destruct (record_score title last_name record) as [score|] eqn:Hscore.
  - destruct (Qltb best_score score) eqn:Hbest;
      [destruct (Qltb (8 # 10) score) eqn:Hthr|]; cbn [andb] in Hstep.
    + (* the record becomes the best match *)
      apply Qltb_lt in Hbest, Hthr. unfold identified in Hnamed.
      destruct (rec_identifier record) as [[[|c text]|]|] eqn:Hid; try done.
      subst st'. unfold scan_inv. cbn [fst snd]. split; [done|].
      exists record. split; [apply elem_of_app; right; by left|].
      do 3 (split; [done|]).
      intros record' score' [Hin| ->%list_elem_of_singleton]%elem_of_app Hs'.
      * unfold scan_inv in Hinv. cbn [fst snd] in Hinv.
        destruct best_match as [identifier|].
        -- destruct Hinv as (_ & r0 & _ & _ & _ & _ & Hmax).
           apply Qlt_le_weak. eapply Qle_lt_trans; [by eapply Hmax|done].
        -- destruct Hinv as [_ Hlow]. apply Qlt_le_weak.
           eapply Qle_lt_trans; [by eapply Hlow|done].
      * rewrite Hscore in Hs'. injection Hs' as <-. apply Qle_refl.
    + (* above the best score, not above the threshold *)
      apply Qltb_ge in Hthr. subst st'. unfold scan_inv in *.
      cbn [fst snd] in *. destruct best_match as [identifier|].
      * destruct Hinv as (Hne & r0 & Hin & Hid & Hs0 & Hthr0 & Hmax).
        split; [done|]. exists r0. split; [apply elem_of_app; by left|].
        do 3 (split; [done|]).
        intros record' score' [Hin'| ->%list_elem_of_singleton]%elem_of_app Hs'.
        -- by eapply Hmax.
        -- rewrite Hscore in Hs'. injection Hs' as <-.
           apply Qlt_le_weak. eapply Qle_lt_trans; done.
      * destruct Hinv as [Hb Hlow]. split; [done|].
        intros record' score' [Hin'| ->%list_elem_of_singleton]%elem_of_app Hs'.
        -- by eapply Hlow.
        -- rewrite Hscore in Hs'. by injection Hs' as <-.
    + (* not above the best score *)
      apply Qltb_ge in Hbest. subst st'. unfold scan_inv in *.
      cbn [fst snd] in *. destruct best_match as [identifier|].
      * destruct Hinv as (Hne & r0 & Hin & Hid & Hs0 & Hthr0 & Hmax).
        split; [done|]. exists r0. split; [apply elem_of_app; by left|].
        do 3 (split; [done|]).
        intros record' score' [Hin'| ->%list_elem_of_singleton]%elem_of_app Hs'.
        -- by eapply Hmax.
        -- rewrite Hscore in Hs'. by injection Hs' as <-.
      * destruct Hinv as [Hb Hlow]. split; [done|].
        intros record' score' [Hin'| ->%list_elem_of_singleton]%elem_of_app Hs'.
        -- by eapply Hlow.
        -- rewrite Hscore in Hs'. injection Hs' as <-.
           by eapply Qle_trans.
  - (* the record has no score *)
    subst st'. unfold scan_inv in *. cbn [fst snd] in *.
    destruct best_match as [identifier|].
    + destruct Hinv as (Hne & r0 & Hin & Hid & Hs0 & Hthr0 & Hmax).
      split; [done|]. exists r0. split; [apply elem_of_app; by left|].
      do 3 (split; [done|]).
      intros record' score' [Hin'| ->%list_elem_of_singleton]%elem_of_app Hs';
        [by eapply Hmax|congruence].
    + destruct Hinv as [Hb Hlow]. split; [done|].
      intros record' score' [Hin'| ->%list_elem_of_singleton]%elem_of_app Hs';
        [by eapply Hlow|congruence].
Qed.

Lemma scan_records_inv title last_name seen st records st' :
  scan_inv title last_name seen st →
  forallb (record_named title last_name) records = true →
  scan_records title last_name st records = Val st' →
  scan_inv title last_name (seen ++ records) st'.
Proof.
  revert seen st. induction records as [|record records IH];
    intros seen st Hinv Hnamed Hscan; cbn [scan_records] in Hscan.
  - injection Hscan as <-. by rewrite app_nil_r.
  - cbn [forallb] in Hnamed. apply andb_true_iff in Hnamed as [Hr Hrs].
    destruct (score_record title last_name st record) as [st1|e] eqn:Hstep;
      [|done].
    replace (seen ++ record :: records) with ((seen ++ [record]) ++ records)
      by (by rewrite <- List.app_assoc).
    eapply IH; [by eapply scan_inv_step|done..].
Qed.

(** ** One strategy *)

(** The loop, unfolded once. *)
Lemma paginate_eq title last_name s start_time resp net w :
  paginate title last_name s start_time resp net w
  = let '(t, w) := time_time w in
    if Qltb 60 (t - start_time) then (Finished, net, logger (WarnTimeout s) w)
    else
      match as_xml resp with
      | None => (Raised ParseError, net, w)
      | Some root =>
          match scan_records title last_name (None, 0%Q) (records root) with
          | Raise e => (Raised e, net, w)
          | Val (best_match, best_score) =>
              match best_match with
              | Some ((_ :: _) as best_match) =>
                  let handle := handle_of_identifier best_match in
                  (Returned handle, net, logger (InfoFound handle best_score) w)
              | _ =>
                  match resumptionToken root with
                  | Some (Some ((_ :: _) as token)) =>
                      match requests_get (next_request token) net w with
                      | (Raise e, net', w) => (Raised e, net', w)
                      | (Val r, net', w) =>
                          match raise_for_status r with
                          | Raise e => (Raised e, net', w)
                          | Val _ =>
                              paginate title last_name s start_time r net' w
                          end
                      end
                  | _ => (Finished, net, w)
                  end
              end
          end
      end.
Proof.
  destruct net as [|[|r] net];
    cbn [paginate time_time requests_get]; unfold raise_for_status;
    repeat case_match; by simplify_eq.
Qed.

Lemma requests_get_consumes rq net w r net' w' :
  requests_get rq net w = (r, net', w') → ∃ used, net = used ++ net'.
Proof.
  destruct net as [|[|resp] net]; intros [= <- <- <-].
  - by exists [].
  - by exists [NoReply].
  - by exists [Reply resp].
Qed.

Lemma paginate_consumes title last_name s start_time resp net w e net' w' :
  paginate title last_name s start_time resp net w = (e, net', w') →
  ∃ used, net = used ++ net'.
Proof.
  revert resp w. induction net as [|rep net IH]; intros resp w;
    rewrite paginate_eq; cbn [time_time requests_get];
    unfold raise_for_status; repeat case_match; intros Hp; simplify_eq;
    try (by exists []); try (by eexists [_]).
  all: destruct (IH _ _ Hp) as [used ->]; by eexists (_ :: used).
Qed.

Lemma run_strategy_consumes title last_name s net w e net' w' :
  run_strategy title last_name s net w = (e, net', w') →
  ∃ used, net = used ++ net'.
Proof.
  unfold run_strategy.
  destruct (requests_get _ net w) as [[[resp|x] net1] w1] eqn:Hget.
  - apply requests_get_consumes in Hget as [used1 ->].
    destruct (raise_for_status resp).
    + cbn [time_time]. intros [used2 ->]%paginate_consumes.
      exists (used1 ++ used2). by rewrite <- List.app_assoc.
    + intros [= <- <- <-]. by exists used1.
  - apply requests_get_consumes in Hget as [used1 ->].
    intros [= <- <- <-]. by exists used1.
Qed.

Lemma scan_inv_start title last_name :
  scan_inv title last_name [] (None, 0%Q).
Proof. split; [done|]. by intros record score ?%elem_of_nil. Qed.

Lemma feed_named_cons title last_name resp net root :
  as_xml resp = Some root →
  feed_named title last_name (Reply resp :: net) = true →
  forallb (record_named title last_name) (records root) = true
  ∧ feed_named title last_name net = true.
Proof.
  intros Hxml. unfold feed_named, pages_of. cbn [omap list_omap page_of_reply].
  rewrite Hxml. cbn [forallb]. apply andb_true_iff.
Qed.

(** The batch that sets [best_match] holds the accepted record. *)
Lemma accepted_here title last_name resp root c identifier best_score :
  as_xml resp = Some root →
  scan_inv title last_name (records root) (Some (c :: identifier), best_score) →
  accepted_from title last_name [Reply resp]
    (handle_of_identifier (c :: identifier)).
Proof.
  intros Hxml (_ & record & Hin & Hid & Hscore & Hthr & Hmax).
  cbn [fst snd] in *.
  exists root, record, (c :: identifier), best_score.
  unfold pages_of. cbn [omap list_omap page_of_reply]. rewrite Hxml.
  do 6 (split; [done|]).
  intros p' record' score' ->%list_elem_of_singleton. apply Hmax.
Qed.

(** A batch without a match adds nothing above the threshold. *)
Lemma accepted_later title last_name resp root best_score answers handle :
  as_xml resp = Some root →
  scan_inv title last_name (records root) (None, best_score) →
  accepted_from title last_name answers handle →
  accepted_from title last_name (Reply resp :: answers) handle.
Proof.
  intros Hxml [_ Hlow] (p & record & identifier & score & Hlast & Hin & Hid
                        & -> & Hscore & Hthr & Hmax).
  exists p, record, identifier, score.
  unfold pages_of in *. cbn [omap list_omap page_of_reply]. rewrite Hxml.
  split; [by rewrite last_cons, Hlast|]. do 5 (split; [done|]).
  intros p' record' score' [->|Hp']%elem_of_cons Hin' Hscore'.
  - apply Qlt_le_weak. eapply Qle_lt_trans; [by eapply Hlow|done].
  - by eapply Hmax.
Qed.

Lemma paginate_returned title last_name s start_time resp net w h net' w' :
  feed_named title last_name (Reply resp :: net) = true →
  paginate title last_name s start_time resp net w = (Returned h, net', w') →
  ∃ used, net = used ++ net'
          ∧ accepted_from title last_name (Reply resp :: used) h.
Proof.
  revert resp w. induction net as [|rep net IH]; intros resp w Hnamed;
    rewrite paginate_eq; cbn [time_time];
    (destruct (Qltb 60 _); [done|]);
    (destruct (as_xml resp) as [root|] eqn:Hxml; [|done]);
    destruct (feed_named_cons _ _ _ _ _ Hxml Hnamed) as [Hhere Hrest];
    (destruct (scan_records _ _ _ _) as [[best_match best_score]|e] eqn:Hscan;
       [|done]);
    pose proof (scan_records_inv _ _ [] _ _ _
                  (scan_inv_start title last_name) Hhere Hscan) as Hinv;
    cbn [app] in Hinv;
    (destruct best_match as [[|c identifier]|];
       [by destruct Hinv
       |intros [= <- <- <-]; exists []; split; [done|by eapply accepted_here]
       |]);
    (destruct (resumptionToken root) as [[[|c token]|]|]; try done);
    cbn [requests_get]; try done.
  destruct rep as [|r]; [done|]. unfold raise_for_status.
  destruct (status_ok r); [|done]. intros Hp.
  apply IH in Hp as (used & -> & Hacc); [|done].
  exists (Reply r :: used). split; [done|]. by eapply accepted_later.
Qed.

Lemma run_strategy_returned title last_name s net w h net' w' :
  feed_named title last_name net = true →
  run_strategy title last_name s net w = (Returned h, net', w') →
  ∃ used, net = used ++ net' ∧ accepted_from title last_name used h.
Proof.
  intros Hnamed. unfold run_strategy.
  destruct net as [|[|resp] net]; cbn [requests_get]; [done..|].
  unfold raise_for_status. destruct (status_ok resp); [|done].
  cbn [time_time]. intros (used & -> & Hacc)%paginate_returned; [|done].
  by exists (Reply resp :: used).
Qed.

Lemma feed_named_app title last_name used net :
  feed_named title last_name (used ++ net) = true →
  feed_named title last_name net = true.
Proof.
  unfold feed_named, pages_of. rewrite omap_app, forallb_app.
  by intros [_ ?]%andb_true_iff.
Qed.

(** The resolver never raises: each strategy ends in its [try]. *)
Lemma try_strategies_val title author last_name strategies net w :
  ∃ found net' w',
    try_strategies title author last_name strategies net w
    = (Val found, net', w').
Proof.
  revert net w. induction strategies as [|s strategies IH]; intros net w;
    cbn [try_strategies]; [by eexists _, _, _|].
  destruct (run_strategy title last_name s net w) as [[[h| |e] net1] w1];
    [by eexists _, _, _|apply IH..].
Qed.

Lemma try_strategies_returned title author last_name strategies net w h net' w' :
  feed_named title last_name net = true →
  try_strategies title author last_name strategies net w
  = (Val (Some h), net', w') →
  ∃ before used, net = before ++ used ++ net'
                 ∧ accepted_from title last_name used h.
Proof.
  revert net w. induction strategies as [|s strategies IH]; intros net w Hnamed;
    cbn [try_strategies]; [done|].
  destruct (run_strategy title last_name s net w) as [[[h0| |e] net1] w1] eqn:Hrun.
  - intros [= <- <- <-].
    apply run_strategy_returned in Hrun as (used & -> & Hacc); [|done].
    by exists [], used.
  - apply run_strategy_consumes in Hrun as [used1 ->].
    intros (before & used & -> & Hacc)%IH; [|by eapply feed_named_app].
    exists (used1 ++ before), used. by rewrite <- List.app_assoc.
  - apply run_strategy_consumes in Hrun as [used1 ->].
    intros (before & used & -> & Hacc)%IH; [|by eapply feed_named_app].
    exists (used1 ++ before), used. by rewrite <- List.app_assoc.
Qed.

Lemma feed_below_named title last_name net :
  feed_below title last_name net = true →
  feed_named title last_name net = true.
Proof.
  unfold feed_below, feed_named. rewrite !forallb_forall.
  intros Hlow p Hp. specialize (Hlow p Hp). rewrite forallb_forall in *.
  intros record Hr. specialize (Hlow record Hr). unfold record_named.
  destruct (record_score title last_name record) as [score|]; [|done].
  apply Qle_bool_iff in Hlow. apply Qltb_ge in Hlow. by rewrite Hlow.
Qed.

Lemma feed_below_rejects title last_name before used net' h :
  feed_below title last_name (before ++ used ++ net') = true →
  ¬ accepted_from title last_name used h.
Proof.
  intros Hlow (p & record & identifier & score & Hlast & Hin & _ & _ & Hscore
               & Hthr & _).
  unfold feed_below, pages_of in Hlow.
  rewrite !omap_app, !forallb_app in Hlow.
  apply andb_true_iff in Hlow as [_ [Hlow _]%andb_true_iff].
  rewrite forallb_forall in Hlow.
  apply last_Some_elem_of, list_elem_of_In in Hlast.
  specialize (Hlow p Hlast). rewrite forallb_forall in Hlow.
  apply list_elem_of_In in Hin.
  specialize (Hlow record Hin). rewrite Hscore in Hlow.
  apply Qle_bool_iff in Hlow. by apply Qlt_not_le in Hthr.
Qed.

(** ** The strategy that returns *)

Lemma scan_chosen_step title last_name seen st record st' :
  scan_chosen title last_name seen st →
  score_record title last_name st record = Val st' →
  scan_chosen title last_name (seen ++ [record]) st'.
Proof.
  destruct st as [best_match best_score]. intros Hinv Hstep.
  assert (scan_chosen title last_name (seen ++ [record])
            (best_match, best_score)) as Hkeep.
  { unfold scan_chosen in *. cbn [fst] in *.
    destruct best_match as [identifier|]; [|done].
    destruct Hinv as (Hne & r0 & s0 & Hin & Hrest). split; [done|].
    exists r0, s0. split; [apply elem_of_app; by left|done]. }
  apply score_record_step in Hstep.
  destruct (record_score title last_name record) as [score|] eqn:Hscore;
    [|by subst st'].
  destruct (Qltb best_score score); cbn [andb] in Hstep; [|by subst st'].
  destruct (Qltb (8 # 10) score) eqn:Hthr; [|by subst st'].
  apply Qltb_lt in Hthr. subst st'.
  destruct (rec_identifier record) as [[[|c text]|]|] eqn:Hid;
    try (unfold scan_chosen in *; cbn [fst] in *; exact Hkeep).
  unfold scan_chosen. cbn [fst]. split; [done|].
  exists record, score. split; [apply elem_of_app; right; by left|done].
Qed.

Lemma scan_records_chosen title last_name seen st records st' :
  scan_chosen title last_name seen st →
  scan_records title last_name st records = Val st' →
  scan_chosen title last_name (seen ++ records) st'.
Proof.
  revert seen st. induction records as [|record records IH];
    intros seen st Hinv Hscan; cbn [scan_records] in Hscan.
  - injection Hscan as <-. by rewrite app_nil_r.
  - destruct (score_record title last_name st record) as [st1|e] eqn:Hstep;
      [|done].
    replace (seen ++ record :: records) with ((seen ++ [record]) ++ records)
      by (by rewrite <- List.app_assoc).
    eapply IH; [by eapply scan_chosen_step|done].
Qed.

Lemma paginate_chosen title last_name s start_time resp net w h net' w' :
  paginate title last_name s start_time resp net w = (Returned h, net', w') →
  ∃ used, net = used ++ net'
          ∧ chosen_from title last_name (Reply resp :: used) h.
Proof.
  revert resp w. induction net as [|rep net IH]; intros resp w;
    rewrite paginate_eq; cbn [time_time];
    (destruct (Qltb 60 _); [done|]);
    (destruct (as_xml resp) as [root|] eqn:Hxml; [|done]);
    (destruct (scan_records _ _ _ _) as [[best_match best_score]|e] eqn:Hscan;
       [|done]);
    pose proof (scan_records_chosen title last_name [] (None, 0%Q) _ _ I Hscan)
      as Hinv;
    cbn [app] in Hinv;
    (destruct best_match as [[|c identifier]|];
       [by destruct Hinv
       |intros [= <- <- <-]; exists []; split; [done|];
        destruct Hinv as (Hne & record & score & Hin & Hid & Hscore & Hthr);
        exists root, record, (c :: identifier), score;
        unfold pages_of; cbn [omap list_omap page_of_reply]; rewrite Hxml;
        by split_and!
       |]);
    (destruct (resumptionToken root) as [[[|c token]|]|]; try done);
    cbn [requests_get]; try done.
  destruct rep as [|r]; [done|]. unfold raise_for_status.
  destruct (status_ok r); [|done]. intros Hp.
  apply IH in Hp as (used & -> & p & record & identifier & score & Hlast & Hrest).
  exists (Reply r :: used). split; [done|].
  exists p, record, identifier, score. split; [|done].
  unfold pages_of in *. cbn [omap list_omap page_of_reply] in *.
  rewrite Hxml. by rewrite last_cons, Hlast.
Qed.

Lemma run_strategy_chosen title last_name s net w h net' w' :
  run_strategy title last_name s net w = (Returned h, net', w') →
  ∃ used, net = used ++ net' ∧ chosen_from title last_name used h.
Proof.
  unfold run_strategy.
  destruct net as [|[|resp] net]; cbn [requests_get]; [done..|].
  unfold raise_for_status. destruct (status_ok resp); [|done].
  cbn [time_time]. intros (used & -> & Hacc)%paginate_chosen.
  by exists (Reply resp :: used).
Qed.

(** The run of the resolver that returns a handle splits into the
    strategies that pass and the one that returns. *)
Lemma try_strategies_split title author last_name strategies net w h net' w' :
  try_strategies title author last_name strategies net w
  = (Val (Some h), net', w') →
  ∃ earlier s later before used w1,
    strategies = earlier ++ s :: later
    ∧ net = before ++ used ++ net'
    ∧ strategies_pass title last_name earlier net w = Some (used ++ net', w1)
    ∧ run_strategy title last_name s (used ++ net') w1 = (Returned h, net', w').
Proof.
  revert net w. induction strategies as [|s strategies IH]; intros net w;
    cbn [try_strategies]; [done|].
  destruct (run_strategy title last_name s net w) as [[e net1] w1] eqn:Hrun.
  destruct (run_strategy_consumes _ _ _ _ _ _ _ _ Hrun) as [used1 Hnet].
  destruct e as [h0| |x].
  - intros [= <- <- <-]. exists [], s, strategies, [], used1, w.
    subst net. by split_and!.
  - intros (earlier & s' & later & before & used & w2 & -> & -> & Hpass & Hret)%IH.
    exists (s :: earlier), s', later, (used1 ++ before), used, w2.
    split_and!; [done|by rewrite Hnet, <- List.app_assoc| |done].
    cbn [strategies_pass]. by rewrite Hrun.
  - intros (earlier & s' & later & before & used & w2 & -> & -> & Hpass & Hret)%IH.
    exists (s :: earlier), s', later, (used1 ++ before), used, w2.
    split_and!; [done|by rewrite Hnet, <- List.app_assoc| |done].
    cbn [strategies_pass]. by rewrite Hrun.
Qed.

(** ** C2, C3: what the resolver accepts *)

(** C2, as the code has it. Within one search strategy the best
    candidate is tracked batch by batch, and the first batch with a match
    ends the search. When every record that scores above 0.8 carries an
    identifier, the candidate the resolver accepts has the maximum
    combined score among all candidates of all the batches of that
    strategy seen so far, not only of the current batch. *)
Theorem best_across_batches (title last_name : str) (s : strategy)
    (net : network) (w : world) (h : str) (net' : network) (w' : world) :
  feed_named title last_name net = true →
  run_strategy title last_name s net w = (Returned h, net', w') →
  ∃ used, net = used ++ net' ∧ accepted_from title last_name used h.
Proof. apply run_strategy_returned. Qed.

(** C3, as the code has it. [discover_handle] returns a handle only when
    it is the handle of a candidate whose combined score (0.6 times the
    best title similarity plus 0.4 times the best creator similarity) is
    strictly greater than 0.8: the strategies before the one that
    returns all end without a handle, and the handle comes from a record
    of the last batch that the returning strategy fetched. When every
    record that scores above 0.8 carries an identifier, the score of that
    candidate is the maximum over all candidates of all the batches the
    returning strategy fetched. When no candidate scores above 0.8 no
    match is returned. With two candidates scoring 0.75 and 0.82 the
    handle of the 0.82 candidate is returned; with a maximum of exactly
    0.8 no match is returned. *)
Theorem accepted_above_threshold (author title : str) (net : network)
    (w : world) :
  (∀ h net' w',
     discover_handle author title net w = (Val (Some h), net', w') →
     ∃ earlier s later before used w1,
       search_strategies = earlier ++ s :: later
       ∧ net = before ++ used ++ net'
       ∧ strategies_pass title (last_name_of author) earlier net
           (logger (InfoSearching title author (last_name_of author)) w)
         = Some (used ++ net', w1)
       ∧ run_strategy title (last_name_of author) s (used ++ net') w1
         = (Returned h, net', w')
       ∧ chosen_from title (last_name_of author) used h
       ∧ (feed_named title (last_name_of author) net = true →
          accepted_from title (last_name_of author) used h))
  ∧ (feed_below title (last_name_of author) net = true →
     ∃ net' w', discover_handle author title net w = (Val None, net', w'))
  ∧ (∃ s75 s82,
       record_score query_title (lit "Novak") candidate_075 = Some s75
       ∧ (s75 == 75 # 100)%Q
       ∧ record_score query_title (lit "Novak") candidate_082 = Some s82
       ∧ (s82 == 82 # 100)%Q
       ∧ (discover_handle query_author query_title
            [Reply (feed_answer (last_page [candidate_075; candidate_082]))]
            quiet_world).1.1
         = Val (Some (lit "oai:dspace.cvut.cz:10467/82")))
  ∧ (∃ s80,
       record_score query_title (lit "Novak") candidate_080 = Some s80
       ∧ (s80 == 8 # 10)%Q
       ∧ (discover_handle query_author query_title
            (replicate 3 (Reply (feed_answer (last_page [candidate_080]))))
            quiet_world).1.1
         = Val None).
Proof.
  split; [|split; [|split]].
  - intros h net' w'. unfold discover_handle.
    intros (earlier & s & later & before & used & w1 & Hs & -> & Hpass & Hret)
             %try_strategies_split.
    exists earlier, s, later, before, used, w1.
    split_and!; try done.
    + apply run_strategy_chosen in Hret as (used' & Hused & Hchosen).
      by apply app_inv_tail in Hused as <-.
    + intros Hnamed%feed_named_app.
      apply run_strategy_returned in Hret as (used' & Hused & Hacc); [|done].
      by apply app_inv_tail in Hused as <-.
  - intros Hlow. unfold discover_handle.
    set (w0 := logger _ w).
    destruct (try_strategies_val title author (last_name_of author)
                search_strategies net w0) as ([h|] & net' & w' & Hres);
      [|by eexists _, _].
    apply try_strategies_returned in Hres as Hacc;
      [|by apply feed_below_named].
    destruct Hacc as (before & used & -> & Hacc).
    exfalso. by eapply feed_below_rejects.
  - eexists _, _. by vm_compute.
  - eexists. by vm_compute.
Qed.

(** ** C7: pagination *)

Lemma paginate_continue title last_name s start_time resp token r net w :
  continues_with title last_name resp token = true →
  Qle_bool (clock w (reads w) - start_time) 60 = true →
  paginate title last_name s start_time resp (Reply r :: net) w
  = if status_ok r
    then paginate title last_name s start_time r net
           (record_request (next_request token) (time_time w).2)
    else (Raised HTTPError, net,
          record_request (next_request token) (time_time w).2).
Proof.
  unfold continues_with, no_match. intros Hresp Htime.
  rewrite paginate_eq. cbn [time_time snd]. unfold Qltb. rewrite Htime.
  cbn [negb]. apply andb_true_iff in Hresp as [_ Hresp].
  destruct (as_xml resp) as [root|]; [|done].
  apply andb_true_iff in Hresp as [Hscan Htoken].
  destruct (scan_records _ _ _ _) as [[[?|] ?]|]; try done.
  destruct (resumptionToken root) as [[t|]|]; try done.
  apply andb_true_iff in Htoken as [Ht ->%bool_decide_eq_true].
  destruct token; [done|]. cbn [requests_get]. unfold raise_for_status.
  by destruct (status_ok r).
Qed.

Lemma paginate_end title last_name s start_time resp net w :
  ends_feed title last_name resp = true →
  Qle_bool (clock w (reads w) - start_time) 60 = true →
  paginate title last_name s start_time resp net w
  = (Finished, net, (time_time w).2).
Proof.
  unfold ends_feed, no_match. intros Hresp Htime.
  rewrite paginate_eq. cbn [time_time snd]. unfold Qltb. rewrite Htime.
  cbn [negb]. apply andb_true_iff in Hresp as [_ Hresp].
  destruct (as_xml resp) as [root|]; [|done].
  apply andb_true_iff in Hresp as [Hscan Htoken].
  destruct (scan_records _ _ _ _) as [[[?|] ?]|]; try done.
  by destruct (resumptionToken root) as [[[|c t]|]|].
Qed.

(** C7. When the feed answers a strategy with a continuation token
    three times in a row and then without one, no candidate is accepted
    and the time budget is not exceeded, the resolver issues exactly four
    feed requests for that strategy: the first one and one for each
    token. *)
Theorem four_requests (title last_name : str) (s : strategy)
    (r1 r2 r3 r4 : response) (t1 t2 t3 : str) (rest : network) (w : world) :
  continues_with title last_name r1 t1 = true →
  continues_with title last_name r2 t2 = true →
  continues_with title last_name r3 t3 = true →
  ends_feed title last_name r4 = true →
  within_budget w 4 = true →
  ∃ w',
    run_strategy title last_name s
      (Reply r1 :: Reply r2 :: Reply r3 :: Reply r4 :: rest) w
    = (Finished, rest, w')
    ∧ sent w'
      = sent w ++ [first_request s; next_request t1; next_request t2;
                   next_request t3]
    ∧ length (sent w') = length (sent w) + 4.
Proof.
  intros H1 H2 H3 H4 Hbudget.
  unfold within_budget in Hbudget. cbn [seq forallb] in Hbudget.
  rewrite !andb_true_iff in Hbudget.
  destruct Hbudget as (Hb1 & Hb2 & Hb3 & Hb4 & _).
  replace (reads w + 1) with (S (reads w)) in Hb1 by lia.
  replace (reads w + 2) with (S (S (reads w))) in Hb2 by lia.
  replace (reads w + 3) with (S (S (S (reads w)))) in Hb3 by lia.
  replace (reads w + 4) with (S (S (S (S (reads w))))) in Hb4 by lia.
  assert (status_ok r1 = true ∧ status_ok r2 = true ∧ status_ok r3 = true
          ∧ status_ok r4 = true) as (Hok1 & Hok2 & Hok3 & Hok4).
  { unfold continues_with, ends_feed in *.
    apply andb_true_iff in H1 as [? _], H2 as [? _], H3 as [? _], H4 as [? _].
    done. }
  unfold run_strategy. cbn [requests_get]. unfold raise_for_status.
  rewrite Hok1. cbn [time_time record_request clock reads].
  rewrite (paginate_continue _ _ _ _ r1 t1) by done. rewrite Hok2.
  cbn [time_time record_request clock reads snd].
  rewrite (paginate_continue _ _ _ _ r2 t2) by done. rewrite Hok3.
  cbn [time_time record_request clock reads snd].
  rewrite (paginate_continue _ _ _ _ r3 t3) by done. rewrite Hok4.
  cbn [time_time record_request clock reads snd].
  rewrite paginate_end by done.
  eexists. split; [done|]. cbn [time_time snd sent record_request].
  rewrite <- !List.app_assoc. split; [done|].
  rewrite length_app. done.
Qed.

(** ** C9: failures inside the resolver *)

(** C9. When the request or the parsing of a strategy fails, the
    strategy ends with an exception that the resolver logs before it goes
    on with the next strategy, and no exception leaves
    [discover_handle]; when every strategy ends without an accepted
    match, [discover_handle] returns none. *)
Theorem resolver_contains_failures (author title : str) (net : network)
    (w : world) :
  (∃ found net' w',
     discover_handle author title net w = (Val found, net', w'))
  ∧ (∀ s rest w0,
       run_strategy title (last_name_of author) s (NoReply :: rest) w0
       = (Raised RequestException, rest, record_request (first_request s) w0))
  ∧ (∀ s r rest w0,
       status_ok r = false →
       run_strategy title (last_name_of author) s (Reply r :: rest) w0
       = (Raised HTTPError, rest, record_request (first_request s) w0))
  ∧ (∀ s r rest w0,
       status_ok r = true → as_xml r = None →
       Qle_bool (clock w0 (S (reads w0)) - clock w0 (reads w0)) 60 = true →
       ∃ w1, run_strategy title (last_name_of author) s (Reply r :: rest) w0
             = (Raised ParseError, rest, w1))
  ∧ (∀ s rest e net0 w0 net1 w1,
       run_strategy title (last_name_of author) s net0 w0
       = (Raised e, net1, w1) →
       try_strategies title author (last_name_of author) (s :: rest) net0 w0
       = try_strategies title author (last_name_of author) rest net1
           (logger (ErrorStrategy s e) w1))
  ∧ (∀ s1 s2 s3 e1 net1 w1 e2 net2 w2 e3 net3 w3,
       search_strategies = [s1; s2; s3] →
       run_strategy title (last_name_of author) s1 net
         (logger (InfoSearching title author (last_name_of author)) w)
       = (e1, net1, w1) →
       run_strategy title (last_name_of author) s2 net1
         (after_strategy s1 e1 w1)
       = (e2, net2, w2) →
       run_strategy title (last_name_of author) s3 net2
         (after_strategy s2 e2 w2)
       = (e3, net3, w3) →
       not_returned e1 → not_returned e2 → not_returned e3 →
       discover_handle author title net w
       = (Val None, net3,
          logger (WarnNoHandle title author) (after_strategy s3 e3 w3))).
Proof.
  split; [|split; [|split; [|split; [|split]]]].
  - apply try_strategies_val.
  - done.
  - intros s r rest w0 Hok. unfold run_strategy. cbn [requests_get].
    unfold raise_for_status. by rewrite Hok.
  - intros s r rest w0 Hok Hxml Htime. unfold run_strategy.
    cbn [requests_get]. unfold raise_for_status. rewrite Hok.
    cbn [time_time record_request clock reads]. rewrite paginate_eq.
    cbn [time_time record_request clock reads]. unfold Qltb.
    rewrite Htime, Hxml. by eexists.
  - intros s rest e net0 w0 net1 w1 Hrun. cbn [try_strategies].
    by rewrite Hrun.
  - intros s1 s2 s3 e1 net1 w1 e2 net2 w2 e3 net3 w3 Hs Hr1 Hr2 Hr3 Hn1 Hn2 Hn3.
    unfold discover_handle. rewrite Hs. cbn [try_strategies]. rewrite Hr1.
    destruct e1 as [h| |x]; [done|..]; cbn [after_strategy] in Hr2;
      rewrite Hr2;
      (destruct e2 as [h| |y]; [done|..]); cbn [after_strategy] in Hr3;
      rewrite Hr3; by destruct e3.
Qed.

(** ** C10: the fetcher without the document view *)

(** C10. [get_thesis_metadata] returns an absent result whenever the
    request for the HTML document view does not succeed, also when the
    detail endpoint answered with success and gave field values: a
    metadata record is built only after a successful HTML answer, and no
    exception leaves the function. *)
Theorem metadata_needs_document_view (handle : str) (net : network) (w : world) :
  (∃ found net' w',
     get_thesis_metadata handle net w = (Val found, net', w'))
  ∧ (∀ metadata net' w',
       get_thesis_metadata handle net w = (Val (Some metadata), net', w') →
       ∃ r1 r2, net = Reply r1 :: Reply r2 :: net' ∧ status_ok r2 = true)
  ∧ (∀ r1 rest,
       net = Reply r1 :: rest → html_fails rest = true →
       ∃ net' w', get_thesis_metadata handle net w = (Val None, net', w')).
Proof.
  assert (∀ metadata net' w',
            get_thesis_metadata handle net w = (Val (Some metadata), net', w') →
            ∃ r1 r2, net = Reply r1 :: Reply r2 :: net' ∧ status_ok r2 = true)
    as Honly.
  { intros metadata net' w'. unfold get_thesis_metadata, fetch_body.
    destruct net as [|[|r1] net1]; cbn [requests_get]; [done..|].
    destruct (if status_ok r1 then _ else _) as [metadata_dict|e]; [|done].
    destruct net1 as [|[|r2] net2]; cbn [requests_get]; [done..|].
    destruct (status_ok r2) eqn:Hok; [|done].
    destruct (as_html r2) as [soup|]; [|done].
    destruct (build_metadata _ _ _ _); [|done].
    intros [= <- <- <-]. by exists r1, r2. }
  assert (∃ found net' w',
            get_thesis_metadata handle net w = (Val found, net', w')) as Hval.
  { unfold get_thesis_metadata.
    destruct (fetch_body handle net w) as [[[found|e] net'] w'];
      by eexists _, _, _. }
  split; [done|]. split; [done|].
  intros r1 rest -> Hfails.
  destruct Hval as ([metadata|] & net' & w' & Hres); [|by eexists _, _].
  apply Honly in Hres as Hsome. destruct Hsome as (r1' & r2 & [= <- ->] & Hok).
  cbn [html_fails] in Hfails. by rewrite Hok in Hfails.
Qed.

(** ** C8: records of a future year *)

(** C8. For a local record whose year parses as an integer strictly
    greater than the current calendar year, the batch driver makes no
    call of the resolver or of the fetcher (no request is sent, the
    network is left as it was) and appends the record to the write-back
    list with title, author, type, year and handle unchanged. *)
Theorem future_record_passes_through (current_year : Z) (t : thesis)
    (d : driver) (net : network) (w : world) (thesis_year : Z) :
  py_int (year t) = Some thesis_year →
  (current_year < thesis_year)%Z →
  ∃ d' w',
    process_thesis current_year t d net w = (d', net, w')
    ∧ sent w' = sent w
    ∧ metadata_store w' = metadata_store w
    ∧ theses_with_handles d' = theses_with_handles d ++ [t]
    ∧ ∀ rest,
        process_theses current_year (t :: rest) d net w
        = process_theses current_year rest d' net w'.
Proof.
  intros Hint Hfuture. unfold process_thesis. rewrite Hint.
  apply Z.ltb_lt in Hfuture. rewrite Hfuture.
  eexists _, _. split; [done|]. do 3 (split; [done|]).
  intros rest. cbn [process_theses]. unfold process_thesis.
  by rewrite Hint, Hfuture.
Qed.

(* ===================================================================== *)
(** * Further properties of the code *)
(* ===================================================================== *)

(** ** The shape of a normalised text *)

Lemma plain_nonspace c : plain c → nonspace c.
Proof.
  unfold plain, nonspace, is_ascii_lower, is_ascii_digit, isspace.
  rewrite !orb_true_iff, !andb_true_iff, !N.leb_le. intros H.
  rewrite !orb_false_iff, !andb_false_iff, !N.leb_gt, !N.eqb_neq. lia.
Qed.

Lemma plain_settled c : plain c → settled c.
Proof.
  intros Hc. assert (kept_by_regex c = true) as Hk.
  { unfold kept_by_regex. unfold plain in Hc. by rewrite Hc. }
  repeat split; [|done|by apply kept_not_upper].
  unfold plain, is_ascii_lower, is_ascii_digit, is_ascii in *.
  rewrite !orb_true_iff, !andb_true_iff, !N.leb_le in Hc.
  apply N.ltb_lt. lia.
Qed.

Lemma settled_nonspace_plain c : settled c → nonspace c → plain c.
Proof.
  intros (_ & Hk & _) Hs. unfold kept_by_regex, nonspace, plain in *.
  rewrite Hs, orb_false_r in Hk. done.
Qed.

Lemma plain_word_word w : plain_word w → word w.
Proof.
  intros [Hne Hw]. split; [done|].
  eapply Forall_impl; [exact Hw|apply plain_nonspace].
Qed.

Lemma words_plain (ws : list (list N)) :
  Forall word ws → Forall (Forall settled) ws → Forall plain_word ws.
Proof.
  induction 1 as [|w ws [Hne Hw] _ IH]; intros Hs; [constructor|].
  inversion Hs as [|? ? Hsw Hsws]; subst. constructor; [|by apply IH].
  split; [done|]. apply Forall_forall. intros c Hc.
  apply settled_nonspace_plain; by eapply Forall_forall.
Qed.

Lemma normalize_plain text :
  ∃ ws, _normalize_text text = join (lit " ") ws ∧ Forall plain_word ws.
Proof.
  unfold _normalize_text. eexists. split; [done|].
  apply words_plain; [apply split_ws_words|].
  apply split_ws_from_keeps; [constructor|apply filtered_settled].
Qed.

(** X1. The result of [_normalize_text] is a sequence of words joined by
    single spaces, where every word is not empty and is made of lowercase
    ASCII letters and digits only: no other character, no space at either
    end, no two spaces in a row. *)
Theorem normalize_words (text : str) :
  ∃ ws, _normalize_text text = join (lit " ") ws ∧ Forall plain_word ws.
Proof. apply normalize_plain. Qed.

(** A sequence of such words is a normal form. *)
Lemma normalize_join ws :
  Forall plain_word ws → _normalize_text (join (lit " ") ws) = join (lit " ") ws.
Proof.
  intros Hws.
  assert (Forall settled (join (lit " ") ws)) as Hs.
  { apply join_keeps; [by repeat constructor|].
    eapply Forall_impl; [exact Hws|]. intros w [_ Hw].
    eapply Forall_impl; [exact Hw|apply plain_settled]. }
  unfold _normalize_text. rewrite lower_settled by done.
  rewrite (filter_all (fun c => is_ascii c = true))
    by (eapply Forall_impl; [exact Hs|by intros c (? & _ & _)]).
  rewrite (filter_all (fun c => kept_by_regex c = true))
    by (eapply Forall_impl; [exact Hs|by intros c (_ & ? & _)]).
  rewrite split_ws_join; [done|].
  eapply Forall_impl; [exact Hws|apply plain_word_word].
Qed.

(** X2. The score of two texts is the score of their normal forms, so
    two texts with the same normal form (they differ in case, in
    punctuation, in non-ASCII characters or in spacing only) score 1. *)
Theorem similarity_of_normal_forms (text1 text2 : str) :
  _similarity_score text1 text2
  = _similarity_score (_normalize_text text1) (_normalize_text text2)
  ∧ (_normalize_text text1 = _normalize_text text2 →
     (_similarity_score text1 text2 == 1)%Q).
Proof.
  split.
  - destruct (normalize_plain text1) as (ws1 & H1 & Hw1).
    destruct (normalize_plain text2) as (ws2 & H2 & Hw2).
    unfold _similarity_score. rewrite H1, H2.
    by rewrite !normalize_join.
  - intros Heq. unfold _similarity_score. rewrite Heq. apply ratio_self.
Qed.

(** ** The last name is a token of the author *)

(** X3. The last name [discover_handle] extracts is one of the
    whitespace-separated tokens of the author, so it holds no whitespace;
    it is empty only when the author has no token. *)
Theorem last_name_is_token (author : str) :
  (split_ws author = [] ∧ last_name_of author = [])
  ∨ (last_name_of author ∈ split_ws author ∧ word (last_name_of author)).
Proof.
  assert (∀ t, t ∈ split_ws author → t ∈ split_ws author ∧ word t) as Htoken.
  { intros t Ht. split; [done|].
    by eapply Forall_forall; [apply split_ws_words|]. }
  unfold last_name_of.
  destruct (split_ws author) as [|first [|second rest]] eqn:Hs; [by left|..].
  - right. apply Htoken. by left.
  - right. apply Htoken.
    change (2 <=? length (first :: second :: rest)) with true. cbv iota.
    assert (List.last (first :: second :: rest) [] ∈ first :: second :: rest).
    { rewrite last_default.
      destruct (proj2 (last_is_Some (first :: second :: rest))) as [t Hlast];
        [done|].
      rewrite Hlast. by apply last_Some_elem_of. }
    destruct first as [|c first]; [done|]. destruct (isupper c); [by left|done].
Qed.

(** ** The handle of an identifier *)

Lemma split_on_parts sep s : Forall (Forall (fun c => c ≠ sep)) (split_on sep s).
Proof.
  induction s as [|c s IH]; [by repeat constructor|]. simpl.
  destruct (c =? sep)%N eqn:Hc; [by constructor|].
  apply N.eqb_neq in Hc.
  destruct (split_on sep s) as [|w ws]; [by repeat constructor|].
  inversion IH; subst. by repeat constructor.
Qed.

Lemma split_on_join sep parts :
  parts ≠ [] → Forall (Forall (fun c => c ≠ sep)) parts →
  split_on sep (join [sep] parts) = parts.
Proof.
  induction parts as [|w parts IH]; intros Hne Hparts; [done|].
  inversion Hparts as [|? ? Hw Hrest]; subst.
  destruct parts as [|w' parts]; [by apply split_on_whole|].
  change (join [sep] (w :: w' :: parts)) with (w ++ sep :: join [sep] (w' :: parts)).
  rewrite split_on_app, split_on_whole, IH by done. done.
Qed.

(** X4. The handle taken from an identifier is made of its last two
    ['/']-separated segments (of its only segment when there is no
    ['/']): it has at most two segments, an identifier without ['/'] or
    with a single one is its own handle, and taking the handle of a handle
    changes nothing. *)
Theorem handle_of_identifier_segments (identifier : str) :
  let segments := split_on slash identifier in
  split_on slash (handle_of_identifier identifier)
  = drop (length segments - 2) segments
  ∧ 0 < length (split_on slash (handle_of_identifier identifier)) <= 2
  ∧ (length segments <= 2 → handle_of_identifier identifier = identifier)
  ∧ handle_of_identifier (handle_of_identifier identifier)
    = handle_of_identifier identifier.
Proof.
  intros segments.
  pose proof (split_on_nonempty slash identifier) as Hne.
  pose proof (split_on_parts slash identifier) as Hparts.
  fold segments in Hne, Hparts.
  assert (split_on slash (handle_of_identifier identifier)
          = drop (length segments - 2) segments) as Hsplit.
  { unfold handle_of_identifier. fold segments. apply split_on_join.
    - intros Hnil. apply (f_equal length) in Hnil.
      rewrite length_drop in Hnil. destruct segments; [done|]. simpl in *. lia.
    - by apply Forall_drop. }
  assert (0 < length (drop (length segments - 2) segments) <= 2) as Hlen.
  { rewrite length_drop. destruct segments; [done|]. simpl. lia. }
  split; [done|]. split; [by rewrite Hsplit|]. split.
  - intros Hshort. unfold handle_of_identifier. fold segments.
    replace (length segments - 2) with 0 by lia. rewrite drop_0.
    apply join_split_on.
  - unfold handle_of_identifier at 1. rewrite Hsplit.
    replace (length (drop (length segments - 2) segments) - 2) with 0 by lia.
    by rewrite drop_0.
Qed.

(** ** The score lies between 0 and 1 *)

Lemma blocks_size_app x y : blocks_size (x ++ y) = blocks_size x + blocks_size y.
Proof. unfold blocks_size. by rewrite map_app, sum_list_with_app. Qed.

(** The blocks found share out the room of the spans they come from. *)
Lemma matching_loop_size a b b2j fuel queue found result :
  Forall span_ok queue →
  matching_loop fuel a b b2j queue found = Some result →
  blocks_size result ≤ blocks_size found + sum_list (map span_room queue).
Proof.
  revert queue found. induction fuel as [|fuel IH]; intros queue found Hok.
  - destruct queue as [|[[[alo ahi] blo] bhi] queue]; [|done].
    intros [= <-]. lia.
  - destruct queue as [|[[[alo ahi] blo] bhi] queue]; [intros [= <-]; lia|].
    inversion Hok as [|? ? Hq Hrest]; subst. cbn [matching_loop].
    pose proof (find_longest_match_bounds a b b2j alo ahi blo bhi Hq) as Hin.
    destruct (find_longest_match a b b2j alo ahi blo bhi) as [[i j] k].
    cbn [block_in] in Hin. cbn [map sum_list_with span_room id].
    destruct (Nat.ltb_spec 0 k).
    + intros Hres. apply IH in Hres.
      * rewrite blocks_size_app in Hres. unfold blocks_size at 3 in Hres.
        cbn [map sum_list_with snd id] in Hres.
        destruct (Nat.ltb_spec (i + k) ahi), (Nat.ltb_spec (j + k) bhi),
          (Nat.ltb_spec alo i), (Nat.ltb_spec blo j); cbn [andb] in Hres;
          cbn [map sum_list_with span_room id] in Hres; lia.
      * destruct (Nat.ltb_spec (i + k) ahi), (Nat.ltb_spec (j + k) bhi),
          (Nat.ltb_spec alo i), (Nat.ltb_spec blo j); cbn [andb];
          repeat constructor; try done; cbn; lia.
    + intros Hres. apply IH in Hres; [lia|done].
Qed.

Lemma collapse_size i1 j1 k1 blocks :
  blocks_size (collapse i1 j1 k1 blocks) = k1 + blocks_size blocks.
Proof.
  revert i1 j1 k1. induction blocks as [|[[i2 j2] k2] blocks IH];
    intros i1 j1 k1; cbn [collapse].
  - destruct (Nat.ltb_spec 0 k1); cbn; lia.
  - destruct (_ && _).
    + rewrite IH. unfold blocks_size. cbn. lia.
    + rewrite blocks_size_app, IH.
      destruct (Nat.ltb_spec 0 k1); unfold blocks_size; cbn; lia.
Qed.

Lemma get_matching_blocks_size a b :
  blocks_size (get_matching_blocks a b) ≤ length a `min` length b.
Proof.
  unfold get_matching_blocks. rewrite blocks_size_app, collapse_size.
  unfold blocks_size at 1 2. rewrite merge_sort_Permutation.
  cbn [map sum_list_with snd id]. fold (blocks_size []).
  destruct (matching_loop _ a b _ _ _) as [found|] eqn:Hloop; cbn [default id].
  - apply matching_loop_size in Hloop; [|repeat constructor; lia].
    unfold blocks_size in *. cbn in Hloop. cbn. lia.
  - cbn. lia.
Qed.

Lemma ratio_bounds a b : (0 <= ratio a b <= 1)%Q.
Proof.
  unfold ratio. fold (blocks_size (get_matching_blocks a b)).
  pose proof (get_matching_blocks_size a b) as Hsize.
  set (matches := blocks_size _) in *. unfold calculate_ratio.
  destruct (Nat.ltb_spec 0 (length a + length b)) as [Hpos|]; [|done].
  assert (0 < inject_Z (Z.of_nat (length a + length b)))%Q as Hq.
  { change 0%Q with (inject_Z 0). rewrite <- Zlt_Qlt. lia. }
  change 2%Q with (inject_Z 2). rewrite <- inject_Z_mult. split.
  - apply Qle_shift_div_l; [done|]. rewrite Qmult_0_l.
    change 0%Q with (inject_Z 0). rewrite <- Zle_Qle. lia.
  - apply Qle_shift_div_r; [done|]. rewrite Qmult_1_l.
    rewrite <- Zle_Qle. lia.
Qed.

(** X5. The similarity score of any two texts lies between 0 and 1: the
    matching blocks never cover more than the shorter normalised text. *)
Theorem similarity_bounds (text1 text2 : str) :
  (0 <= _similarity_score text1 text2 <= 1)%Q.
Proof. apply ratio_bounds. Qed.

(** ** A creator of whitespace only *)

Lemma creator_scores_blank last_name creators :
  existsb (fun c => match split_ws c with [] => true | _ => false end) creators
  = true →
  creator_scores last_name creators = Raise IndexError.
Proof.
  induction creators as [|c creators IH]; [done|]. cbn [existsb creator_scores].
  destruct (split_ws c) as [|w ws]; [done|]. cbn [orb].
  intros H. by rewrite IH.
Qed.

Lemma creator_scores_raises last_name creators e :
  creator_scores last_name creators = Raise e → e = IndexError.
Proof.
  induction creators as [|c creators IH]; [done|]. cbn [creator_scores].
  destruct (split_ws c) as [|w ws]; [by intros [= <-]|].
  destruct (creator_scores last_name creators); [done|].
  intros [= <-]. by apply IH.
Qed.

Lemma score_record_raises title last_name st record e :
  score_record title last_name st record = Raise e → e = IndexError.
Proof.
  unfold score_record. destruct st as [best_match best_score].
  destruct (rec_metadata record) as [metadata|]; [|done].
  destruct (creator_scores _ _) as [cs|x] eqn:Hcs.
  - repeat case_match; done.
  - intros [= <-]. by eapply creator_scores_raises.
Qed.

Lemma scan_records_blank title last_name st records :
  existsb blank_creator records = true →
  scan_records title last_name st records = Raise IndexError.
Proof.
  revert st. induction records as [|record records IH]; intros st; [done|].
  cbn [existsb scan_records].
  destruct (score_record title last_name st record) as [st'|e] eqn:Hstep.
  - destruct (blank_creator record) eqn:Hblank.
    + unfold blank_creator in Hblank. unfold score_record in Hstep.
      destruct st as [best_match best_score].
      destruct (rec_metadata record) as [metadata|]; [|done].
      by rewrite creator_scores_blank in Hstep.
    + cbn [orb]. apply IH.
  - intros _. f_equal. by eapply score_record_raises.
Qed.

(** X6. A record whose creator text is made of whitespace only ends the
    strategy with an [IndexError]: the scan of its batch raises whatever
    the other records are (also when one of them is an exact match), one
    request was sent, and the answers left on the network are untouched. *)
Theorem blank_creator_ends_strategy (title last_name : str) (s : strategy)
    (r : response) (p : page) (rest : network) (w : world) :
  status_ok r = true →
  as_xml r = Some p →
  existsb blank_creator (records p) = true →
  Qle_bool (clock w (S (reads w)) - clock w (reads w)) 60 = true →
  ∃ w',
    run_strategy title last_name s (Reply r :: rest) w
    = (Raised IndexError, rest, w')
    ∧ sent w' = sent w ++ [first_request s]
    ∧ log w' = log w.
Proof.
  intros Hok Hxml Hblank Htime. unfold run_strategy. cbn [requests_get].
  unfold raise_for_status. rewrite Hok.
  cbn [time_time record_request clock reads]. rewrite paginate_eq.
  cbn [time_time record_request clock reads]. unfold Qltb.
  rewrite Htime, Hxml, scan_records_blank by done. by eexists.
Qed.

(** ** Any number of continuation tokens *)

Lemma feed_chain_ok title last_name resp steps :
  feed_chain title last_name resp steps = true → status_ok resp = true.
Proof.
  destruct steps as [|[token next] steps]; cbn [feed_chain];
    unfold ends_feed, continues_with.
  - by intros [? _]%andb_true_iff.
  - by intros [[? _]%andb_true_iff _]%andb_true_iff.
Qed.

Lemma readings_shift (w w1 : world) start_time n :
  clock w1 = clock w → reads w1 = S (reads w) →
  forallb (fun k => Qle_bool (clock w (reads w + k) - start_time) 60) (seq 1 n)
  = true →
  readings_within w1 start_time n = true.
Proof.
  intros Hclock Hreads Hlater. unfold readings_within.
  apply forallb_forall. intros k Hk%in_seq.
  rewrite forallb_forall in Hlater. specialize (Hlater (S k)).
  rewrite Hclock, Hreads. replace (S (reads w) + k) with (reads w + S k) by lia.
  apply Hlater, in_seq. lia.
Qed.

Lemma paginate_chain title last_name s start_time resp steps rest w :
  feed_chain title last_name resp steps = true →
  readings_within w start_time (S (length steps)) = true →
  ∃ w',
    paginate title last_name s start_time resp
      (map (fun step => Reply step.2) steps ++ rest) w
    = (Finished, rest, w')
    ∧ sent w' = sent w ++ map (fun step => next_request step.1) steps
    ∧ log w' = log w.
Proof.
  revert resp w. induction steps as [|[token next] steps IH];
    intros resp w Hchain Htime; cbn [feed_chain] in Hchain;
    unfold readings_within in Htime; rewrite <- cons_seq in Htime;
    cbn [forallb] in Htime;
    apply andb_true_iff in Htime as [Hnow Hlater];
    rewrite Nat.add_0_r in Hnow.
  - cbn [map app]. rewrite paginate_end by done.
    eexists. split; [done|]. cbn [time_time snd sent log]. by rewrite app_nil_r.
  - apply andb_true_iff in Hchain as [Hresp Hnext]. cbn [map app snd fst].
    rewrite (paginate_continue _ _ _ _ resp token) by done.
    rewrite (feed_chain_ok _ _ _ _ Hnext).
    destruct (IH next (record_request (next_request token) (time_time w).2))
      as (w' & Hrun & Hsent & Hlog);
      [done|by apply (readings_shift w _ start_time (S (length steps)))|].
    exists w'. split; [done|]. rewrite Hsent, Hlog.
    cbn [time_time snd record_request sent log]. by rewrite <- List.app_assoc.
Qed.

(** X7. With any number [n] of answers that carry a continuation token,
    followed by one without, no match and the clock within the budget, a
    strategy sends exactly [n + 1] requests, the first one and one for
    each token in order, takes exactly these answers from the network, and
    ends without a handle. *)
Theorem requests_follow_tokens (title last_name : str) (s : strategy)
    (first : response) (steps : list (str * response)) (rest : network)
    (w : world) :
  feed_chain title last_name first steps = true →
  within_budget w (S (length steps)) = true →
  ∃ w',
    run_strategy title last_name s
      (Reply first :: map (fun step => Reply step.2) steps ++ rest) w
    = (Finished, rest, w')
    ∧ sent w'
      = sent w ++ first_request s :: map (fun step => next_request step.1) steps
    ∧ length (sent w') = length (sent w) + S (length steps).
Proof.
  intros Hchain Hbudget. unfold run_strategy. cbn [requests_get].
  unfold raise_for_status. rewrite (feed_chain_ok _ _ _ _ Hchain).
  cbn [time_time record_request clock reads].
  edestruct (paginate_chain title last_name s (clock w (reads w)) first steps rest)
    as (w' & -> & Hsent & _); [done| |].
  - by apply (readings_shift w _ _ (S (length steps))).
  - exists w'. split; [done|]. rewrite Hsent. cbn [sent record_request].
    rewrite <- List.app_assoc. split; [done|].
    rewrite length_app. cbn [length app]. by rewrite length_map.
Qed.

(** ** The shape of a discovered handle *)

Lemma handle_of_identifier_shape identifier :
  identifier ≠ [] →
  handle_of_identifier identifier ≠ []
  ∧ length (split_on slash (handle_of_identifier identifier)) <= 2.
Proof.
  intros Hne. set (segments := split_on slash identifier).
  pose proof (split_on_nonempty slash identifier) as Hsegs.
  pose proof (split_on_parts slash identifier) as Hparts.
  pose proof (join_split_on slash identifier) as Hjoin.
  fold segments in Hsegs, Hparts, Hjoin.
  assert (split_on slash (handle_of_identifier identifier)
          = drop (length segments - 2) segments) as Hsplit.
  { unfold handle_of_identifier. fold segments. apply split_on_join.
    - intros Hnil. apply (f_equal length) in Hnil.
      rewrite length_drop in Hnil. destruct segments; [done|]. simpl in *. lia.
    - by apply Forall_drop. }
  split.
  - intros Hempty. rewrite Hempty in Hsplit. cbn [split_on] in Hsplit.
    destruct segments as [|s1 [|s2 segments]]; [done|..].
    + cbn in Hsplit. injection Hsplit as <-. by cbn in Hjoin.
    + apply (f_equal length) in Hsplit. rewrite length_drop in Hsplit.
      cbn in Hsplit. lia.
  - rewrite Hsplit, length_drop. lia.
Qed.

Lemma paginate_returned_handle title last_name s start_time resp net w h net' w' :
  paginate title last_name s start_time resp net w = (Returned h, net', w') →
  ∃ identifier, identifier ≠ [] ∧ h = handle_of_identifier identifier.
Proof.
  revert resp w. induction net as [|rep net IH]; intros resp w;
    rewrite paginate_eq; cbn [time_time requests_get];
    unfold raise_for_status; repeat case_match; intros Hp; simplify_eq;
    try (by eexists (_ :: _)).
  all: by eapply IH.
Qed.

(** X8. A handle that [discover_handle] returns is never empty and has
    at most two ['/']-separated segments. *)
Theorem discovered_handle_shape (author title : str) (net : network)
    (w : world) (h : str) (net' : network) (w' : world) :
  discover_handle author title net w = (Val (Some h), net', w') →
  h ≠ [] ∧ length (split_on slash h) <= 2.
Proof.
  unfold discover_handle. generalize (logger (InfoSearching title author
    (last_name_of author)) w). generalize search_strategies.
  intros strategies. revert net.
  induction strategies as [|s strategies IH]; intros net w0;
    cbn [try_strategies]; [done|].
  destruct (run_strategy title (last_name_of author) s net w0)
    as [[[h0| |e] net1] w1] eqn:Hrun; [|apply IH..].
  intros [= <- <- <-]. unfold run_strategy in Hrun.
  destruct (requests_get _ net w0) as [[[resp|x] net2] w2]; [|done].
  destruct (raise_for_status resp); [|done]. cbn [time_time] in Hrun.
  apply paginate_returned_handle in Hrun as (identifier & Hne & ->).
  by apply handle_of_identifier_shape.
Qed.

(** ** What the resolver and the fetcher leave alone *)

Lemma frame_refl allowed net w : frame allowed net w net w.
Proof.
  unfold frame. split_and!; try done.
  exists [], [], []. by rewrite !app_nil_r.
Qed.

Lemma frame_trans allowed net1 w1 net2 w2 net3 w3 :
  frame allowed net1 w1 net2 w2 → frame allowed net2 w2 net3 w3 →
  frame allowed net1 w1 net3 w3.
Proof.
  intros (Hf1 & Hm1 & Hc1 & Hy1 & Hi1 & Hr1 & u1 & q1 & e1
          & -> & Hs1 & Hl1 & Hn1 & Ha1)
         (Hf2 & Hm2 & Hc2 & Hy2 & Hi2 & Hr2 & u2 & q2 & e2
          & -> & Hs2 & Hl2 & Hn2 & Ha2).
  unfold frame. split_and!; try congruence; [lia|].
  exists (u1 ++ u2), (q1 ++ q2), (e1 ++ e2).
  rewrite Hs2, Hs1, Hl2, Hl1, <- !List.app_assoc, !length_app.
  split_and!; try done; [lia|by apply Forall_app].
Qed.

Lemma frame_logger allowed ev net w : frame allowed net w net (logger ev w).
Proof.
  unfold frame. cbn. split_and!; try done.
  exists [], [], [ev]. by rewrite !app_nil_r.
Qed.

Lemma frame_time allowed net w : frame allowed net w net (time_time w).2.
Proof.
  unfold frame. cbn. split_and!; try done; [lia|].
  exists [], [], []. by rewrite !app_nil_r.
Qed.

Lemma frame_request (allowed : request → Prop) rq net w r net' w' :
  allowed rq → requests_get rq net w = (r, net', w') →
  frame allowed net w net' w'.
Proof.
  intros Hrq. destruct net as [|[|resp] net]; intros [= <- <- <-];
    unfold frame; cbn; (split_and!; try done);
    [exists [], [rq], []|exists [NoReply], [rq], []|exists [Reply resp], [rq], []];
    rewrite ?app_nil_r; split_and!; try done; cbn; try lia;
    by repeat constructor.
Qed.

Lemma requests_get_val rq net w r net' w' :
  requests_get rq net w = (Val r, net', w') → net = Reply r :: net'.
Proof. destruct net as [|[|resp] net]; cbn [requests_get]; congruence. Qed.

Lemma paginate_frame title last_name s start_time resp net w e net' w' :
  paginate title last_name s start_time resp net w = (e, net', w') →
  frame to_feed net w net' w'.
Proof.
  remember (length net) as n eqn:Hn. revert resp net w Hn.
  induction n as [n IH] using lt_wf_ind. intros resp net w ->.
  rewrite paginate_eq.
  destruct (time_time w) as [t w1] eqn:Htime.
  assert (frame to_feed net w net w1) as Hw1
    by (replace w1 with (time_time w).2 by (by rewrite Htime);
        apply frame_time).
  destruct (Qltb 60 _);
    [intros [= <- <- <-]; eapply frame_trans; [exact Hw1|apply frame_logger]|].
  destruct (as_xml resp) as [root|]; [|by intros [= <- <- <-]].
  destruct (scan_records _ _ _ _) as [[best_match best_score]|x];
    [|by intros [= <- <- <-]].
  assert (∀ token,
         match requests_get (next_request token) net w1 with
         | (Raise e0, net'0, w0) => (Raised e0, net'0, w0)
         | (Val r, net'0, w0) =>
             match raise_for_status r with
             | Val _ => paginate title last_name s start_time r net'0 w0
             | Raise e0 => (Raised e0, net'0, w0)
             end
         end = (e, net', w') → frame to_feed net w net' w') as Hnext.
  { intros token.
    destruct (requests_get (next_request token) net w1)
      as [[[r|x] net2] w2] eqn:Hget.
    - assert (frame to_feed net w net2 w2) as Hw2
        by (eapply frame_trans;
              [exact Hw1
              |eapply (frame_request to_feed (next_request token)); [reflexivity|exact Hget]]).
      destruct (raise_for_status r); [|by intros [= <- <- <-]].
      apply requests_get_val in Hget as ->. intros Hp.
      eapply frame_trans; [exact Hw2|].
      eapply (IH (length net2)); [cbn; lia|done|exact Hp].
    - intros [= <- <- <-]. eapply frame_trans; [exact Hw1|].
      eapply (frame_request to_feed (next_request token)); [reflexivity|exact Hget]. }
  destruct best_match as [[|c identifier]|];
    [|intros [= <- <- <-]; eapply frame_trans; [exact Hw1|apply frame_logger]|];
    (destruct (resumptionToken root) as [[[|c' token]|]|];
       try (by intros [= <- <- <-]); apply Hnext).
Qed.

Lemma run_strategy_frame title last_name s net w e net' w' :
  run_strategy title last_name s net w = (e, net', w') →
  frame to_feed net w net' w'.
Proof.
  unfold run_strategy.
  destruct (requests_get (first_request s) net w) as [[[resp|x] net1] w1] eqn:Hget.
  - apply (frame_request to_feed) in Hget; [|done].
    destruct (raise_for_status resp); [|by intros [= <- <- <-]].
    destruct (time_time w1) as [t w2] eqn:Htime. intros Hp%paginate_frame.
    eapply frame_trans; [exact Hget|]. eapply frame_trans; [|exact Hp].
    replace w2 with (time_time w1).2 by (by rewrite Htime). apply frame_time.
  - apply (frame_request to_feed) in Hget; [|done]. by intros [= <- <- <-].
Qed.

Lemma try_strategies_frame title author last_name strategies net w r net' w' :
  try_strategies title author last_name strategies net w = (r, net', w') →
  frame to_feed net w net' w'.
Proof.
  revert net w. induction strategies as [|s strategies IH]; intros net w;
    cbn [try_strategies].
  - intros [= <- <- <-]. apply frame_logger.
  - destruct (run_strategy title last_name s net w) as [[[h| |x] net1] w1] eqn:Hrun;
      apply run_strategy_frame in Hrun.
    + by intros [= <- <- <-].
    + intros Hrest%IH. by eapply frame_trans.
    + intros Hrest%IH. eapply frame_trans; [exact Hrun|].
      eapply frame_trans; [apply frame_logger|exact Hrest].
Qed.

Lemma discover_handle_frame author title net w r net' w' :
  discover_handle author title net w = (r, net', w') →
  frame to_feed net w net' w'.
Proof.
  unfold discover_handle. intros Hrun%try_strategies_frame.
  eapply frame_trans; [apply frame_logger|exact Hrun].
Qed.

(** X9. [discover_handle] only talks to the feed: it leaves the files,
    the stored metadata and the date as they were, sends requests to the
    feed address only, takes the answers it uses from the front of the
    network, one request at least for each, and only adds to the log. *)
Theorem resolver_only_asks_feed (author title : str) (net : network)
    (w : world) :
  let '(_, net', w') := discover_handle author title net w in
  files w' = files w
  ∧ metadata_store w' = metadata_store w
  ∧ now_year w' = now_year w
  ∧ ∃ used requests events,
      net = used ++ net'
      ∧ sent w' = sent w ++ requests
      ∧ log w' = log w ++ events
      ∧ length used ≤ length requests
      ∧ Forall (fun rq => url rq = oai_url) requests.
Proof.
  destruct (discover_handle author title net w) as [[r net'] w'] eqn:Hrun.
  apply discover_handle_frame in Hrun
    as (? & ? & _ & ? & _ & _ & Hrest). done.
Qed.

Lemma fetch_body_frame handle net w result net' w' :
  fetch_body handle net w = (result, net', w') →
  frame (about handle) net w net' w'.
Proof.
  unfold fetch_body.
  destruct (requests_get (rest_request handle) net w)
    as [[[resp|x] net1] w1] eqn:Hget1;
    apply (frame_request (about handle)) in Hget1; try (by left);
    [|by intros [= <- <- <-]].
  destruct (if status_ok resp then _ else _) as [metadata_dict|x];
    [|by intros [= <- <- <-]].
  destruct (requests_get (html_request handle) net1 w1)
    as [[[html|x] net2] w2] eqn:Hget2;
    apply (frame_request (about handle)) in Hget2; try (by right);
    [|intros [= <- <- <-]; by eapply frame_trans].
  destruct (status_ok html);
    [destruct (as_html html) as [soup|];
       [destruct (build_metadata _ _ _ _)|]|];
    intros [= <- <- <-]; by eapply frame_trans.
Qed.

Lemma get_thesis_metadata_frame handle net w r net' w' :
  get_thesis_metadata handle net w = (r, net', w') →
  frame (about handle) net w net' w'.
Proof.
  unfold get_thesis_metadata.
  destruct (fetch_body handle net w) as [[[found|x] net0] w0] eqn:Hrun;
    apply fetch_body_frame in Hrun; intros [= <- <- <-]; [done|].
  eapply frame_trans; [exact Hrun|apply frame_logger].
Qed.

(** X10. [get_thesis_metadata] asks the detail endpoint first and the
    document view second, and nothing else: one or two requests, in this
    order, each answer taken from the front of the network. It reads no
    clock, touches no file and no stored metadata, and logs at most one
    event, an error, with which it returns nothing. *)
Theorem fetcher_asks_detail_then_view (handle : str) (net : network)
    (w : world) :
  let '(r, net', w') := get_thesis_metadata handle net w in
  files w' = files w ∧ metadata_store w' = metadata_store w
  ∧ reads w' = reads w
  ∧ (sent w' = sent w ++ [rest_request handle] ∧ r = Val None
     ∨ sent w' = sent w ++ [rest_request handle; html_request handle])
  ∧ (∃ used, net = used ++ net'
             ∧ length used ≤ length (sent w') - length (sent w))
  ∧ (log w' = log w
     ∨ ∃ e, r = Val None ∧ log w' = log w ++ [ErrorMetadata e]).
Proof.
  assert (sent w ++ [rest_request handle] ++ [html_request handle]
          = sent w ++ [rest_request handle; html_request handle]) as Hsent
    by done.
  unfold get_thesis_metadata, fetch_body.
  destruct net as [|[|r1] net1]; cbn [requests_get];
    [| |destruct (if status_ok r1 then _ else _) as [metadata_dict|e];
        [destruct net1 as [|[|r2] net2]; cbn [requests_get];
           [| |destruct (status_ok r2);
                 [destruct (as_html r2) as [soup|];
                    [destruct (build_metadata _ _ _ _)|]|]]|]].
  all: cbn; rewrite <- ?List.app_assoc, ?Hsent, !length_app; cbn;
    split_and!; try done;
    try (by left); try (by right); try (right; by eexists);
    first [ by (exists []; split; [|cbn; lia])
          | by (eexists [_]; split; [|cbn; lia])
          | by (eexists [_; _]; split; [|cbn; lia]) ].
Qed.

(** X11. When the detail endpoint answers with success but its body is
    not a JSON object, the fetch ends there: it returns nothing and logs
    one error; the document view is not requested and the coming answers
    stay unused. *)
Theorem broken_detail_stops_fetch (handle : str) (r1 : response)
    (rest : network) (w : world) :
  status_ok r1 = true →
  (∀ data, as_json r1 ≠ Some (JDict data)) →
  ∃ e w',
    get_thesis_metadata handle (Reply r1 :: rest) w = (Val None, rest, w')
    ∧ sent w' = sent w ++ [rest_request handle]
    ∧ log w' = log w ++ [ErrorMetadata e].
Proof.
  intros Hok Hbody. unfold get_thesis_metadata, fetch_body.
  cbn [requests_get]. rewrite Hok. unfold rest_metadata.
  destruct (as_json r1) as [[| | | | |data]|] eqn:Hjson;
    try (by eexists _, _); by destruct (Hbody data).
Qed.

Lemma key_differs (k1 k2 : str) :
  bool_decide (k1 = k2) = false → k1 ≠ k2.
Proof. by intros ?%bool_decide_eq_false. Qed.

Lemma table_step_keeps metadata_dict row key v :
  key ∈ guarded_keys → metadata_dict !! key = Some v → py_truthy v = true →
  table_step metadata_dict row !! key = Some v.
Proof.
  intros Hkey Hd Hv.
  assert (missing metadata_dict key = false) as Hmiss
    by (unfold missing; by rewrite Hd, Hv).
  unfold table_step.
  destruct (label_cell row) as [label|], (word_break_cell row) as [value_text|];
    try done.
  cbv zeta. unfold guarded_keys in Hkey.
  rewrite !elem_of_cons, elem_of_nil in Hkey.
  destruct_or!; try (by exfalso); subst key; rewrite Hmiss, ?andb_false_r;
    repeat case_match;
    rewrite ?lookup_insert_ne by (by apply key_differs); done.
Qed.

Lemma header_step_keeps soup metadata_dict key v :
  key ∈ guarded_keys → metadata_dict !! key = Some v → py_truthy v = true →
  header_step soup metadata_dict !! key = Some v.
Proof.
  intros Hkey Hd Hv.
  assert (missing metadata_dict key = false) as Hmiss
    by (unfold missing; by rewrite Hd, Hv).
  unfold header_step, guarded_keys in *.
  rewrite !elem_of_cons, elem_of_nil in Hkey.
  destruct_or!; try (by exfalso); subst key; rewrite ?Hmiss;
    repeat case_match;
    rewrite ?lookup_insert_ne by (by apply key_differs); done.
Qed.

Lemma meta_step_keeps metadata_dict meta key v :
  key ∈ guarded_keys → metadata_dict !! key = Some v → py_truthy v = true →
  meta_step metadata_dict meta !! key = Some v.
Proof.
  intros Hkey Hd Hv.
  assert (missing metadata_dict key = false) as Hmiss
    by (unfold missing; by rewrite Hd, Hv).
  unfold meta_step. destruct meta as [name content].
  destruct (truthy name && truthy content); [|done].
  cbv zeta. unfold guarded_keys in Hkey.
  rewrite !elem_of_cons, elem_of_nil in Hkey.
  destruct_or!; try (by exfalso); subst key; rewrite ?Hmiss, ?andb_false_r;
    repeat case_match;
    rewrite ?lookup_insert_ne by (by apply key_differs); done.
Qed.

Lemma table_steps_keep rows metadata_dict key v :
  key ∈ guarded_keys → metadata_dict !! key = Some v → py_truthy v = true →
  foldl table_step metadata_dict rows !! key = Some v.
Proof.
  intros Hkey. revert metadata_dict.
  induction rows as [|row rows IH]; intros metadata_dict Hd Hv; [done|].
  cbn [foldl]. apply IH; [|done]. by apply table_step_keeps.
Qed.

Lemma meta_steps_keep metas metadata_dict key v :
  key ∈ guarded_keys → metadata_dict !! key = Some v → py_truthy v = true →
  foldl meta_step metadata_dict metas !! key = Some v.
Proof.
  intros Hkey. revert metadata_dict.
  induction metas as [|meta metas IH]; intros metadata_dict Hd Hv; [done|].
  cbn [foldl]. apply IH; [|done]. by apply meta_step_keeps.
Qed.

(** The dictionary after the three passes over the document view. *)
Lemma view_steps_keep soup metadata_dict key v :
  key ∈ guarded_keys → metadata_dict !! key = Some v → py_truthy v = true →
  foldl meta_step
    (header_step soup
       match metadata_table soup with
       | Some rows => foldl table_step metadata_dict rows
       | None => metadata_dict
       end) (meta_tags soup) !! key = Some v.
Proof.
  intros Hkey Hd Hv. apply meta_steps_keep; [done| |done].
  apply header_step_keeps; [done| |done].
  destruct (metadata_table soup); [|done]. by apply table_steps_keep.
Qed.

Lemma rest_entries_truthy items metadata_dict metadata_dict' :
  map_Forall (fun _ v => py_truthy v = true) metadata_dict →
  rest_entries metadata_dict items = Val metadata_dict' →
  map_Forall (fun _ v => py_truthy v = true) metadata_dict'.
Proof.
  revert metadata_dict.
  induction items as [|[key value] items IH]; intros metadata_dict Hd;
    cbn [rest_entries]; [by intros [= <-]|].
  destruct (rest_entry metadata_dict (key, value)) as [d1|e] eqn:Hentry;
    [|done].
  apply IH. unfold rest_entry in Hentry.
  repeat case_match; simplify_eq; try done.
  by apply map_Forall_insert_2.
Qed.

Lemma rest_metadata_truthy resp metadata_dict :
  rest_metadata resp ∅ = Val metadata_dict →
  map_Forall (fun _ v => py_truthy v = true) metadata_dict.
Proof.
  unfold rest_metadata. repeat case_match; try done.
  apply rest_entries_truthy, map_Forall_empty.
Qed.

(** X12. What the detail endpoint gave is never replaced by the document
    view: for the title, author, type, supervisor, department and
    language the built record carries the value of the detail endpoint
    whenever it gave one for the key, whatever the table, the header and
    the meta tags of the page hold, and its year is the first four
    elements of the issue date the detail endpoint gave. *)
Theorem detail_values_win (resp : response) (metadata_dict : gmap str jvalue)
    (handle : str) (soup : html_doc) (timestamp : str)
    (metadata : ThesisMetadata) :
  rest_metadata resp ∅ = Val metadata_dict →
  build_metadata handle metadata_dict soup timestamp = Val metadata →
  ∀ v,
    (metadata_dict !! lit "dc.title" = Some v → md_title metadata = v)
    ∧ (metadata_dict !! lit "dc.contributor.author" = Some v →
       md_author metadata = v)
    ∧ (metadata_dict !! lit "dc.type" = Some v → md_type metadata = v)
    ∧ (metadata_dict !! lit "dc.contributor.advisor" = Some v →
       md_supervisor metadata = v)
    ∧ (metadata_dict !! lit "dc.publisher" = Some v →
       md_department metadata = v)
    ∧ (metadata_dict !! lit "dc.language.iso" = Some v →
       md_language metadata = v)
    ∧ (metadata_dict !! lit "dc.date.issued" = Some v →
       first_four v = Val (md_year metadata)).
Proof.
  intros Htruthy%rest_metadata_truthy Hbuild v.
  assert (∀ key, key ∈ guarded_keys → metadata_dict !! key = Some v →
            foldl meta_step
              (header_step soup
                 match metadata_table soup with
                 | Some rows => foldl table_step metadata_dict rows
                 | None => metadata_dict
                 end) (meta_tags soup) !! key = Some v) as Hkeep.
  { intros key Hkey Hd. apply view_steps_keep; [done..|].
    by apply (Htruthy key v). }
  unfold build_metadata in Hbuild. cbv zeta in Hbuild.
  destruct (foldl abstract_step _ _) as [abstract abstract_en].
  unfold guarded_keys in Hkeep.
  split_and!; intros Hd; pose proof (Htruthy _ _ Hd) as Hv;
    cbn beta in Hv; (eapply Hkeep in Hd; [|by repeat constructor]);
    unfold missing, get_or in Hbuild; rewrite ?Hd, ?Hv in Hbuild;
    cbn [negb default] in Hbuild; repeat case_match; simplify_eq; cbn;
    unfold get_or; by rewrite ?Hd.
Qed.

(** ** The issue date and the year *)

Lemma date_unsliceable_other key x metadata_dict :
  key ≠ lit "dc.date.issued" →
  date_unsliceable (<[key := x]> metadata_dict) = date_unsliceable metadata_dict.
Proof. intros Hkey. unfold date_unsliceable. by rewrite lookup_insert_ne. Qed.

Lemma date_unsliceable_text s metadata_dict :
  missing metadata_dict (lit "dc.date.issued") = true →
  date_unsliceable (<[lit "dc.date.issued" := JStr s]> metadata_dict)
  = date_unsliceable metadata_dict.
Proof.
  unfold date_unsliceable, missing. rewrite lookup_insert_eq.
  destruct (metadata_dict !! lit "dc.date.issued") as [v|];
    unfold unsliceable; [|by rewrite andb_false_r].
  intros ->%negb_true_iff. by rewrite andb_false_r.
Qed.

Ltac date_cases :=
  repeat match goal with
         | |- context [if ?c then _ else _] => destruct c eqn:?
         end;
  try done;
  first [ apply date_unsliceable_other; by apply key_differs
        | apply date_unsliceable_text;
          match goal with
          | H : (_ && missing _ _) = true |- _ =>
              by apply andb_true_iff in H as [_ H]
          | H : missing _ _ = true |- _ => exact H
          end ].

Lemma table_step_date metadata_dict row :
  date_unsliceable (table_step metadata_dict row)
  = date_unsliceable metadata_dict.
Proof.
  unfold table_step.
  destruct (label_cell row) as [label|], (word_break_cell row) as [value_text|];
    try done.
  cbv zeta. date_cases.
Qed.

Lemma header_step_date soup metadata_dict :
  date_unsliceable (header_step soup metadata_dict)
  = date_unsliceable metadata_dict.
Proof.
  unfold header_step. destruct (page_header soup); date_cases.
Qed.

Lemma meta_step_date metadata_dict meta :
  date_unsliceable (meta_step metadata_dict meta)
  = date_unsliceable metadata_dict.
Proof. unfold meta_step. destruct meta as [name content]. cbv zeta. date_cases. Qed.

Lemma view_steps_date soup metadata_dict :
  date_unsliceable
    (foldl meta_step
       (header_step soup
          match metadata_table soup with
          | Some rows => foldl table_step metadata_dict rows
          | None => metadata_dict
          end) (meta_tags soup))
  = date_unsliceable metadata_dict.
Proof.
  assert (∀ metas d, date_unsliceable (foldl meta_step d metas)
                     = date_unsliceable d) as Hmetas.
  { induction metas as [|meta metas IH]; intros d; [done|].
    cbn [foldl]. by rewrite IH, meta_step_date. }
  assert (∀ rows d, date_unsliceable (foldl table_step d rows)
                    = date_unsliceable d) as Hrows.
  { induction rows as [|row rows IH]; intros d; [done|].
    cbn [foldl]. by rewrite IH, table_step_date. }
  rewrite Hmetas, header_step_date. destruct (metadata_table soup); [|done].
  apply Hrows.
Qed.

Lemma find_pdf_url_raises links e :
  find_pdf_url links = Raise e → e = ValueError.
Proof.
  induction links as [|href links IH]; cbn [find_pdf_url]; [done|].
  destruct (_ && _); [|done]. destruct (urljoin base_url href); [done|].
  by intros [= <-].
Qed.

(** The two exceptions of the builder: [urljoin] on the link to the
    document, and after it the slice of an issue date that is neither a
    string nor a list. *)
Lemma build_metadata_outcome handle metadata_dict soup timestamp :
  match find_pdf_url (hrefs soup) with
  | Raise e => build_metadata handle metadata_dict soup timestamp = Raise e
  | Val pdf_url =>
      if date_unsliceable metadata_dict
      then build_metadata handle metadata_dict soup timestamp = Raise TypeError
      else ∃ metadata,
             build_metadata handle metadata_dict soup timestamp = Val metadata
             ∧ md_handle metadata = handle
             ∧ md_pdf_url metadata = pdf_url
             ∧ md_last_updated metadata = timestamp
  end.
Proof.
  rewrite <- (view_steps_date soup metadata_dict).
  unfold build_metadata. cbv zeta.
  destruct (foldl abstract_step _ _) as [abstract abstract_en].
  destruct (find_pdf_url (hrefs soup)) as [pdf_url|e]; [|done].
  set (d' := foldl meta_step _ _).
  unfold date_unsliceable, missing, get_or, unsliceable.
  destruct (d' !! lit "dc.date.issued") as [[|[]|q|[|c s]|[|x l]|[|x kv]]|];
    cbn [py_truthy truthy negb default first_four andb];
    try destruct (Qeq_bool q 0);
    cbn [py_truthy truthy negb default first_four andb];
    first [reflexivity | by eexists].
Qed.

(** X13. An issue date from the detail endpoint that counts as present
    but is neither a string nor a list (a number, for one) costs the
    whole record: the fetch returns nothing, whatever the document view
    answers. With a successful document view the error it logs is the
    [TypeError] of the slice, unless the parser refused the page or
    [urljoin] raised on the link to the document before the slice was
    taken: then it is that exception. *)
Theorem unsliceable_date_loses_record (handle : str) (r1 : response)
    (metadata_dict : gmap str jvalue) (rest : network) (w : world) :
  status_ok r1 = true →
  rest_metadata r1 ∅ = Val metadata_dict →
  date_unsliceable metadata_dict = true →
  (∃ net' w',
     get_thesis_metadata handle (Reply r1 :: rest) w = (Val None, net', w'))
  ∧ (∀ r2 rest', rest = Reply r2 :: rest' → status_ok r2 = true →
       ∃ w', get_thesis_metadata handle (Reply r1 :: rest) w
             = (Val None, rest', w')
             ∧ log w' = log w ++ [ErrorMetadata (view_error r2)]).
Proof.
  intros Hok Hrest Hdate.
  assert (∀ soup ts, build_metadata handle metadata_dict soup ts
                     = Raise match find_pdf_url (hrefs soup) with
                             | Raise e => e
                             | Val _ => TypeError
                             end) as Hbuild.
  { intros soup ts.
    pose proof (build_metadata_outcome handle metadata_dict soup ts) as Hout.
    rewrite Hdate in Hout. by destruct (find_pdf_url (hrefs soup)). }
  unfold get_thesis_metadata, fetch_body. cbn [requests_get].
  rewrite Hok, Hrest. split.
  - destruct rest as [|[|r2] rest']; cbn [requests_get]; try (by eexists _, _).
    destruct (status_ok r2); [|by eexists _, _].
    destruct (as_html r2); rewrite ?Hbuild; by eexists _, _.
  - intros r2 rest' -> Hok2. cbn [requests_get]. rewrite Hok2.
    unfold view_error. destruct (as_html r2); rewrite ?Hbuild; by eexists.
Qed.

(** X14. When the detail endpoint answers with an error status, the
    document view alone decides. A successful view gives a record, for
    the handle asked and stamped with the current time, and nothing is
    logged, unless the parser refuses the page or [urljoin] raises on
    the link to the document: then nothing is returned and that
    exception is logged. When the request to the detail endpoint raises
    instead, the view is not asked and nothing is returned. *)
Theorem view_alone_gives_record (handle : str) (r1 r2 : response)
    (rest : network) (w : world) :
  status_ok r1 = false → status_ok r2 = true →
  match as_html r2 with
  | Some soup =>
      match find_pdf_url (hrefs soup) with
      | Val pdf_url =>
          ∃ metadata w',
            get_thesis_metadata handle (Reply r1 :: Reply r2 :: rest) w
            = (Val (Some metadata), rest, w')
            ∧ build_metadata handle ∅ soup (now_iso w) = Val metadata
            ∧ md_handle metadata = handle
            ∧ md_pdf_url metadata = pdf_url
            ∧ md_last_updated metadata = now_iso w
            ∧ log w' = log w
      | Raise e =>
          e = ValueError
          ∧ ∃ w',
              get_thesis_metadata handle (Reply r1 :: Reply r2 :: rest) w
              = (Val None, rest, w')
              ∧ log w' = log w ++ [ErrorMetadata ValueError]
      end
  | None =>
      ∃ w',
        get_thesis_metadata handle (Reply r1 :: Reply r2 :: rest) w
        = (Val None, rest, w')
        ∧ log w' = log w ++ [ErrorMetadata ParserRejectedMarkup]
  end
  ∧ (∃ w', get_thesis_metadata handle (NoReply :: Reply r2 :: rest) w
           = (Val None, Reply r2 :: rest, w')
           ∧ sent w' = sent w ++ [rest_request handle]).
Proof.
  intros Hfail Hok. split; [|by eexists].
  unfold get_thesis_metadata, fetch_body.
  cbn [requests_get]. rewrite Hfail, Hok. cbn [now_iso record_request].
  destruct (as_html r2) as [soup|]; [|by eexists].
  pose proof (build_metadata_outcome handle ∅ soup (now_iso w)) as Hout.
  destruct (find_pdf_url (hrefs soup)) as [pdf_url|e] eqn:Hpdf.
  - change (date_unsliceable ∅) with false in Hout.
    destruct Hout as (metadata & Hbuild & Hhandle & Hlink & Hstamp).
    exists metadata. eexists. rewrite Hbuild. by split_and!.
  - apply find_pdf_url_raises in Hpdf as ->. split; [done|].
    rewrite Hout. by eexists.
Qed.

(** ** The two abstracts *)

Lemma abstract_steps texts abstract abstract_en :
  Forall (fun text => truthy text = true) texts →
  foldl abstract_step (abstract, abstract_en) texts
  = (match abstract with
     | Some (_ :: _) => abstract
     | _ => match filter (fun text => english lower text = false) texts with
            | text :: _ => Some text
            | [] => abstract
            end
     end,
     match abstract_en with
     | Some (_ :: _) => abstract_en
     | _ => match filter (fun text => english lower text = true) texts with
            | text :: _ => Some text
            | [] => abstract_en
            end
     end).
Proof.
  intros Htexts. revert abstract abstract_en.
  induction Htexts as [|text texts Htext _ IH]; intros abstract abstract_en.
  - cbn. by destruct abstract as [[|]|], abstract_en as [[|]|].
  - cbn [foldl]. unfold abstract_step at 2.
    change (count_words czech_words text <? count_words english_words text)
      with (english lower text).
    rewrite !filter_cons.
    destruct text as [|c text]; [done|].
    destruct (english lower (c :: text)) eqn:Heng.
    + rewrite decide_False, decide_True by done.
      destruct abstract as [[|]|], abstract_en as [[|]|]; rewrite IH; done.
    + rewrite decide_True, decide_False by done.
      destruct abstract as [[|]|], abstract_en as [[|]|]; rewrite IH; done.
Qed.

(** X15. Of the text blocks of the document view, the record takes as
    English abstract the first non-empty one with more English than
    Czech marker words, and as abstract the first non-empty one among
    the others; later blocks of either kind are dropped, and a block
    with as many marker words of each language, none included, counts
    as the abstract. *)
Theorem abstracts_first_of_each_kind (handle : str)
    (metadata_dict : gmap str jvalue) (soup : html_doc) (timestamp : str)
    (metadata : ThesisMetadata) :
  build_metadata handle metadata_dict soup timestamp = Val metadata →
  md_abstract metadata
  = head (filter (fun text => truthy text = true ∧ english lower text = false)
            (abstract_texts soup))
  ∧ md_abstract_en metadata
    = head (filter (fun text => truthy text = true ∧ english lower text = true)
              (abstract_texts soup)).
Proof.
  unfold build_metadata. cbv zeta.
  rewrite abstract_steps by (apply list.Forall_forall; by intros text [? _]%list_elem_of_filter).
  rewrite !list_filter_filter.
  assert (∀ (b : bool) texts,
            match filter (fun text => english lower text = b
                                      ∧ truthy text = true) texts with
            | text :: _ => Some text
            | [] => None
            end
            = head (filter (fun text => truthy text = true
                                        ∧ english lower text = b) texts))
    as Hhead.
  { intros b texts. induction texts as [|text texts IH]; [done|].
    rewrite !filter_cons.
    destruct (decide (english lower text = b ∧ truthy text = true)) as [[]|Hno].
    - by rewrite decide_True.
    - rewrite decide_False; [done|]. intros []. by apply Hno. }
  rewrite !Hhead. repeat case_match; try done; by intros [= <-].
Qed.

(** ** The link to the document *)

(** Whether a link of the page is taken as the link to the document. *)
Lemma pdf_link_test href :
  contains (lit "/bitstream/handle/") href
  && endswith (lit "?sequence=-1&isAllowed=y") href
  && negb (existsb (fun x => contains x (lower href)) blocklist) = true
  ↔ contains (lit "/bitstream/handle/") href = true
    ∧ endswith (lit "?sequence=-1&isAllowed=y") href = true
    ∧ Forall (fun x => contains x (lower href) = false) blocklist.
Proof.
  rewrite !andb_true_iff, negb_true_iff, <- not_true_iff_false.
  rewrite existsb_exists, list.Forall_forall.
  split.
  - intros [[Hpath Hend] Hblock]. split_and!; [done..|].
    intros x Hx%list_elem_of_In.
    destruct (contains x (lower href)) eqn:Hc; [|done].
    destruct Hblock. eauto.
  - intros (Hpath & Hend & Hblock). split_and!; [done..|].
    intros (x & Hx%list_elem_of_In & Hc). by rewrite (Hblock x Hx) in Hc.
Qed.

(** X16. [find_pdf_url] decides on the first link of the page that
    points into a bitstream, ends with the sequence suffix and names no
    review or appendix: the link the record carries is [urljoin] of the
    base address and that link, the search raises [ValueError] exactly
    when [urljoin] raises on that link, and the record carries no link
    exactly when no link of the page passes. *)
Theorem pdf_link_first_allowed (links : list str) :
  match find_pdf_url links with
  | Val (Some pdf_url) =>
      ∃ before href after,
        links = before ++ href :: after
        ∧ urljoin base_url href = Some pdf_url
        ∧ contains (lit "/bitstream/handle/") href = true
        ∧ endswith (lit "?sequence=-1&isAllowed=y") href = true
        ∧ Forall (fun x => contains x (lower href) = false) blocklist
        ∧ find_pdf_url before = Val None
  | Raise e =>
      e = ValueError
      ∧ ∃ before href after,
          links = before ++ href :: after
          ∧ urljoin base_url href = None
          ∧ contains (lit "/bitstream/handle/") href = true
          ∧ endswith (lit "?sequence=-1&isAllowed=y") href = true
          ∧ Forall (fun x => contains x (lower href) = false) blocklist
          ∧ find_pdf_url before = Val None
  | Val None =>
      Forall (fun href =>
                contains (lit "/bitstream/handle/") href = false
                ∨ endswith (lit "?sequence=-1&isAllowed=y") href = false
                ∨ Exists (fun x => contains x (lower href) = true) blocklist)
             links
  end.
Proof.
  induction links as [|href links IH]; cbn [find_pdf_url]; [done|].
  destruct (contains (lit "/bitstream/handle/") href
            && endswith (lit "?sequence=-1&isAllowed=y") href
            && negb (existsb (fun x => contains x (lower href)) blocklist))
    eqn:Htest.
  - apply pdf_link_test in Htest as (Hpath & Hend & Hblock).
    destruct (urljoin base_url href) as [pdf_url|] eqn:Hjoin.
    + by exists [], href, links.
    + split; [done|]. by exists [], href, links.
  - assert (contains (lit "/bitstream/handle/") href = false
            ∨ endswith (lit "?sequence=-1&isAllowed=y") href = false
            ∨ Exists (fun x => contains x (lower href) = true) blocklist)
      as Hfails.
    { destruct (contains (lit "/bitstream/handle/") href); [|by left].
      destruct (endswith (lit "?sequence=-1&isAllowed=y") href);
        [|right; by left].
      cbn [andb] in Htest. apply negb_false_iff, existsb_exists in Htest
        as (x & Hx & Hc).
      right. right. apply list.Exists_exists. exists x.
      by rewrite list_elem_of_In. }
    destruct (find_pdf_url links) as [[pdf_url|]|e].
    + destruct IH as (before & href' & after & -> & IH).
      exists (href :: before), href', after. split; [done|].
      cbn [find_pdf_url]. rewrite Htest. apply IH.
    + by constructor.
    + destruct IH as (-> & before & href' & after & -> & IH). split; [done|].
      exists (href :: before), href', after. split; [done|].
      cbn [find_pdf_url]. rewrite Htest. apply IH.
Qed.

(** ** The metadata files *)

Lemma underscored_inj h1 h2 :
  95%N ∉ h1 → 95%N ∉ h2 → underscored h1 = underscored h2 → h1 = h2.
Proof.
  revert h2. induction h1 as [|c1 h1 IH]; intros [|c2 h2]; try done.
  rewrite !not_elem_of_cons. intros [Hc1 Hh1] [Hc2 Hh2]. cbn [underscored map].
  intros [= Hc Hh]. f_equal; [|by apply IH].
  destruct (N.eqb_spec c1 slash), (N.eqb_spec c2 slash); congruence.
Qed.

Lemma metadata_path_inj h1 h2 :
  metadata_path h1 = metadata_path h2 → underscored h1 = underscored h2.
Proof.
  unfold metadata_path. intros Hpath.
  apply app_inv_head in Hpath. apply app_inv_head in Hpath.
  by apply app_inv_tail in Hpath.
Qed.

(** [save_metadata], in terms of the path of the handle. *)
Lemma save_metadata_path metadata w :
  md_handle metadata ≠ [] →
  save_metadata metadata w
  = match open_fails (metadata_path (md_handle metadata)) with
    | Some e => (Raise e, w)
    | None =>
        match dump_fails metadata with
        | Some e =>
            (Raise e,
             set_metadata_store
               (delete (metadata_path (md_handle metadata)) (metadata_store w))
               w)
        | None =>
            (Val tt,
             set_metadata_store
               (<[metadata_path (md_handle metadata) := metadata]>
                  (metadata_store w)) w)
        end
    end.
Proof. unfold save_metadata. by destruct (md_handle metadata). Qed.

Lemma save_metadata_empty metadata w :
  md_handle metadata = [] → save_metadata metadata w = (Val tt, w).
Proof. unfold save_metadata. by intros ->. Qed.

Lemma save_metadata_frame metadata w r w' :
  save_metadata metadata w = (r, w') →
  files w' = files w ∧ sent w' = sent w ∧ log w' = log w
  ∧ (r = Val tt → md_handle metadata ≠ [] →
     open_fails (metadata_path (md_handle metadata)) = None).
Proof.
  destruct (md_handle metadata) as [|c h] eqn:Hhandle.
  { rewrite save_metadata_empty by done. by intros [= <- <-]. }
  rewrite save_metadata_path by by rewrite Hhandle.
  rewrite Hhandle.
  destruct (open_fails (metadata_path (c :: h))); [by intros [= <- <-]|].
  destruct (dump_fails metadata); by intros [= <- <-].
Qed.

(** X17. [save_metadata] names the file after the handle with every
    slash turned into an underscore, so two handles that differ only in
    where they have a slash and where an underscore share one file: when
    that file can be opened and the second record can be written, the
    record saved second replaces whatever the first call left, and the
    store is as if the first call had never been made. *)
Theorem like_handles_share_file (m1 m2 : ThesisMetadata) (w : world) :
  md_handle m1 ≠ [] → md_handle m2 ≠ [] →
  underscored (md_handle m1) = underscored (md_handle m2) →
  open_fails (metadata_path (md_handle m2)) = None →
  dump_fails m2 = None →
  save_metadata m2 (save_metadata m1 w).2 = save_metadata m2 w
  ∧ metadata_store (save_metadata m2 (save_metadata m1 w).2).2
      !! metadata_path (md_handle m1) = Some m2.
Proof.
  intros H1 H2 Hlike Hopen Hdump.
  assert (metadata_path (md_handle m1) = metadata_path (md_handle m2)) as Hpath
    by (unfold metadata_path; by rewrite Hlike).
  rewrite !save_metadata_path by done. rewrite Hpath, Hopen, Hdump.
  destruct (dump_fails m1); cbn [snd metadata_store set_metadata_store];
    unfold set_metadata_store; cbn;
    rewrite ?insert_insert_eq, ?insert_delete_eq, lookup_insert_eq; done.
Qed.

(** X18. Handles without an underscore never share a file: when both
    files can be opened and both records written, after saving the
    records of two such handles that differ, each is found under the
    path of its own handle. [save_metadata] changes nothing but the
    stored metadata; a record with an empty handle saves nothing, and
    when the file cannot be opened the exception of [open] leaves the
    function and nothing is stored. *)
Theorem plain_handles_kept_apart (m1 m2 : ThesisMetadata) (w : world) :
  md_handle m1 ≠ [] → md_handle m2 ≠ [] →
  95%N ∉ md_handle m1 → 95%N ∉ md_handle m2 →
  md_handle m1 ≠ md_handle m2 →
  open_fails (metadata_path (md_handle m1)) = None → dump_fails m1 = None →
  open_fails (metadata_path (md_handle m2)) = None → dump_fails m2 = None →
  let w' := (save_metadata m2 (save_metadata m1 w).2).2 in
  metadata_store w' !! metadata_path (md_handle m1) = Some m1
  ∧ metadata_store w' !! metadata_path (md_handle m2) = Some m2
  ∧ files w' = files w ∧ sent w' = sent w ∧ log w' = log w
  ∧ (∀ metadata, md_handle metadata = [] →
       save_metadata metadata w' = (Val tt, w'))
  ∧ (∀ metadata e, md_handle metadata ≠ [] →
       open_fails (metadata_path (md_handle metadata)) = Some e →
       save_metadata metadata w' = (Raise e, w')).
Proof.
  intros H1 H2 Hu1 Hu2 Hne Hopen1 Hdump1 Hopen2 Hdump2. cbv zeta.
  rewrite !save_metadata_path by done.
  rewrite Hopen1, Hdump1. cbn [snd]. rewrite Hopen2, Hdump2. cbn [snd].
  cbn [metadata_store set_metadata_store files sent log].
  split_and!; try done.
  - rewrite lookup_insert_ne, lookup_insert_eq; [done|].
    intros Hpath%metadata_path_inj. apply Hne. symmetry.
    by apply underscored_inj.
  - by rewrite lookup_insert_eq.
  - intros metadata Hempty. by apply save_metadata_empty.
  - intros metadata e Hhandle Hfails.
    rewrite save_metadata_path by done. by rewrite Hfails.
Qed.

(** ** What the record store holds after a run *)













Lemma parse_save_handle t h :
  storable t → handle t = Some h →
  parse_theses (save_theses [t])
  = [Thesis (title t) (author t) (year t) h (Some h)].
Proof.
  intros Ht Hh. unfold save_theses. cbn [map concat].
  rewrite parse_theses_cons by done.
  by rewrite (parse_written_handle t h).
Qed.

(** X20. A record with a handle loses a field each time the store is
    written and read: the reader takes type and year from the last two
    fields, which with a handle are the year and the handle. After one
    round the type holds the year and the year the handle, after two the
    type holds the handle too, and from then on nothing changes. Title,
    author and handle are kept. *)
Theorem handle_record_degrades (t : thesis) (h : str) :
  storable t → handle t = Some h →
  let once := Thesis (title t) (author t) (year t) h (Some h) in
  let twice := Thesis (title t) (author t) h h (Some h) in
  parse_theses (save_theses [t]) = [once]
  ∧ parse_theses (save_theses [once]) = [twice]
  ∧ parse_theses (save_theses [twice]) = [twice].
Proof.
  intros Ht Hh. cbv zeta.
  destruct Ht as (Htitle & Hauthor & Htype & Hyear & Hhandle).
  rewrite Hh in Hhandle. destruct Hhandle as [Hne Hsafe].
  split_and!.
  - apply parse_save_handle; [|done]. unfold storable. by rewrite Hh.
  - by apply (parse_save_handle (Thesis _ _ _ _ _) h).
  - by apply (parse_save_handle (Thesis _ _ _ _ _) h).
Qed.

(** ** The batch driver *)

Lemma with_handles_app l1 l2 :
  with_handles (l1 ++ l2) = with_handles l1 + with_handles l2.
Proof. unfold with_handles. by rewrite filter_app, length_app. Qed.

Lemma with_handles_none t : with_handles [with_handle t None] = 0.
Proof.
  unfold with_handles. rewrite filter_cons, decide_False; [done|].
  by intros [h Hh].
Qed.

Lemma with_handles_some t h : with_handles [with_handle t (Some h)] = 1.
Proof.
  unfold with_handles. rewrite filter_cons, decide_True; [done|]. by exists h.
Qed.

Lemma get_thesis_metadata_handle handle net w metadata net' w' :
  get_thesis_metadata handle net w = (Val (Some metadata), net', w') →
  md_handle metadata = handle.
Proof.
  unfold get_thesis_metadata, fetch_body.
  destruct (requests_get (rest_request handle) net w) as [[[resp|x] net1] w1];
    [|done].
  destruct (if status_ok resp then _ else _) as [metadata_dict|x]; [|done].
  destruct (requests_get (html_request handle) net1 w1)
    as [[[html|x] net2] w2]; [|done].
  destruct (status_ok html); [|done].
  destruct (as_html html) as [soup|]; [|done].
  pose proof (build_metadata_outcome handle metadata_dict soup (now_iso w2))
    as Hout.
  destruct (find_pdf_url (hrefs soup)); [|by rewrite Hout].
  destruct (date_unsliceable metadata_dict).
  - by rewrite Hout.
  - destruct Hout as (m & -> & Hhandle & _). by intros [= <- <- <-].
Qed.

Lemma fetch_and_store_out t current_handle d net w r d' net' w' :
  fetch_and_store t current_handle d net w = (r, d', net', w') →
  files w' = files w
  ∧ discovered_handles d' = discovered_handles d
  ∧ (∃ requests, sent w' = sent w ++ requests
                 ∧ ∀ h, current_handle = Some h → Forall (about h) requests)
  ∧ match r with
    | Val _ =>
        ∃ out,
          theses_with_handles d'
          = theses_with_handles d ++ [with_handle t out]
          ∧ metadata_count d'
            = metadata_count d + with_handles [with_handle t out]
          ∧ match out with
            | None => True
            | Some h =>
                current_handle = Some h ∧ h ≠ []
                ∧ open_fails (metadata_path h) = None
            end
    | Raise _ =>
        theses_with_handles d' = theses_with_handles d
        ∧ metadata_count d' = metadata_count d
    end.
Proof.
  unfold fetch_and_store.
  assert (∃ requests, sent (logger (WarnNoHandleFor (author t)) w)
                      = sent w ++ requests
                      ∧ ∀ h, current_handle = Some h → Forall (about h) requests)
    as Hnone by (exists []; by rewrite app_nil_r).
  destruct current_handle as [[|c h]|].
  1,3: intros [= <- <- <- <-]; cbn [files logger];
       (split_and!; [done|done|done|]); exists None;
       rewrite with_handles_none; cbn; (split_and!; [done|lia|done]).
  clear Hnone.
  destruct (get_thesis_metadata (c :: h) net w) as [[[[m|]|x] net1] w1] eqn:Hget;
    pose proof (get_thesis_metadata_frame _ _ _ _ _ _ Hget)
      as (Hfiles & Hstore & _ & _ & _ & _ & used & requests & events
          & _ & Hsent & _ & _ & Hreq);
    assert (∀ h0, Some (c :: h) = Some h0 → Forall (about h0) requests)
      as Habout by (by intros h0 [= <-]).
  - apply get_thesis_metadata_handle in Hget.
    assert (md_handle (backfill t m) = c :: h) as Hhandle by done.
    destruct (save_metadata (backfill t m) w1) as [[u|x] w2] eqn:Hsave;
      apply save_metadata_frame in Hsave as (Hf & Hs & _ & Hopen);
      intros [= <- <- <- <-].
    + split_and!; [congruence|done|exists requests; by rewrite Hs|].
      exists (Some (c :: h)). rewrite with_handles_some.
      cbn [theses_with_handles metadata_count].
      split_and!; [done|lia|done|done|].
      rewrite <- Hhandle. apply Hopen; [by destruct u|by rewrite Hhandle].
    + split_and!; [congruence|done|exists requests; by rewrite Hs|done|done].
  - intros [= <- <- <- <-]. cbn [files logger sent].
    split_and!; [done|done|by exists requests|].
    exists None. rewrite with_handles_none. cbn. split_and!; [done|lia|done].
  - intros [= <- <- <- <-].
    split_and!; [done|done|by exists requests|done|done].
Qed.

Lemma resolve_and_fetch_out t d net w r d' net' w' :
  resolve_and_fetch t d net w = (r, d', net', w') →
  files w' = files w
  ∧ match r with
    | Val _ =>
        ∃ out,
          theses_with_handles d'
          = theses_with_handles d ++ [with_handle t out]
          ∧ metadata_count d'
            = metadata_count d + with_handles [with_handle t out]
          ∧ match out with
            | None => True
            | Some h =>
                h ≠ [] ∧ open_fails (metadata_path h) = None
                ∧ match handle t with
                  | Some (_ :: _) => handle t = Some h
                  | _ => True
                  end
            end
    | Raise _ =>
        theses_with_handles d' = theses_with_handles d
        ∧ metadata_count d' = metadata_count d
    end.
Proof.
  assert (∀ ch d0 net0 w0,
            files w0 = files w →
            theses_with_handles d0 = theses_with_handles d →
            metadata_count d0 = metadata_count d →
            match handle t with
            | Some (_ :: _) => handle t = ch
            | _ => True
            end →
            fetch_and_store t ch d0 net0 w0 = (r, d', net', w') →
            files w' = files w
            ∧ match r with
              | Val _ =>
                  ∃ out,
                    theses_with_handles d'
                    = theses_with_handles d ++ [with_handle t out]
                    ∧ metadata_count d'
                      = metadata_count d + with_handles [with_handle t out]
                    ∧ match out with
                      | None => True
                      | Some h =>
                          h ≠ [] ∧ open_fails (metadata_path h) = None
                          ∧ match handle t with
                            | Some (_ :: _) => handle t = Some h
                            | _ => True
                            end
                      end
              | Raise _ =>
                  theses_with_handles d' = theses_with_handles d
                  ∧ metadata_count d' = metadata_count d
              end) as Hfetch.
  { intros ch d0 net0 w0 Hfiles Hd Hcount Hown
      (Hf & _ & _ & Hout)%fetch_and_store_out.
    split; [congruence|].
    destruct r; [|by rewrite <- Hd, <- Hcount].
    destruct Hout as (out & Hout & Hc & Hh). exists out.
    rewrite Hout, Hc, Hd, Hcount. split_and!; [done..|].
    destruct out as [h|]; [|done]. destruct Hh as (-> & Hne & Hopen).
    split_and!; [done..|]. by destruct (handle t) as [[|c0 h0]|]. }
  unfold resolve_and_fetch.
  destruct (handle t) as [[|c h]|] eqn:Hhandle.
  2: by apply Hfetch.
  all: destruct (discover_handle _ _ _ _) as [[[[[|c h']|]|x] net1] w1] eqn:Hrun;
    apply discover_handle_frame in Hrun as (Hfiles & _);
    cbn [files logger] in Hfiles;
    try (by apply Hfetch); by intros [= <- <- <- <-].
Qed.

Lemma with_handle_same t : with_handle t (handle t) = t.
Proof. by destruct t. Qed.

Lemma process_thesis_out current_year t d net w d' net' w' :
  process_thesis current_year t d net w = (d', net', w') →
  files w' = files w
  ∧ ∃ t', theses_with_handles d' = theses_with_handles d ++ [t']
          ∧ outcome current_year t t'
          ∧ metadata_count d' + future_handles current_year [t]
            = metadata_count d + with_handles [t'].
Proof.
  unfold process_thesis, outcome, future_handles.
  change (match py_int (year t) with
          | Some thesis_year => (current_year <? thesis_year)%Z
          | None => false
          end) with (is_future current_year t).
  rewrite filter_cons, filter_nil.
  destruct (is_future current_year t).
  { rewrite decide_True by done. intros [= <- <- <-]. cbn [files logger].
    split; [done|]. exists t. by rewrite with_handle_same. }
  rewrite decide_False by done. change (with_handles []) with 0.
  destruct (resolve_and_fetch t d net w) as [[[[u|x] d1] net1] w1] eqn:Hrun;
    apply resolve_and_fetch_out in Hrun as (Hfiles & Hout);
    intros [= <- <- <-].
  - split; [done|]. destruct Hout as (out & -> & -> & Hh).
    exists (with_handle t out). split_and!; [done|done|done|lia].
  - cbn [files logger]. split; [done|]. destruct Hout as [Htheses Hcount].
    exists (with_handle t None). rewrite with_handles_none. cbn.
    rewrite Htheses, Hcount. split_and!; [done..|lia].
Qed.

Lemma process_theses_out current_year theses d net w d' net' w' :
  process_theses current_year theses d net w = (d', net', w') →
  files w' = files w
  ∧ ∃ out, theses_with_handles d' = theses_with_handles d ++ out
           ∧ Forall2 (outcome current_year) theses out
           ∧ metadata_count d' + future_handles current_year theses
             = metadata_count d + with_handles out.
Proof.
  revert d net w. induction theses as [|t theses IH]; intros d net w;
    cbn [process_theses].
  - intros [= <- <- <-]. split; [done|].
    exists []. rewrite app_nil_r. split_and!; [done..|]. cbn. lia.
  - destruct (process_thesis current_year t d net w) as [[d1 net1] w1] eqn:Hone.
    apply process_thesis_out in Hone as (Hfiles1 & t' & Hd1 & Ht' & Hc1).
    intros (Hfiles & out & Hd' & Hout & Hc)%IH.
    split; [congruence|].
    exists (t' :: out). rewrite Hd', Hd1, <- List.app_assoc.
    split_and!; [done|by constructor|].
    change (t' :: out) with ([t'] ++ out). rewrite with_handles_app.
    change (t :: theses) with ([t] ++ theses).
    unfold future_handles in *. rewrite filter_app, with_handles_app. lia.
Qed.

Lemma log_all_log events w : log (log_all events w) = log w ++ events.
Proof.
  unfold log_all. revert w.
  induction events as [|ev events IH]; intros w; cbn [foldl];
    [by rewrite app_nil_r|].
  rewrite IH. cbn [log logger]. by rewrite <- List.app_assoc.
Qed.

Lemma log_all_files events w : files (log_all events w) = files w.
Proof.
  unfold log_all. revert w.
  induction events as [|ev events IH]; intros w; cbn [foldl]; [done|].
  by rewrite IH.
Qed.

(** X21. [main] raises only when a directory cannot be made or the store
    cannot be read, and then before any request and with nothing
    changed but the log, or when the store cannot be opened for writing
    once the records are processed, and then with every text file as it
    was. Otherwise it rewrites the store, and no other text file, with
    one record for each record read, in the order read and with the
    title, author, type and year read: a record of a future year keeps
    the handle it had; any other record ends without a handle, or with a
    handle that has text and whose metadata file could be opened, the
    handle it came with when it came with one. *)
Theorem main_rewrites_store (net : network) (w : world) :
  let '(result, net', w') := main net w in
  match result with
  | Val _ =>
      ∃ content out,
        files w !! store_name = Some (Val content)
        ∧ files w' = <[store_name := Val (save_theses out)]> (files w)
        ∧ Forall2 (outcome (now_year w)) (parse_theses content) out
  | Raise e =>
      files w' = files w
      ∧ ((net' = net ∧ sent w' = sent w
          ∧ metadata_store w' = metadata_store w
          ∧ (makedirs output_dir = Some e
             ∨ makedirs metadata_dir = Some e
             ∨ parse_theses_file store_name (files w) = Raise e))
         ∨ open_fails store_name = Some e)
  end.
Proof.
  unfold main. cbn [files logger now_year].
  destruct (makedirs output_dir) as [e|] eqn:Hdir;
    [split; [done|]; left; split_and!; try done; by left|].
  destruct (makedirs metadata_dir) as [e|] eqn:Hmeta;
    [split; [done|]; left; split_and!; try done; right; by left|].
  destruct (parse_theses_file store_name (files w)) as [theses|e] eqn:Hparse;
    [|split; [done|]; left; split_and!; try done; right; by right].
  destruct (process_theses _ _ _ _ _) as [[d net'] w1] eqn:Hrun.
  apply process_theses_out in Hrun as (Hfiles & out & Hd & Hout & _).
  cbn [theses_with_handles app files logger] in Hd, Hfiles.
  destruct (open_fails store_name) as [e|] eqn:Hopen; [split; [done|by right]|].
  unfold parse_theses_file in Hparse.
  destruct (files w !! store_name) as [[content|x]|]; [|done..].
  injection Hparse as <-. exists content, out.
  rewrite log_all_files. cbn [files set_files logger]. unfold save_theses_file.
  by rewrite Hd, Hfiles.
Qed.

Lemma try_strategies_offline title author last_name strategies w :
  ∃ w', try_strategies title author last_name strategies [] w
        = (Val None, [], w')
        ∧ files w' = files w ∧ metadata_store w' = metadata_store w.
Proof.
  revert w. induction strategies as [|s strategies IH]; intros w;
    cbn [try_strategies]; [by eexists|].
  unfold run_strategy. cbn [requests_get].
  destruct (IH (logger (ErrorStrategy s RequestException)
                  (record_request (first_request s) w)))
    as (w' & -> & Hfiles & Hstore).
  by exists w'.
Qed.

(** X22. A run without network takes the handle from every record that
    is not of a future year: each request raises, the resolver and the
    fetcher return nothing, and the records are written back without a
    handle, also those that had one. Nothing is discovered, no metadata
    is written. *)
Theorem offline_run_erases_handles (current_year : Z) (theses : list thesis)
    (d : driver) (w : world) :
  ∃ w',
    process_theses current_year theses d [] w
    = ({| theses_with_handles :=
            theses_with_handles d
            ++ map (fun t => if is_future current_year t then t
                             else with_handle t None) theses;
          discovered_handles := discovered_handles d;
          metadata_count := metadata_count d |}, [], w')
    ∧ metadata_store w' = metadata_store w
    ∧ files w' = files w.
Proof.
  revert d w. induction theses as [|t theses IH]; intros d w;
    cbn [process_theses map].
  { exists w. rewrite app_nil_r. by destruct d. }
  assert (∃ d1 w1,
            process_thesis current_year t d [] w = (d1, [], w1)
            ∧ theses_with_handles d1
              = theses_with_handles d
                ++ [if is_future current_year t then t else with_handle t None]
            ∧ discovered_handles d1 = discovered_handles d
            ∧ metadata_count d1 = metadata_count d
            ∧ metadata_store w1 = metadata_store w
            ∧ files w1 = files w) as (d1 & w1 & -> & Hd1 & Hdisc & Hcount & Hstore & Hfiles).
  { unfold process_thesis.
    change (match py_int (year t) with
            | Some thesis_year => (current_year <? thesis_year)%Z
            | None => false
            end) with (is_future current_year t).
    destruct (is_future current_year t); [by eexists _, _|].
    unfold resolve_and_fetch, fetch_and_store, get_thesis_metadata, fetch_body.
    destruct (handle t) as [[|c h]|]; cbn [requests_get];
      try (by eexists _, _).
    all: unfold discover_handle;
      destruct (try_strategies_offline (title t) (author t)
                  (last_name_of (author t)) search_strategies
                  (logger (InfoSearching (title t) (author t)
                             (last_name_of (author t)))
                     (logger (InfoAttempt (author t)) w)))
        as (w' & -> & Hfiles & Hstore);
      by eexists _, _. }
  destruct (IH d1 w1) as (w' & -> & Hstore' & Hfiles').
  exists w'. rewrite Hd1, Hdisc, Hcount, <- List.app_assoc.
  split; [done|]. split; congruence.
Qed.

(** X23. A record that comes with a handle is never looked up in the
    feed: unless it is of a future year, the only requests made for it
    are about that handle, nothing is added to the discovered handles,
    and the record is written back as it was or without its handle. *)
Theorem known_handle_not_resolved (current_year : Z) (t : thesis) (h : str)
    (d : driver) (net : network) (w : world) :
  handle t = Some h → h ≠ [] → is_future current_year t = false →
  let '(d', net', w') := process_thesis current_year t d net w in
  (∃ requests, sent w' = sent w ++ requests ∧ Forall (about h) requests)
  ∧ discovered_handles d' = discovered_handles d
  ∧ (theses_with_handles d' = theses_with_handles d ++ [t]
     ∨ theses_with_handles d'
       = theses_with_handles d ++ [with_handle t None]).
Proof.
  intros Hhandle Hne Hnow. unfold process_thesis.
  change (match py_int (year t) with
          | Some thesis_year => (current_year <? thesis_year)%Z
          | None => false
          end) with (is_future current_year t).
  rewrite Hnow. unfold resolve_and_fetch. rewrite Hhandle.
  destruct h as [|c h]; [done|].
  destruct (fetch_and_store t (Some (c :: h)) d net w)
    as [[[[u|x] d1] net1] w1] eqn:Hrun;
    apply fetch_and_store_out in Hrun
      as (_ & Hdisc & (requests & Hsent & Habout) & Hout).
  - split_and!; [exists requests; split; [done|by apply Habout]|done|].
    destruct Hout as (out & -> & _ & Hh). destruct out as [h'|]; [|by right].
    destruct Hh as ([= <-] & _). left. by rewrite <- Hhandle, with_handle_same.
  - cbn [sent logger theses_with_handles append_thesis discovered_handles].
    split_and!; [exists requests; split; [done|by apply Habout]|done|].
    right. by rewrite (proj1 Hout).
Qed.

Lemma parse_line_handle_year line t h :
  parse_line line = Some t → handle t = Some h → year t = h.
Proof.
  unfold parse_line. destruct (negb _); [done|].
  destruct (4 <=? _); [|done]. destruct (5 <=? _); intros [= <-]; [|done].
  by intros [= <-].
Qed.

(** X24. The reader gives a record with a handle the handle as its
    year, and [main] passes that year on: when the remote sources give
    no year, the metadata saved for a record read from the store with a
    handle carries the handle as its year. Fields the sources did give
    are never replaced by the local ones. *)
Theorem handle_backfilled_as_year (line : str) (t : thesis) (h : str)
    (metadata : ThesisMetadata) :
  parse_line line = Some t → handle t = Some h → h ≠ [] →
  (py_truthy (md_year metadata) = false →
   md_year (backfill t metadata) = JStr h)
  ∧ (py_truthy (md_year metadata) = true →
     md_year (backfill t metadata) = md_year metadata)
  ∧ (py_truthy (md_title metadata) = true →
     md_title (backfill t metadata) = md_title metadata)
  ∧ (py_truthy (md_author metadata) = true →
     md_author (backfill t metadata) = md_author metadata)
  ∧ (py_truthy (md_type metadata) = true →
     md_type (backfill t metadata) = md_type metadata).
Proof.
  intros Hline Hhandle Hne.
  rewrite <- (parse_line_handle_year line t h Hline Hhandle) in Hne |- *.
  unfold backfill. cbn.
  split_and!; intros ->; cbn [negb andb]; [|done..].
  by destruct (year t).
Qed.

(** ** The counts of the summary *)

Lemma dict_set_elem key value d item :
  item ∈ dict_set key value d → item = (key, value) ∨ item ∈ d.
Proof.
  induction d as [|[k v] d IH]; cbn [dict_set].
  - intros ->%list_elem_of_singleton. by left.
  - destruct (decide (k = key)) as [->|Hk].
    + intros [->|Hin]%elem_of_cons; [by left|right; by right].
    + intros [->|Hin]%elem_of_cons; [right; by left|].
      destruct (IH Hin) as [->|Hd]; [by left|right; by right].
Qed.

Lemma dict_set_keys key value d k :
  k ∈ (dict_set key value d).*1 → k = key ∨ k ∈ d.*1.
Proof.
  intros ([k' v'] & -> & Hin)%list_elem_of_fmap.
  apply dict_set_elem in Hin as [[= -> ->]|Hin]; [by left|].
  right. apply list_elem_of_fmap. by exists (k', v').
Qed.

Lemma dict_set_NoDup key value d :
  NoDup d.*1 → NoDup (dict_set key value d).*1.
Proof.
  induction d as [|[k v] d IH]; cbn [dict_set fmap list_fmap fst].
  - intros _. apply NoDup_singleton.
  - intros [Hk Hd]%NoDup_cons. destruct (decide (k = key)) as [->|Hne];
      cbn [fmap list_fmap fst]; apply NoDup_cons; (split; [|by auto]);
      [done|].
    intros [->|Hin]%dict_set_keys; done.
Qed.

Lemma resolve_and_fetch_discovered t d net w r d' net' w' :
  resolve_and_fetch t d net w = (r, d', net', w') →
  discovered_handles d' = discovered_handles d
  ∨ ∃ h, h ≠ [] ∧ (handle t = None ∨ handle t = Some [])
         ∧ discovered_handles d'
           = dict_set (author t) h (discovered_handles d).
Proof.
  unfold resolve_and_fetch.
  destruct (handle t) as [[|c h]|] eqn:Hhandle.
  2: { intros (_ & Hdisc & _)%fetch_and_store_out. by left. }
  all: destruct (discover_handle _ _ _ _) as [[[[[|c h']|]|x] net1] w1];
    first [ intros [= <- <- <- <-]; by left
          | intros (_ & Hdisc & _)%fetch_and_store_out;
            cbn [discovered_handles] in Hdisc;
            first [ by left
                  | right; exists (c :: h');
                    split_and!; [done|first [by left|by right]|done] ] ].
Qed.

Lemma process_theses_discovered (Q : str * str → Prop) current_year theses
    d net w d' net' w' :
  (∀ t h, t ∈ theses → is_future current_year t = false →
          handle t = None ∨ handle t = Some [] → h ≠ [] →
          Q (author t, h)) →
  NoDup (discovered_handles d).*1 → Forall Q (discovered_handles d) →
  process_theses current_year theses d net w = (d', net', w') →
  NoDup (discovered_handles d').*1 ∧ Forall Q (discovered_handles d').
Proof.
  revert d net w. induction theses as [|t theses IH];
    intros d net w HQ Hnodup Hall; cbn [process_theses];
    [by intros [= <- <- <-]|].
  destruct (process_thesis current_year t d net w) as [[d1 net1] w1] eqn:Hone.
  apply IH; [intros t0 h Ht0; apply HQ; by right| |].
  all: unfold process_thesis in Hone;
    change (match py_int (year t) with
            | Some thesis_year => (current_year <? thesis_year)%Z
            | None => false
            end) with (is_future current_year t) in Hone;
    destruct (is_future current_year t) eqn:Hfuture;
    [by injection Hone as <- <- <-|];
    destruct (resolve_and_fetch t d net w) as [[[[u|x] d2] net2] w2] eqn:Hrun;
    apply resolve_and_fetch_discovered in Hrun
      as [Hsame|(h & Hne & Hnone & Hset)];
    injection Hone as <- <- <-;
    cbn [discovered_handles append_thesis];
    rewrite ?Hsame, ?Hset; try done.
  1,2: by apply dict_set_NoDup.
  all: apply list.Forall_forall; intros item [->|Hin]%dict_set_elem;
    [apply HQ; [by left|done..]|];
    rewrite list.Forall_forall in Hall; by apply Hall.
Qed.

(** X25. A run of [main] that ends logs the summary and then, when
    handles were discovered, a heading and one line for each author with
    a discovered handle; nothing is logged after that. The summary
    counts as processed the records read, which are as many as the
    records written; the count of metadata files equals the count of
    records written with a handle less the records of a future year that
    came with one, so it never exceeds the count of handles; and the
    count of new handles is the number of authors listed, each listed
    once, each the author of a record read without a handle and not of a
    future year, each with a handle that has text. *)
Theorem summary_counts (net : network) (w : world) (net' : network)
    (w' : world) :
  main net w = (Val tt, net', w') →
  ∃ content out discovered written earlier,
    files w !! store_name = Some (Val content)
    ∧ files w' !! store_name = Some (Val (save_theses out))
    ∧ log w'
      = earlier
        ++ InfoSummary (length out) (with_handles out) (length discovered)
             written
           :: discovered_lines discovered
    ∧ length out = length (parse_theses content)
    ∧ written + future_handles (now_year w) (parse_theses content)
      = with_handles out
    ∧ NoDup discovered.*1
    ∧ Forall (discovered_from (now_year w) (parse_theses content)) discovered.
Proof.
  unfold main. cbn [files logger now_year].
  destruct (makedirs output_dir); [done|].
  destruct (makedirs metadata_dir); [done|].
  unfold parse_theses_file.
  destruct (files w !! store_name) as [[content|x]|]; [|done..].
  destruct (process_theses _ _ _ _ _) as [[d net1] w1] eqn:Hrun.
  assert (NoDup (discovered_handles d).*1
          ∧ Forall (discovered_from (now_year w) (parse_theses content))
              (discovered_handles d)) as [Hnodup Hfrom].
  { eapply process_theses_discovered; [| | |exact Hrun].
    - intros t h Ht Hfuture Hnone Hne. split; [done|]. by exists t.
    - cbn. constructor.
    - constructor. }
  apply process_theses_out in Hrun as (Hfiles & out & Hd & Hout & Hcount).
  cbn [theses_with_handles metadata_count app] in Hd, Hcount.
  destruct (open_fails store_name); [done|]. intros [= <- <-].
  exists content, out, (discovered_handles d), (metadata_count d).
  eexists. rewrite log_all_files, log_all_log.
  cbn [files set_files logger log]. unfold save_theses_file.
  rewrite lookup_insert_eq, Hd, (Forall2_length _ _ _ Hout).
  rewrite <- List.app_assoc. cbn [app].
  split_and!; first [done | lia].
Qed.

(** ** The range of the combined score *)

Lemma py_max_bounds x xs :
  (0 <= x <= 1)%Q → Forall (fun y => (0 <= y <= 1)%Q) xs →
  (0 <= py_max x xs <= 1)%Q.
Proof.
  unfold py_max. intros Hx Hxs. revert x Hx.
  induction Hxs as [|y xs Hy _ IH]; intros x Hx; [done|].
  cbn [foldl]. apply IH. by destruct (Qltb x y).
Qed.

(** X26. The combined score of a record, when the resolver computes
    one, lies between 0 and 1: the threshold of 0.8 can be passed, and a
    score above 1 never occurs. *)
Theorem combined_score_bounds (title last_name : str) (record : oai_record)
    (score : Q) :
  record_score title last_name record = Some score →
  (0 <= score <= 1)%Q.
Proof.
  unfold record_score. destruct (rec_metadata record) as [metadata|]; [|done].
  destruct (creator_scores _ _) as [scores|x] eqn:Hscores; [|done].
  destruct (map _ _) as [|t ts] eqn:Htitles; [done|].
  destruct scores as [|c cs]; [done|]. intros [= <-].
  assert (Forall (fun y => (0 <= y <= 1)%Q) (t :: ts)) as Ht.
  { rewrite <- Htitles. apply Forall_map, list.Forall_forall.
    intros text _. apply ratio_bounds. }
  assert (Forall (fun y => (0 <= y <= 1)%Q) (c :: cs)) as Hc.
  { clear Htitles Ht. revert c cs Hscores.
    generalize (texts (dc_creator metadata)). intros creators.
    assert (∀ scores, creator_scores last_name creators = Val scores →
              Forall (fun y => (0 <= y <= 1)%Q) scores) as Hall.
    { induction creators as [|creator creators IH]; intros scores;
        cbn [creator_scores]; [by intros [= <-]|].
      repeat case_match; try done. intros [= <-].
      constructor; [apply ratio_bounds|by apply IH]. }
    intros c cs Hscores. by apply Hall. }
  apply Forall_cons in Ht as [Ht Hts], Hc as [Hc Hcs].
  pose proof (py_max_bounds t ts Ht Hts) as [Ht0 Ht1].
  pose proof (py_max_bounds c cs Hc Hcs) as [Hc0 Hc1].
  split; lra.
Qed.

End Downloader.

(* ===================================================================== *)
(** * The properties at sample inputs *)
(* ===================================================================== *)

Lemma sample_theses_storable :
  Forall storable [thesis_with_handle; thesis_plain].
Proof.
  repeat constructor; try done;
    repeat first [done | apply Forall_cons_2 | apply Forall_nil_2].
Qed.



(** A record with a handle: the year is read as the type and the handle
    as the year. *)
Example store_handle_shifts_fields :
  parse_theses (save_theses [thesis_with_handle])
  = [Thesis (lit "Analysis of X, Extended") (lit "Novak Jan") (lit "2020")
       (lit "10467/1") (Some (lit "10467/1"))].
Proof. by vm_compute. Qed.

(** The scorer is not symmetric: 0.25 one way, 0.5 the other. *)
Lemma similarity_asymmetric :
  (_similarity_score latin1_lower (lit "tide") (lit "diet") == 1 # 4)%Q
  ∧ (_similarity_score latin1_lower (lit "diet") (lit "tide") == 1 # 2)%Q
  ∧ ¬ (_similarity_score latin1_lower (lit "tide") (lit "diet")
       == _similarity_score latin1_lower (lit "diet") (lit "tide"))%Q.
Proof. repeat split; by vm_compute. Qed.

Lemma best_across_batches_sample :
  ∃ used,
    feed_two_batches = used ++ []
    ∧ accepted_from latin1_lower query_title (lit "Novak") used
        (lit "oai:dspace.cvut.cz:10467/82").
Proof.
  apply (best_across_batches latin1_lower query_title (lit "Novak") []
           feed_two_batches quiet_world _ []
           (run_strategy latin1_lower query_title (lit "Novak") []
              feed_two_batches quiet_world).2);
    by vm_compute.
Defined.

(** A record without an identifier text in an earlier batch scores 1,
    and the record accepted from the next batch scores 13/15. *)
Lemma best_across_batches_unnamed :
  (run_strategy latin1_lower query_title (lit "Novak") []
     feed_unnamed_first quiet_world).1
  = (Returned (lit "oai:dspace.cvut.cz:10467/87"), [])
  ∧ ∃ earlier accepted,
      record_score latin1_lower query_title (lit "Novak") candidate_unnamed
      = Some earlier
      ∧ record_score latin1_lower query_title (lit "Novak") candidate_087
        = Some accepted
      ∧ (accepted < earlier)%Q.
Proof. split; [by vm_compute|]. eexists _, _. by vm_compute. Qed.

Lemma accepted_above_threshold_sample :
  ∃ earlier s later before used w1,
    search_strategies = earlier ++ s :: later
    ∧ feed_after_failure = before ++ used ++ []
    ∧ strategies_pass latin1_lower query_title
        (last_name_of latin1_isupper query_author) earlier feed_after_failure
        (logger (InfoSearching query_title query_author
                   (last_name_of latin1_isupper query_author)) quiet_world)
      = Some (used ++ [], w1)
    ∧ run_strategy latin1_lower query_title
        (last_name_of latin1_isupper query_author) s (used ++ []) w1
      = (Returned (lit "oai:dspace.cvut.cz:10467/82"), [],
         (discover_handle latin1_lower latin1_isupper query_author query_title
            feed_after_failure quiet_world).2)
    ∧ chosen_from latin1_lower query_title
        (last_name_of latin1_isupper query_author) used
        (lit "oai:dspace.cvut.cz:10467/82")
    ∧ accepted_from latin1_lower query_title
        (last_name_of latin1_isupper query_author) used
        (lit "oai:dspace.cvut.cz:10467/82").
Proof.
  destruct (proj1 (accepted_above_threshold latin1_lower latin1_isupper
                     query_author query_title feed_after_failure quiet_world)
              (lit "oai:dspace.cvut.cz:10467/82") []
              (discover_handle latin1_lower latin1_isupper query_author
                 query_title feed_after_failure quiet_world).2)
    as (earlier & s & later & before & used & w1 & Hs & Hnet & Hpass & Hrun
        & Hchosen & Hacc); [by vm_compute|].
  exists earlier, s, later, before, used, w1.
  split_and!; try done. apply Hacc. by vm_compute.
Defined.

(** In one batch, the record returned scores 13/15 and a later record,
    without an identifier text, scores 1; and a record returned from a
    second batch scores 13/15 when a record of the first batch, without
    an identifier text, scored 1. *)
Lemma accepted_not_maximal :
  (discover_handle latin1_lower latin1_isupper query_author query_title
     feed_unnamed_last quiet_world).1
  = (Val (Some (lit "oai:dspace.cvut.cz:10467/87")), [])
  ∧ (discover_handle latin1_lower latin1_isupper query_author query_title
       feed_unnamed_first quiet_world).1
    = (Val (Some (lit "oai:dspace.cvut.cz:10467/87")), [])
  ∧ ∃ returned other,
      record_score latin1_lower query_title
        (last_name_of latin1_isupper query_author) candidate_087
      = Some returned
      ∧ record_score latin1_lower query_title
          (last_name_of latin1_isupper query_author) candidate_unnamed
        = Some other
      ∧ (returned < other)%Q.
Proof. do 2 (split; [by vm_compute|]). eexists _, _. by vm_compute. Qed.

Lemma four_requests_sample :
  ∃ w',
    run_strategy latin1_lower query_title (lit "Novak") []
      [Reply (feed_answer (page_then [candidate_075] (lit "t1")));
       Reply (feed_answer (page_then [] (lit "t2")));
       Reply (feed_answer (page_then [candidate_080] (lit "t3")));
       Reply (feed_answer (last_page [candidate_075]))] quiet_world
    = (Finished, [], w')
    ∧ sent w'
      = sent quiet_world
          ++ [first_request []; next_request (lit "t1");
              next_request (lit "t2"); next_request (lit "t3")]
    ∧ length (sent w') = length (sent quiet_world) + 4.
Proof.
  apply (four_requests latin1_lower query_title (lit "Novak") []); by vm_compute.
Defined.

Lemma resolver_contains_failures_sample :
  ∃ net' w',
    discover_handle latin1_lower latin1_isupper query_author query_title
      feed_failing quiet_world
    = (Val None, net', w').
Proof.
  eexists _, _.
  eapply (proj2 (proj2 (proj2 (proj2 (proj2
            (resolver_contains_failures latin1_lower latin1_isupper
               query_author query_title feed_failing quiet_world))))));
    [reflexivity|vm_compute; reflexivity..|done|done|done].
Defined.

Lemma metadata_needs_document_view_sample :
  ∃ net' w',
    get_thesis_metadata latin1_lower append_path (lit "10467/82")
      [Reply detail_answer; Reply not_found] quiet_world
    = (Val None, net', w').
Proof.
  eapply (proj2 (proj2 (metadata_needs_document_view latin1_lower append_path
                          (lit "10467/82")
                          [Reply detail_answer; Reply not_found] quiet_world)));
    [reflexivity|by vm_compute].
Defined.

Lemma future_record_passes_through_sample :
  ∃ d' w',
    process_thesis latin1_lower latin1_isupper decimal_int append_path open_short dump_ok
      2026 thesis_future (Build_driver [] [] 0) feed_failing quiet_world
    = (d', feed_failing, w')
    ∧ sent w' = sent quiet_world
    ∧ metadata_store w' = metadata_store quiet_world
    ∧ theses_with_handles d' = [] ++ [thesis_future]
    ∧ ∀ rest,
        process_theses latin1_lower latin1_isupper decimal_int append_path open_short dump_ok
          2026 (thesis_future :: rest) (Build_driver [] [] 0) feed_failing
          quiet_world
        = process_theses latin1_lower latin1_isupper decimal_int append_path open_short dump_ok
            2026 rest d' feed_failing w'.
Proof.
  apply (future_record_passes_through latin1_lower latin1_isupper decimal_int
           append_path open_short dump_ok 2026 thesis_future (Build_driver [] [] 0) feed_failing
           quiet_world 2027); by vm_compute.
Defined.

(** A whole run: the first record is resolved, fetched and written back
    with its handle, the record of a future year is written back as it
    was, three requests are sent and one metadata file is stored. *)
Example main_sample_run :
  let '(result, net', w') :=
    main latin1_lower latin1_isupper decimal_int append_path makedirs_ok
      open_short dump_ok
      answering_network stored_world in
  result = Val tt
  ∧ net' = []
  ∧ length (sent w') = 3
  ∧ files w' !! store_name
    = Some (Val (save_theses
                   [with_handle thesis_local
                      (Some (lit "oai:dspace.cvut.cz:10467/82"));
                    thesis_future]))
  ∧ size (metadata_store w') = 1
  ∧ last (log w')
    = Some (InfoNewHandle query_author (lit "oai:dspace.cvut.cz:10467/82")).
Proof. by vm_compute. Qed.

(** ** The further properties at sample inputs *)

Lemma blank_creator_ends_strategy_sample :
  ∃ w',
    run_strategy latin1_lower query_title (lit "Novak") []
      (Reply (feed_answer (last_page [candidate_blank; candidate_unnamed]))
       :: feed_two_batches) quiet_world
    = (Raised IndexError, feed_two_batches, w')
    ∧ sent w' = sent quiet_world ++ [first_request []]
    ∧ log w' = log quiet_world.
Proof.
  apply (blank_creator_ends_strategy latin1_lower query_title (lit "Novak") []
           (feed_answer (last_page [candidate_blank; candidate_unnamed]))
           (last_page [candidate_blank; candidate_unnamed])
           feed_two_batches quiet_world);
    by vm_compute.
Defined.

Lemma requests_follow_tokens_sample :
  ∃ w',
    run_strategy latin1_lower query_title (lit "Novak") []
      (Reply (feed_answer (page_then [candidate_075] (lit "t1")))
       :: map (fun step : str * response => Reply step.2)
            [(lit "t1", feed_answer (page_then [] (lit "t2")));
             (lit "t2", feed_answer (last_page [candidate_080]))]
          ++ feed_failing) quiet_world
    = (Finished, feed_failing, w')
    ∧ sent w'
      = sent quiet_world
        ++ first_request []
           :: map (fun step : str * response => next_request step.1)
                [(lit "t1", feed_answer (page_then [] (lit "t2")));
                 (lit "t2", feed_answer (last_page [candidate_080]))]
    ∧ length (sent w')
      = length (sent quiet_world)
        + S (length [(lit "t1", feed_answer (page_then [] (lit "t2")));
                     (lit "t2", feed_answer (last_page [candidate_080]))]).
Proof.
  apply (requests_follow_tokens latin1_lower query_title (lit "Novak") []
           (feed_answer (page_then [candidate_075] (lit "t1")))
           [(lit "t1", feed_answer (page_then [] (lit "t2")));
            (lit "t2", feed_answer (last_page [candidate_080]))]
           feed_failing quiet_world);
    by vm_compute.
Defined.

Lemma discovered_handle_shape_sample :
  lit "oai:dspace.cvut.cz:10467/82" ≠ []
  ∧ length (split_on slash (lit "oai:dspace.cvut.cz:10467/82")) <= 2.
Proof.
  eapply (discovered_handle_shape latin1_lower latin1_isupper query_author
            query_title feed_two_batches quiet_world).
  vm_compute. reflexivity.
Defined.

Lemma broken_detail_stops_fetch_sample :
  ∃ e w',
    get_thesis_metadata latin1_lower append_path (lit "10467/82")
      [Reply broken_answer; Reply document_answer] quiet_world
    = (Val None, [Reply document_answer], w')
    ∧ sent w' = sent quiet_world ++ [rest_request (lit "10467/82")]
    ∧ log w' = log quiet_world ++ [ErrorMetadata e].
Proof.
  apply (broken_detail_stops_fetch latin1_lower append_path (lit "10467/82")
           broken_answer [Reply document_answer] quiet_world);
    [reflexivity|intros data Hdata; vm_compute in Hdata; discriminate].
Defined.

Lemma detail_values_win_sample :
  ∃ metadata,
    build_metadata latin1_lower append_path (lit "10467/82") detail_dict
      document_view (now_iso quiet_world) = Val metadata
    ∧ md_title metadata = JStr (lit "Analysis of X").
Proof.
  eexists. split; [vm_compute; reflexivity|].
  eapply (detail_values_win latin1_lower append_path detail_answer detail_dict
            (lit "10467/82") document_view (now_iso quiet_world));
    vm_compute; reflexivity.
Defined.

Lemma unsliceable_date_loses_record_sample :
  (∃ net' w',
     get_thesis_metadata latin1_lower append_path (lit "10467/82")
       [Reply detail_numeric_date; Reply document_answer] quiet_world
     = (Val None, net', w'))
  ∧ (∀ r2 rest', [Reply document_answer] = Reply r2 :: rest' →
       status_ok r2 = true →
       ∃ w', get_thesis_metadata latin1_lower append_path (lit "10467/82")
               [Reply detail_numeric_date; Reply document_answer] quiet_world
             = (Val None, rest', w')
             ∧ log w'
               = log quiet_world
                 ++ [ErrorMetadata (view_error latin1_lower append_path r2)]).
Proof.
  apply (unsliceable_date_loses_record latin1_lower append_path
           (lit "10467/82") detail_numeric_date numeric_date_dict
           [Reply document_answer] quiet_world);
    vm_compute; reflexivity.
Defined.

Lemma view_alone_gives_record_sample :
  (∃ metadata w',
     get_thesis_metadata latin1_lower append_path (lit "10467/82")
       [Reply not_found; Reply document_answer] quiet_world
     = (Val (Some metadata), [], w')
     ∧ build_metadata latin1_lower append_path (lit "10467/82") ∅
         document_view (now_iso quiet_world) = Val metadata
     ∧ md_handle metadata = lit "10467/82"
     ∧ md_pdf_url metadata
       = Some (base_url
               ++ lit "/bitstream/handle/10467/82/thesis.pdf?sequence=-1&isAllowed=y")
     ∧ md_last_updated metadata = now_iso quiet_world
     ∧ log w' = log quiet_world)
  ∧ (∃ w', get_thesis_metadata latin1_lower append_path (lit "10467/82")
             [NoReply; Reply document_answer] quiet_world
           = (Val None, [Reply document_answer], w')
           ∧ sent w' = sent quiet_world ++ [rest_request (lit "10467/82")]).
Proof.
  exact (view_alone_gives_record latin1_lower append_path (lit "10467/82")
           not_found document_answer [] quiet_world eq_refl eq_refl).
Defined.

(** A view with a link that [urljoin] refuses, and a view the parser
    refuses: no record, and the exception in the log. *)
Example view_with_bad_link :
  (∃ w',
     get_thesis_metadata latin1_lower append_path (lit "10467/82")
       [Reply not_found; Reply bad_link_answer] quiet_world
     = (Val None, [], w')
     ∧ log w' = log quiet_world ++ [ErrorMetadata ValueError])
  ∧ (∃ w',
       get_thesis_metadata latin1_lower append_path (lit "10467/82")
         [Reply not_found; Reply refused_answer] quiet_world
       = (Val None, [], w')
       ∧ log w' = log quiet_world ++ [ErrorMetadata ParserRejectedMarkup]).
Proof. split; eexists; by vm_compute. Qed.

Lemma abstracts_first_of_each_kind_sample :
  ∃ metadata,
    build_metadata latin1_lower append_path (lit "10467/82") ∅ abstracts_doc
      (now_iso quiet_world) = Val metadata
    ∧ md_abstract metadata
      = head (filter (fun text => truthy text = true
                                  ∧ english (lower latin1_lower) text = false)
                (abstract_texts abstracts_doc))
    ∧ md_abstract_en metadata
      = head (filter (fun text => truthy text = true
                                  ∧ english (lower latin1_lower) text = true)
                (abstract_texts abstracts_doc)).
Proof.
  eexists. split; [vm_compute; reflexivity|].
  apply (abstracts_first_of_each_kind latin1_lower append_path (lit "10467/82")
           ∅ abstracts_doc (now_iso quiet_world)).
  vm_compute. reflexivity.
Defined.

Lemma like_handles_share_file_sample :
  save_metadata open_short dump_ok (bare_metadata (lit "10467_1/2"))
    (save_metadata open_short dump_ok (bare_metadata (lit "10467/1_2"))
       quiet_world).2
  = save_metadata open_short dump_ok (bare_metadata (lit "10467_1/2"))
      quiet_world
  ∧ metadata_store
      (save_metadata open_short dump_ok (bare_metadata (lit "10467_1/2"))
         (save_metadata open_short dump_ok (bare_metadata (lit "10467/1_2"))
            quiet_world).2).2
      !! metadata_path (md_handle (bare_metadata (lit "10467/1_2")))
    = Some (bare_metadata (lit "10467_1/2")).
Proof.
  apply (like_handles_share_file open_short dump_ok
           (bare_metadata (lit "10467/1_2"))
           (bare_metadata (lit "10467_1/2")) quiet_world);
    [by vm_compute|by vm_compute|vm_compute; reflexivity..].
Defined.

Lemma plain_handles_kept_apart_sample :
  let w' := (save_metadata open_short dump_ok (bare_metadata (lit "10467/2"))
               (save_metadata open_short dump_ok
                  (bare_metadata (lit "10467/1")) quiet_world).2).2 in
  metadata_store w' !! metadata_path (md_handle (bare_metadata (lit "10467/1")))
  = Some (bare_metadata (lit "10467/1"))
  ∧ metadata_store w'
      !! metadata_path (md_handle (bare_metadata (lit "10467/2")))
    = Some (bare_metadata (lit "10467/2"))
  ∧ files w' = files quiet_world ∧ sent w' = sent quiet_world
  ∧ log w' = log quiet_world
  ∧ (∀ metadata, md_handle metadata = [] →
       save_metadata open_short dump_ok metadata w' = (Val tt, w'))
  ∧ (∀ metadata e, md_handle metadata ≠ [] →
       open_short (metadata_path (md_handle metadata)) = Some e →
       save_metadata open_short dump_ok metadata w' = (Raise e, w')).
Proof.
  apply (plain_handles_kept_apart open_short dump_ok
           (bare_metadata (lit "10467/1"))
           (bare_metadata (lit "10467/2")) quiet_world);
    first [ by vm_compute
          | apply (bool_decide_unpack _); by vm_compute
          | vm_compute; reflexivity ].
Defined.

(** A handle of 256 characters: the file cannot be opened, nothing is
    stored and the exception leaves [save_metadata]. *)
Example long_handle_not_saved :
  save_metadata open_short dump_ok (bare_metadata (replicate 256 48%N))
    quiet_world
  = (Raise OSError, quiet_world).
Proof. by vm_compute. Qed.


Lemma handle_record_degrades_sample :
  let once := Thesis (title thesis_with_handle) (author thesis_with_handle)
                (year thesis_with_handle) (lit "10467/1")
                (Some (lit "10467/1")) in
  let twice := Thesis (title thesis_with_handle) (author thesis_with_handle)
                 (lit "10467/1") (lit "10467/1") (Some (lit "10467/1")) in
  parse_theses (save_theses [thesis_with_handle]) = [once]
  ∧ parse_theses (save_theses [once]) = [twice]
  ∧ parse_theses (save_theses [twice]) = [twice].
Proof.
  apply (handle_record_degrades thesis_with_handle (lit "10467/1"));
    [exact (Forall_inv sample_theses_storable)|reflexivity].
Defined.

Lemma known_handle_not_resolved_sample :
  let '(d', net', w') :=
    process_thesis latin1_lower latin1_isupper decimal_int append_path open_short dump_ok 2026
      thesis_known (Build_driver [] [] 0)
      [Reply detail_answer; Reply document_answer] quiet_world in
  (∃ requests, sent w' = sent quiet_world ++ requests
               ∧ Forall (about (lit "10467/82")) requests)
  ∧ discovered_handles d' = discovered_handles (Build_driver [] [] 0)
  ∧ (theses_with_handles d'
     = theses_with_handles (Build_driver [] [] 0) ++ [thesis_known]
     ∨ theses_with_handles d'
       = theses_with_handles (Build_driver [] [] 0)
         ++ [with_handle thesis_known None]).
Proof.
  apply (known_handle_not_resolved latin1_lower latin1_isupper decimal_int
           append_path open_short dump_ok 2026 thesis_known (lit "10467/82")
           (Build_driver [] [] 0)
           [Reply detail_answer; Reply document_answer] quiet_world);
    by vm_compute.
Defined.

Lemma handle_backfilled_as_year_sample :
  (py_truthy (md_year (bare_metadata (lit "10467/1"))) = false →
   md_year (backfill
              (Thesis (lit "Analysis of X") (lit "Novak Jan") (lit "2020")
                 (lit "10467/1") (Some (lit "10467/1")))
              (bare_metadata (lit "10467/1")))
   = JStr (lit "10467/1"))
  ∧ (py_truthy (md_year (bare_metadata (lit "10467/1"))) = true →
     md_year (backfill
                (Thesis (lit "Analysis of X") (lit "Novak Jan") (lit "2020")
                   (lit "10467/1") (Some (lit "10467/1")))
                (bare_metadata (lit "10467/1")))
     = md_year (bare_metadata (lit "10467/1")))
  ∧ (py_truthy (md_title (bare_metadata (lit "10467/1"))) = true →
     md_title (backfill
                 (Thesis (lit "Analysis of X") (lit "Novak Jan") (lit "2020")
                    (lit "10467/1") (Some (lit "10467/1")))
                 (bare_metadata (lit "10467/1")))
     = md_title (bare_metadata (lit "10467/1")))
  ∧ (py_truthy (md_author (bare_metadata (lit "10467/1"))) = true →
     md_author (backfill
                  (Thesis (lit "Analysis of X") (lit "Novak Jan") (lit "2020")
                     (lit "10467/1") (Some (lit "10467/1")))
                  (bare_metadata (lit "10467/1")))
     = md_author (bare_metadata (lit "10467/1")))
  ∧ (py_truthy (md_type (bare_metadata (lit "10467/1"))) = true →
     md_type (backfill
                (Thesis (lit "Analysis of X") (lit "Novak Jan") (lit "2020")
                   (lit "10467/1") (Some (lit "10467/1")))
                (bare_metadata (lit "10467/1")))
     = md_type (bare_metadata (lit "10467/1"))).
Proof.
  apply (handle_backfilled_as_year
           (lit "Novak Jan,Analysis of X,bachelor,2020,10467/1")
           (Thesis (lit "Analysis of X") (lit "Novak Jan") (lit "2020")
              (lit "10467/1") (Some (lit "10467/1")))
           (lit "10467/1") (bare_metadata (lit "10467/1")));
    [vm_compute; reflexivity|reflexivity|by vm_compute].
Defined.

Lemma summary_counts_sample :
  ∃ content out discovered written earlier,
    files stored_world !! store_name = Some (Val content)
    ∧ files (main latin1_lower latin1_isupper decimal_int append_path
               makedirs_ok open_short dump_ok answering_network
               stored_world).2
        !! store_name
      = Some (Val (save_theses out))
    ∧ log (main latin1_lower latin1_isupper decimal_int append_path
             makedirs_ok open_short dump_ok answering_network stored_world).2
      = earlier
        ++ InfoSummary (length out) (with_handles out) (length discovered)
             written
           :: discovered_lines discovered
    ∧ length out = length (parse_theses content)
    ∧ written
      + future_handles decimal_int (now_year stored_world)
          (parse_theses content)
      = with_handles out
    ∧ NoDup discovered.*1
    ∧ Forall (discovered_from decimal_int (now_year stored_world)
                (parse_theses content)) discovered.
Proof.
  apply (summary_counts latin1_lower latin1_isupper decimal_int append_path
           makedirs_ok open_short dump_ok answering_network stored_world []).
  by vm_compute.
Defined.

Lemma combined_score_bounds_sample :
  ∃ score,
    record_score latin1_lower query_title (lit "Novak") candidate_082
    = Some score
    ∧ (0 <= score <= 1)%Q.
Proof.
  eexists. split; [vm_compute; reflexivity|].
  eapply (combined_score_bounds latin1_lower query_title (lit "Novak")
            candidate_082).
  vm_compute. reflexivity.
Defined.
